(** * PowerGenome: scenario settings overlay and fuel cost table

    A shallow embedding of
      - [powergenome/fuels.py]: [fuel_cost_table], [adjust_ccs_fuels],
        [add_carbon_tax];
      - [powergenome/run_powergenome_multiple_outputs_cli.py]:
        [build_case_id_name_map], [build_scenario_settings] and the parts
        of [main] that prepare their inputs and number the fuel table;
    and of the dictionary merge [update_dictionary] they rely on.

    Conventions.
      - A Python exception is a value of [exn]; a computation that may raise
        returns [result A].  [try ... except KeyError: pass] is [catch_KeyError].
      - Python floats are IEEE 754 doubles.  [fuels.py] is embedded over an
        arithmetic [Arithmetic F]: [binary64], the doubles of the Standard
        Library's [SpecFloat], is the arithmetic the code runs on; [rational],
        the exact arithmetic of [Qc], is the arithmetic in which the formulas
        of the specification are written.  What a theorem states for every
        arithmetic holds of both.
      - A missing cell of a pandas column is [None]; a cell that holds a NaN
        that was computed is filled like a missing one.
      - A [dict] of the settings is the list of its items, in insertion order;
        the lookups of [fuels.py], where order plays no role, are [gmap]s.
      - A list or a dict of the settings carries the identity of the Python
        object it is, so that two names for one object can be told from two
        equal objects.  The settings are a tree: the caller reaches no object
        by two paths.
      - Log messages are not modelled.

    Layout: the embedding (all definitions) comes first, the facts after. *)

From Stdlib Require Import ZArith QArith Qcanon Qround String Ascii List Lia.
From Stdlib Require SpecFloat.
From stdpp Require Import base option gmap strings numbers sorting pretty list.

Local Open Scope Z_scope.
Local Open Scope string_scope.
Local Open Scope list_scope.

(** ** Exceptions *)

Inductive exn : Set :=
  | KeyError | IndexError | TypeError | AttributeError | AssertionError.

Inductive result (A : Type) : Type :=
  | Ok (a : A)
  | Err (e : exn).
Arguments Ok {A} a.
Arguments Err {A} e.

#[global] Instance result_ret : MRet result := λ A a, Ok a.
#[global] Instance result_bind : MBind result := λ A B k r,
  match r with Ok a => k a | Err e => Err e end.

(** [d[k]] on an optional entry: absent raises [KeyError]. *)
Definition getitem {A} (o : option A) : result A :=
  match o with Some a => Ok a | None => Err KeyError end.

(** Iterating a body that may raise, threading the loop state. *)
Fixpoint for_each {A S} (xs : list A) (body : S → A → result S) (s : S) : result S :=
  match xs with
  | [] => Ok s
  | x :: xs' => s' ← body s x; for_each xs' body s'
  end.

Fixpoint map_rows {A B} (f : A → result B) (xs : list A) : result (list B) :=
  match xs with
  | [] => Ok []
  | x :: xs' => y ← f x; ys ← map_rows f xs'; Ok (y :: ys)
  end.

(** A computation whose only exception is [KeyError]. *)
Definition only_KeyError {A} (r : result A) : Prop := ∀ e, r = Err e → e = KeyError.

(** [try: body except KeyError: pass], the state of the loop being the one
    before [body]. *)
Definition catch_KeyError {S} (body : result S) (before : S) : result S :=
  match body with
  | Err KeyError => Ok before
  | r => r
  end.

(** ** Python dictionaries

    A [dict] keeps its keys in insertion order; it is the list of its items.
    Assigning to a key that is present replaces the value in place, assigning
    to a new key appends an item. *)

Section Dict.
Context {K V : Type} `{EqDecision K}.

Fixpoint dict_get (k : K) (d : list (K * V)) : option V :=
  match d with
  | [] => None
  | (k', v) :: d' => if decide (k = k') then Some v else dict_get k d'
  end.

Fixpoint dict_set (k : K) (v : V) (d : list (K * V)) : list (K * V) :=
  match d with
  | [] => [(k, v)]
  | (k', v') :: d' =>
      if decide (k = k') then (k, v) :: d' else (k', v') :: dict_set k v d'
  end.

(** [d.pop(k)] of a key that is present *)
Definition dict_pop (k : K) (d : list (K * V)) : list (K * V) :=
  filter (λ kv, kv.1 ≠ k) d.

Definition dict_keys (d : list (K * V)) : list K := d.*1.

End Dict.

(** ** Python string operations *)

(** [s.split(c)] for a one-character separator. *)
Fixpoint split (c : ascii) (s : string) : list string :=
  match s with
  | EmptyString => [EmptyString]
  | String a s' =>
      if Ascii.eqb a c then EmptyString :: split c s'
      else match split c s' with
           | [] => [String a EmptyString]
           | t :: ts => String a t :: ts
           end
  end.

(** [sep.join(l)] *)
Fixpoint join (sep : string) (l : list string) : string :=
  match l with
  | [] => EmptyString
  | [t] => t
  | t :: l' => (t ++ sep ++ join sep l')%string
  end.

(** [sub in s] *)
Fixpoint contains (sub s : string) : bool :=
  String.prefix sub s ||
  match s with
  | EmptyString => false
  | String _ s' => contains sub s'
  end.

(** [l[-2:]] *)
Definition last_two {A} (l : list A) : list A := drop (length l - 2)%nat l.

(** [l[:-1]] *)
Definition all_but_last {A} (l : list A) : list A := removelast l.

(** [pandas.Series.drop_duplicates] / [unique]: first occurrences, in order. *)
Fixpoint unique_from {A} `{EqDecision A} (seen l : list A) : list A :=
  match l with
  | [] => []
  | x :: l' =>
      if bool_decide (x ∈ seen) then unique_from seen l'
      else x :: unique_from (x :: seen) l'
  end.
Definition drop_duplicates {A} `{EqDecision A} (l : list A) : list A :=
  unique_from [] l.

Definition underscore : ascii := "_"%char.

(** [name.split("_")[-1]] *)
Definition last_token (name : string) : string :=
  List.last (split underscore name) EmptyString.

(** [("_").join(name.split("_")[:-1])] *)
Definition drop_last_token (name : string) : string :=
  join "_" (all_but_last (split underscore name)).

(** [("_").join(name.split("_")[-2:])] *)
Definition last_two_tokens (name : string) : string :=
  join "_" (last_two (split underscore name)).

(** ** The arithmetic of Python floats

    The operations of [fuels.py] on numbers: [+], [-], [*], the test of
    [fillna] for a missing value, the truth value of a number ([x or 0]),
    a decimal literal, and [DataFrame.round]. *)

Class Arithmetic (F : Type) := {
  (** [0.0] *)
  fzero : F;
  fadd : F → F → F;
  fsub : F → F → F;
  fmul : F → F → F;
  (** [pandas.isna(x)] *)
  isna : F → bool;
  (** [not bool(x)]: the number is a zero *)
  falsy : F → bool;
  (** the number written [n / d] in decimal notation, [d] a power of ten *)
  dec : Z → positive → F;
  (** [numpy.round(x, d)] *)
  round_decimals : nat → F → F;
  (** a zero stays a zero when it is rounded; 10^22 is the largest power of
      ten that a double holds exactly *)
  round_decimals_zero d : (d ≤ 22)%nat → round_decimals d fzero = fzero
}.

(** *** Exact arithmetic

    Rounding to [d] decimals, half to even. *)

Definition round_half_even (q : Q) : Z :=
  let f := Qfloor q in
  match Qcompare (q - inject_Z f) (1 # 2) with
  | Lt => f
  | Gt => f + 1
  | Eq => if Z.even f then f else f + 1
  end.

Definition Qc_round (d : nat) (x : Qc) : Qc :=
  Q2Qc (inject_Z (round_half_even (x * inject_Z (10 ^ Z.of_nat d)))
        / inject_Z (10 ^ Z.of_nat d)).

#[global, refine] Instance rational : Arithmetic Qc :=
  {| fzero := Q2Qc 0;
     fadd := Qcplus;
     fsub := Qcminus;
     fmul := Qcmult;
     isna _ := false;
     falsy x := bool_decide (x = Q2Qc 0);
     dec n d := Q2Qc (n # d);
     round_decimals := Qc_round |}.
Proof.
  intros d _. unfold Qc_round. apply Qc_is_canon. simpl.
  rewrite Qred_correct. unfold Qdiv.
  replace (round_half_even (0 * inject_Z (10 ^ Z.of_nat d))) with 0%Z;
    [apply Qmult_0_l | reflexivity].
Defined.

(** *** IEEE 754 doubles

    The operations of [SpecFloat] at the precision and the exponent range of
    binary64, rounding to nearest, ties to even. *)

Module Binary64.
Import SpecFloat.

Definition prec : Z := 53.
Definition emax : Z := 1024.

(** [float(z)] *)
Definition of_Z (z : Z) : spec_float := binary_normalize prec emax z 0 false.

Definition add : spec_float → spec_float → spec_float := SFadd prec emax.
Definition sub : spec_float → spec_float → spec_float := SFsub prec emax.
Definition mul : spec_float → spec_float → spec_float := SFmul prec emax.
Definition div : spec_float → spec_float → spec_float := SFdiv prec emax.

Definition is_nan (x : spec_float) : bool :=
  match x with S754_nan => true | _ => false end.

Definition is_zero (x : spec_float) : bool :=
  match x with S754_zero _ => true | _ => false end.

(** [math.isfinite(x)] *)
Definition is_finite (x : spec_float) : bool :=
  match x with S754_zero _ | S754_finite _ _ _ => true | _ => false end.

(** The double nearest to [n / d]: what Python reads from a decimal literal;
    [n] and [d] are doubles themselves. *)
Definition literal (n : Z) (d : positive) : spec_float :=
  div (of_Z n) (of_Z (Zpos d)).

(** [numpy.rint]: the nearest integer, a tie going to the even one; the sign
    is kept, also that of a zero. *)
Definition rint (x : spec_float) : spec_float :=
  match x with
  | S754_finite s m e =>
      if (0 <=? e)%Z then x
      else
        let unit := Z.shiftl 1 (- e) in
        let q := Z.shiftr (Zpos m) (- e) in
        let r := Z.land (Zpos m) (unit - 1) in
        let n := match (2 * r ?= unit)%Z with
                 | Lt => q
                 | Gt => (q + 1)%Z
                 | Eq => if Z.even q then q else (q + 1)%Z
                 end in
        binary_normalize prec emax (if s then - n else n)%Z 0 s
  | _ => x
  end.

(** [numpy.round(x, d)] for [d >= 0]: [rint(x)] for [d = 0], otherwise
    [rint(x * 10**d) / 10**d], each step a double. *)
Definition round (d : nat) (x : spec_float) : spec_float :=
  match d with
  | O => rint x
  | _ => let f := of_Z (10 ^ Z.of_nat d) in div (rint (mul x f)) f
  end.

End Binary64.

Abbreviation double := SpecFloat.spec_float.

#[global, refine] Instance binary64 : Arithmetic double :=
  {| fzero := SpecFloat.S754_zero false;
     fadd := Binary64.add;
     fsub := Binary64.sub;
     fmul := Binary64.mul;
     isna := Binary64.is_nan;
     falsy := Binary64.is_zero;
     dec := Binary64.literal;
     round_decimals := Binary64.round |}.
Proof.
  intros d Hd. do 23 (destruct d as [|d]; [reflexivity|]). lia.
Defined.

(** * fuels.py *)

Module Fuels.

Section Arithmetic.

Context `{Arithmetic F}.

(** The keys of the settings mapping that [fuels.py] reads; [None] is an
    absent key. *)
Record Settings := {
  model_year : option Z;
  fuel_emission_factors : option (gmap string F);
  ccs_disposal_cost : option F;
  ccs_capture_rate : option (gmap string F);
  carbon_tax : option F;
  reduce_time_domain : option bool;
  time_domain_days_per_period : option Z;
  time_domain_periods : option Z
}.

(** A row of the fuel price table. *)
Record PriceRow := {
  fuel : string;
  year : Z;
  price : F;
  full_fuel_name : string
}.

(** A row of [fuel_df]. *)
Record FuelRow := {
  Fuel : string;
  Cost_per_MMBtu : option F;
  CO2_content_tons_per_MMBtu : option F
}.

(** The returned frame: one column per fuel, one labelled row per index. *)
Record FuelTable := {
  index_name : string;
  columns : list string;
  rows : list (Z * list F)
}.

(** Arithmetic on cells: a missing value propagates. *)
Definition cell_mul (a : option F) (b : F) : option F := (λ x, fmul x b) <$> a.
Definition cell_add (a b : option F) : option F :=
  match a, b with Some x, Some y => Some (fadd x y) | _, _ => None end.
Definition cell_sub (a b : option F) : option F :=
  match a, b with Some x, Some y => Some (fsub x y) | _, _ => None end.

Definition adjust_ccs_fuels (settings : Settings) (ccs_fuel_row : FuelRow)
  : result FuelRow :=
  if contains "ccs" (Fuel ccs_fuel_row) then
    disposal_cost ← getitem (ccs_disposal_cost settings);
    let base_fuel_name := last_two_tokens (Fuel ccs_fuel_row) in
    rates ← getitem (ccs_capture_rate settings);
    capture_rate ← getitem (rates !! base_fuel_name);
    let co2_captured :=
      cell_mul (CO2_content_tons_per_MMBtu ccs_fuel_row) capture_rate in
    Ok {| Fuel := Fuel ccs_fuel_row;
          Cost_per_MMBtu :=
            cell_add (Cost_per_MMBtu ccs_fuel_row)
                     (cell_mul co2_captured disposal_cost);
          CO2_content_tons_per_MMBtu :=
            cell_sub (CO2_content_tons_per_MMBtu ccs_fuel_row) co2_captured |}
  else Ok ccs_fuel_row.

(** [settings.get("carbon_tax") or 0] *)
Definition ctax_of (settings : Settings) : F :=
  match carbon_tax settings with
  | Some ctax => if falsy ctax then fzero else ctax
  | None => fzero
  end.

Definition tax_row (ctax : F) (r : FuelRow) : FuelRow :=
  {| Fuel := Fuel r;
     Cost_per_MMBtu :=
       cell_add (Cost_per_MMBtu r) (cell_mul (CO2_content_tons_per_MMBtu r) ctax);
     CO2_content_tons_per_MMBtu := CO2_content_tons_per_MMBtu r |}.

Definition add_carbon_tax (fuel_df : list FuelRow) (settings : Settings)
  : list FuelRow :=
  let ctax := ctax_of settings in
  tax_row ctax <$> fuel_df.

(** [fillna(0)] on the two numeric columns *)
Definition fillna0 (c : option F) : F :=
  match c with
  | Some x => if isna x then fzero else x
  | None => fzero
  end.

(** Lines 59-64: the number of hourly rows. *)
Definition num_hours_of (settings : Settings) : result Z :=
  if default false (reduce_time_domain settings) then
    days ← getitem (time_domain_days_per_period settings);
    time_periods ← getitem (time_domain_periods settings);
    Ok (days * time_periods * 24)%Z
  else Ok 8760%Z.

(** Lines 19-22: the dict comprehension; a later row with the same name
    replaces an earlier one. *)
Definition build_fuel_price_map (model_year_costs : list PriceRow)
  : gmap string F :=
  foldl (λ m row, <[full_fuel_name row := price row]> m) ∅ model_year_costs.

(** Lines 34-40 *)
Definition build_fuel_emission_map (emission_dict fuel_price_map : gmap string F)
  : gmap string F :=
  map_imap (λ full_fuel_name _,
              Some (default fzero (emission_dict !! last_token full_fuel_name)))
           fuel_price_map.

(** Lines 43-47: one turn of the loop over the CCS fuels. *)
Definition ccs_step (maps : gmap string F * gmap string F) (ccs_fuel : string)
  : result (gmap string F * gmap string F) :=
  let '(fuel_price_map, fuel_emission_map) := maps in
  let base_name := drop_last_token ccs_fuel in
  p ← getitem (fuel_price_map !! base_name);
  let fuel_price_map := <[ccs_fuel := p]> fuel_price_map in
  e ← getitem (fuel_emission_map !! base_name);
  Ok (fuel_price_map, <[ccs_fuel := e]> fuel_emission_map).

(** [range(1, num_hours + 1)] *)
Definition hour_index (num_hours : Z) : list Z :=
  (λ i, Z.of_nat (S i)) <$> seq 0 (Z.to_nat num_hours).

(** The CCS fuels of the roster (line 42). *)
Definition ccs_fuels_of (generators : list string) : list string :=
  drop_duplicates (filter (λ f, contains "ccs" f = true) generators).

(** Lines 49-50: the frame of the unique fuels with the mapped columns. *)
Definition lookup_rows (maps : gmap string F * gmap string F)
    (unique_fuels : list string) : list FuelRow :=
  (λ f, {| Fuel := f;
           Cost_per_MMBtu := maps.1 !! f;
           CO2_content_tons_per_MMBtu := maps.2 !! f |}) <$> unique_fuels.

Definition cost_column (fuel_df : list FuelRow) : list F :=
  (λ r, fillna0 (Cost_per_MMBtu r)) <$> fuel_df.
Definition co2_column (fuel_df : list FuelRow) : list F :=
  (λ r, fillna0 (CO2_content_tons_per_MMBtu r)) <$> fuel_df.

Section FuelCostTable.

(** [powergenome.eia_opendata.add_user_fuel_prices] is an external
    collaborator of this module. *)
Variable add_user_fuel_prices : Settings → list PriceRow → list PriceRow.

(** Lines 12-22: the price lookup of the model year. *)
Definition model_year_prices (fuel_costs : list PriceRow) (settings : Settings)
  : result (gmap string F) :=
  let all_fuel_costs := add_user_fuel_prices settings fuel_costs in
  my ← getitem (model_year settings);
  let model_year_costs := filter (λ row, year row = my) all_fuel_costs in
  Ok (build_fuel_price_map model_year_costs).

(** Lines 12-47: both lookups, after the loop over the CCS fuels. *)
Definition fuel_lookups (fuel_costs : list PriceRow) (generators : list string)
    (settings : Settings) : result (gmap string F * gmap string F) :=
  fuel_price_map ← model_year_prices fuel_costs settings;
  emission_dict ← getitem (fuel_emission_factors settings);
  let fuel_emission_map := build_fuel_emission_map emission_dict fuel_price_map in
  for_each (ccs_fuels_of generators) ccs_step (fuel_price_map, fuel_emission_map).

(** Lines 12-53: [fuel_df] after the row-wise CCS adjustment. *)
Definition ccs_adjusted_frame (fuel_costs : list PriceRow)
    (generators : list string) (settings : Settings) : result (list FuelRow) :=
  let unique_fuels := drop_duplicates generators in
  maps ← fuel_lookups fuel_costs generators settings;
  map_rows (adjust_ccs_fuels settings) (lookup_rows maps unique_fuels).

Definition fuel_cost_table (fuel_costs : list PriceRow) (generators : list string)
    (settings : Settings) : result FuelTable :=
  let unique_fuels := drop_duplicates generators in
  fuel_df ← ccs_adjusted_frame fuel_costs generators settings;
  let fuel_df := add_carbon_tax fuel_df settings in
  num_hours ← num_hours_of settings;
  let fuel_df_prices :=
    (λ i, (i, round_decimals 2 <$> cost_column fuel_df)) <$> hour_index num_hours in
  let fuel_df_top := [(0%Z, round_decimals 5 <$> co2_column fuel_df)] in
  Ok {| index_name := "Time_Index";
        columns := unique_fuels;
        rows := fuel_df_top ++ fuel_df_prices |}.

(** The specification of the fatal lookups, "the price lookup" being the
    price lookup of the model year. *)
Definition ccs_lookup_failure_claim fuel_costs generators settings f : Prop :=
  f ∈ generators → contains "ccs" f = true →
  (∀ prices, model_year_prices fuel_costs settings = Ok prices →
     prices !! drop_last_token f = None) ∨
  ccs_disposal_cost settings = None ∨
  (∀ rates, ccs_capture_rate settings = Some rates →
     rates !! last_two_tokens f = None) →
  fuel_cost_table fuel_costs generators settings = Err KeyError.

(** The specification of the prices of CCS fuels: a price row keyed by a CCS
    fuel of the roster is never used, so two price tables with the same rows
    under all other names give the same table. *)
Definition ccs_rows_unused_claim fuel_costs fuel_costs' generators settings
  : Prop :=
  filter (λ row, full_fuel_name row ∉ ccs_fuels_of generators) fuel_costs =
  filter (λ row, full_fuel_name row ∉ ccs_fuels_of generators) fuel_costs' →
  fuel_cost_table fuel_costs generators settings =
  fuel_cost_table fuel_costs' generators settings.

End FuelCostTable.



Definition same_keys (maps : gmap string F * gmap string F) : Prop :=
  ∀ f, maps.1 !! f = None ↔ maps.2 !! f = None.

(** Two pairs of lookups that hold the same entries under all names shorter
    than [n]. *)
Definition agree_below (n : nat) (m m' : gmap string F * gmap string F) : Prop :=
  ∀ k, (String.length k < n)%nat → m.1 !! k = m'.1 !! k ∧ m.2 !! k = m'.2 !! k.

(** Example inputs. *)
Definition example_settings : Settings :=
  {| model_year := Some 2030%Z;
     fuel_emission_factors := Some {[ "NG" := dec 53 1000 ]};
     ccs_disposal_cost := Some (dec 10 1);
     ccs_capture_rate := Some {[ "NG_ccs" := dec 9 10 ]};
     carbon_tax := Some (dec 5 1);
     reduce_time_domain := Some true;
     time_domain_days_per_period := Some 7%Z;
     time_domain_periods := Some 4%Z |}.

Definition example_prices : list PriceRow :=
  [ {| fuel := "NG"; year := 2030; price := dec 3 1; full_fuel_name := "NG" |};
    {| fuel := "NG"; year := 2040; price := dec 4 1; full_fuel_name := "NG" |} ].

Definition example_roster : list string := ["NG"; "NG_ccs"; "coal"; "NG"].

Definition no_user_prices (settings : Settings) (fuel_costs : list PriceRow)
  : list PriceRow := fuel_costs.


(** A roster in which one CCS fuel is the base of another. *)
Definition chained_roster : list string := ["NG_ccs"; "NG_ccs_x"].

Definition chained_settings : Settings :=
  {| model_year := Some 2030%Z;
     fuel_emission_factors := Some {[ "NG" := dec 53 1000 ]};
     ccs_disposal_cost := Some (dec 10 1);
     ccs_capture_rate := Some (<[ "ccs_x" := dec 1 2 ]> {[ "NG_ccs" := dec 9 10 ]});
     carbon_tax := None;
     reduce_time_domain := Some true;
     time_domain_days_per_period := Some 1%Z;
     time_domain_periods := Some 1%Z |}.

(** The same roster, the derived fuel first, and a price table with a row
    keyed by the CCS fuel "NG_ccs". *)
Definition derived_first_roster : list string := ["NG_ccs_x"; "NG_ccs"].

Definition prices_with_ccs_row (p : F) : list PriceRow :=
  example_prices ++
  [ {| fuel := "NG"; year := 2030; price := p; full_fuel_name := "NG_ccs" |} ].

End Arithmetic.

Arguments Settings : clear implicits.
Arguments PriceRow : clear implicits.
Arguments FuelRow : clear implicits.
Arguments FuelTable : clear implicits.

End Fuels.

(** * run_powergenome_multiple_outputs_cli.py *)

Module Scenario.

(** The hashable scalars of a settings file and of a scenario table. *)
Inductive key : Set :=
  | KNone
  | KInt (z : Z)
  | KStr (s : string).

#[global] Instance key_eq_dec : EqDecision key.
Proof. solve_decision. Defined.

(** The identity of a mutable object.  [Obj n] is an object the caller holds;
    [Copy year case_id o] is the copy of [o] made by the [copy.deepcopy] that
    is executed for [(year, case_id)]. *)
Inductive oid : Set :=
  | Obj (n : nat)
  | Copy (year case_id : key) (src : oid).

#[global] Instance oid_eq_dec : EqDecision oid.
Proof. solve_decision. Defined.

(** The values of a settings mapping: scalars, sequences and nested
    mappings.  A list and a dict are objects: two occurrences with one [oid]
    are one object, reached twice. *)
Inductive value : Type :=
  | VNaN
  | VKey (k : key)
  | VList (o : oid) (elements : list value)
  | VDict (o : oid) (entries : list (key * value)).

Record mapping : Type := Mapping {
  oid_of : oid;
  items : list (key * value)
}.

Definition dict_value (d : mapping) : value := VDict (oid_of d) (items d).

Definition VStr (s : string) : value := VKey (KStr s).
Definition VInt (z : Z) : value := VKey (KInt z).

(** A cell of the scenario table; [None] is a blank cell (NaN). *)
Definition value_of_cell (c : option key) : value :=
  match c with Some k => VKey k | None => VNaN end.

(** One row of the scenario-definition table, and the table: the columns are
    [case_id], [year] and one column for each category. *)
Record Row : Type := {
  case_id : key;
  year : key;
  cells : list (option key)
}.

Record Table : Type := {
  categories : list string;
  rows : list Row
}.

Definition columns (scenario_definitions : Table) : list string :=
  "case_id" :: "year" :: categories scenario_definitions.

(** The cell of a row in the [j]-th category; short rows are read as blank. *)
Definition cell_at (r : Row) (j : nat) : option key := default None (cells r !! j).

(** [seq[i]] for an integer index *)
Definition list_index (xs : list value) (z : Z) : result value :=
  let n := Z.of_nat (length xs) in
  if bool_decide (0 ≤ z < n)%Z then
    match xs !! Z.to_nat z with Some x => Ok x | None => Err IndexError end
  else if bool_decide (- n ≤ z < 0)%Z then
    match xs !! Z.to_nat (n + z) with Some x => Ok x | None => Err IndexError end
  else Err IndexError.

Definition chars (s : string) : list value :=
  (λ c, VStr (String c EmptyString)) <$> list_ascii_of_string s.

(** [v[k]]; the index [None] is a blank cell. *)
Definition subscript (v : value) (k : option key) : result value :=
  match v with
  | VDict _ es =>
      match k with
      | Some k => getitem (dict_get k es)
      | None => Err KeyError
      end
  | VList _ xs =>
      match k with
      | Some (KInt z) => list_index xs z
      | _ => Err TypeError
      end
  | VKey (KStr s) =>
      match k with
      | Some (KInt z) => list_index (chars s) z
      | _ => Err TypeError
      end
  | _ => Err TypeError
  end.

(** [settings[name]] *)
Definition setting (settings : mapping) (name : string) : result value :=
  getitem (dict_get (KStr name) (items settings)).

(** [d[k] = v] *)
Definition setitem (k : key) (v : value) (d : mapping) : mapping :=
  {| oid_of := oid_of d; items := dict_set k v (items d) |}.

(** [v.keys()] needs a mapping. *)
Definition as_mapping (v : value) : result mapping :=
  match v with
  | VDict o es => Ok {| oid_of := o; items := es |}
  | _ => Err AttributeError
  end.

(** [iter(v)], as [zip] calls it. *)
Definition iter (v : value) : result (list value) :=
  match v with
  | VList _ xs => Ok xs
  | VDict _ es => Ok (VKey <$> dict_keys es)
  | VKey (KStr s) => Ok (chars s)
  | _ => Err TypeError
  end.

(** The key a value is stored under; NaN is stored but never found again. *)
Definition hash_key (v : value) : result (option key) :=
  match v with
  | VKey k => Ok (Some k)
  | VNaN => Ok None
  | _ => Err TypeError
  end.

(** [copy.deepcopy]: the same tree, made of new objects. *)
Fixpoint deepcopy (year case_id : key) (v : value) : value :=
  match v with
  | VList o xs => VList (Copy year case_id o) (map (deepcopy year case_id) xs)
  | VDict o es =>
      VDict (Copy year case_id o)
            (map (λ kv, (kv.1, deepcopy year case_id kv.2)) es)
  | _ => v
  end.

Definition deepcopy_mapping (year case_id : key) (d : mapping) : mapping :=
  {| oid_of := Copy year case_id (oid_of d);
     items := map (λ kv, (kv.1, deepcopy year case_id kv.2)) (items d) |}.

(** Modelled from the spec: [powergenome.util.update_dictionary], which is not
    among the source files.  "For each key in patch: if both base[key] and
    patch[key] are mapping-typed, recursively merge; otherwise patch[key]
    replaces base[key] (added if absent)."  The merged mapping is the base
    object; a value taken from the patch is the patch's object. *)
Fixpoint merge_value (bv pv : value) {struct pv} : value :=
  match pv, bv with
  | VDict _ pes, VDict ob bes =>
      VDict ob
        ((fix update (pes bes : list (key * value)) {struct pes} :=
            match pes with
            | [] => bes
            | (k, v) :: pes' =>
                update pes'
                  (dict_set k (match dict_get k bes with
                               | Some b => merge_value b v
                               | None => v
                               end) bes)
            end) pes bes)
  | _, _ => pv
  end.

(** Modelled from the spec: one key of the patch. *)
Definition update_key (base : list (key * value)) (kv : key * value)
  : list (key * value) :=
  dict_set kv.1 (match dict_get kv.1 base with
                 | Some b => merge_value b kv.2
                 | None => kv.2
                 end) base.

(** Modelled from the spec: [update_dictionary] (see [merge_value]). *)
Definition update_dictionary (base patch : mapping) : mapping :=
  {| oid_of := oid_of base;
     items := foldl update_key (items base) (items patch) |}.

(** The keys of a [dict] are distinct, at every depth. *)
Fixpoint well_formed (v : value) : bool :=
  match v with
  | VList _ xs => forallb well_formed xs
  | VDict _ es =>
      bool_decide (NoDup (dict_keys es)) && forallb (λ kv, well_formed kv.2) es
  | _ => true
  end.

(** Lines 120-125 *)
Definition model_planning_period_dict (settings : mapping)
  : result (list (key * (value * value))) :=
  model_year ← setting settings "model_year";
  model_first_planning_year ← setting settings "model_first_planning_year";
  years ← iter model_year;
  start_years ← iter model_first_planning_year;
  for_each (zip years start_years)
    (λ d '(year, start_year),
       k ← hash_key year;
       Ok (match k with
           | Some k => dict_set k (start_year, year) d
           | None => d
           end)) [].

(** [df.set_index("case_id")[column].to_dict()] *)
Definition column_dict (rs : list Row) (cell : Row → option key)
  : list (key * option key) :=
  foldl (λ d r, dict_set (case_id r) (cell r) d) [] rs.

(** Lines 136-141 *)
Definition planning_year_scenario_definitions_dict
    (scenario_definitions : Table) (y : key)
  : list (string * list (key * option key)) :=
  let of_year := filter (λ r, year r = y) (rows scenario_definitions) in
  let to_dict :=
    foldl (λ d jc, dict_set jc.2 (column_dict of_year (λ r, cell_at r jc.1)) d)
          [("year", column_dict of_year (λ r, Some (year r)))]
          (imap (λ j category, (j, category)) (categories scenario_definitions)) in
  dict_pop "year" to_dict.

(** [case_scenario_definitions.squeeze()] is a row only when exactly one row
    is selected; [.at[col]] on anything else raises (a [TypeError] or a
    [ValueError], by the version of pandas). *)
Definition squeeze (selected : list Row) : result Row :=
  match selected with
  | [r] => Ok r
  | _ => Err TypeError
  end.

(** Lines 155-156 *)
Definition overlay_columns (scenario_definitions : Table) (r : Row)
    (_settings : mapping) : mapping :=
  let _settings := setitem (KStr "case_id") (VKey (case_id r)) _settings in
  let _settings := setitem (KStr "year") (VKey (year r)) _settings in
  foldl (λ s jc, setitem (KStr jc.2) (value_of_cell (cell_at r jc.1)) s)
        _settings
        (imap (λ j category, (j, category)) (categories scenario_definitions)).

(** Lines 172-177 *)
Definition check_keys (settings_keys modified_settings : list key)
  : result (list key) :=
  for_each settings_keys
    (λ modified_settings key,
       if bool_decide (key ∈ modified_settings) then Err AssertionError
       else Ok (modified_settings ++ [key])) modified_settings.

(** Lines 164-183: one category.  A [KeyError] can only come from the two
    lookups, before anything is changed. *)
Definition apply_category (planning_year_settings_management : value)
    (case_id : key) (state : list key * mapping)
    (item : string * list (key * option key)) : result (list key * mapping) :=
  let '(modified_settings, _settings) := state in
  let '(category, case_value_dict) := item in
  catch_KeyError
    (case_value ← getitem (dict_get case_id case_value_dict);
     by_variant ← subscript planning_year_settings_management (Some (KStr category));
     new_parameter ← subscript by_variant case_value;
     new_parameter ← as_mapping new_parameter;
     let settings_keys := dict_keys (items new_parameter) in
     modified_settings ← check_keys settings_keys modified_settings;
     Ok (modified_settings, update_dictionary _settings new_parameter))
    state.

(** Lines 144-188: the settings of one case in one year. *)
Definition case_settings (settings : mapping) (scenario_definitions : Table)
    (model_planning_period_dict : list (key * (value * value)))
    (case_id_name_map : list (key * string))
    (planning_year_settings_management : value)
    (planning_year_scenario_definitions_dict : list (string * list (key * option key)))
    (y c : key) : result mapping :=
  let _settings := deepcopy_mapping y c settings in
  let case_scenario_definitions :=
    filter (λ r, case_id r = c ∧ year r = y) (rows scenario_definitions) in
  r ← squeeze case_scenario_definitions;
  let _settings := overlay_columns scenario_definitions r _settings in
  '(_, _settings) ←
     for_each planning_year_scenario_definitions_dict
       (apply_category planning_year_settings_management c) ([], _settings);
  planning ← getitem (dict_get y model_planning_period_dict);
  let _settings := setitem (KStr "model_first_planning_year") planning.1 _settings in
  let _settings := setitem (KStr "model_year") planning.2 _settings in
  name ← getitem (dict_get c case_id_name_map);
  Ok (setitem (KStr "case_name") (VStr name) _settings).

(** Lines 131-188: the settings of every case in one year. *)
Definition planning_year_settings (settings : mapping)
    (scenario_definitions : Table)
    (model_planning_period_dict : list (key * (value * value)))
    (case_id_name_map : list (key * string)) (y : key)
  : result (list (key * mapping)) :=
  settings_management ← setting settings "settings_management";
  planning_year_settings_management ← subscript settings_management (Some y);
  let planning_year_scenario_definitions_dict :=
    planning_year_scenario_definitions_dict scenario_definitions y in
  for_each (drop_duplicates (case_id <$> rows scenario_definitions))
    (λ of_year c,
       _settings ← case_settings settings scenario_definitions
                     model_planning_period_dict case_id_name_map
                     planning_year_settings_management
                     planning_year_scenario_definitions_dict y c;
       Ok (dict_set c _settings of_year)) [].

(** Lines 118-190.  [case_id_name_map] is what [build_case_id_name_map] reads
    from the case description file. *)
Definition build_scenario_settings (settings : mapping)
    (scenario_definitions : Table) (case_id_name_map : list (key * string))
  : result (list (key * list (key * mapping))) :=
  model_planning_period_dict ← model_planning_period_dict settings;
  for_each (drop_duplicates (year <$> rows scenario_definitions))
    (λ scenario_settings y,
       of_year ← planning_year_settings settings scenario_definitions
                   model_planning_period_dict case_id_name_map y;
       Ok (dict_set y of_year scenario_settings)) [].

(** [scenario_settings[year][case_id]] of the result *)
Definition resolved (scenario_settings : list (key * list (key * mapping)))
    (y c : key) : option mapping :=
  of_year ← dict_get y scenario_settings; dict_get c of_year.

(** ** Statements about the inputs and the result *)

(** The two lookups of lines 166-168 and the [.keys()] of line 170. *)
Definition find_patch (planning_year_settings_management : value)
    (category : string) (case_value : option key) : result mapping :=
  by_variant ← subscript planning_year_settings_management (Some (KStr category));
  new_parameter ← subscript by_variant case_value;
  as_mapping new_parameter.

(** The patch that the category in column [j] selects for the case and year
    of row [r], when there is one. *)
Definition selected_patch (settings : mapping) (scenario_definitions : Table)
    (r : Row) (j : nat) : option mapping :=
  match categories scenario_definitions !! j with
  | Some category =>
      match
        (settings_management ← setting settings "settings_management";
         planning_year_settings_management ←
           subscript settings_management (Some (year r));
         find_patch planning_year_settings_management category (cell_at r j))
      with
      | Ok patch => Some patch
      | Err _ => None
      end
  | None => None
  end.

(** No case and year has two categories that patch the same settings key. *)
Definition no_double_patch (settings : mapping) (scenario_definitions : Table)
  : Prop :=
  ∀ r i j patch_i patch_j k,
    r ∈ rows scenario_definitions → i ≠ j →
    selected_patch settings scenario_definitions r i = Some patch_i →
    selected_patch settings scenario_definitions r j = Some patch_j →
    k ∈ dict_keys (items patch_i) → k ∉ dict_keys (items patch_j).

(** The table holds the pair of a case and a year. *)
Definition in_table (scenario_definitions : Table) (y c : key) : Prop :=
  ∃ r, r ∈ rows scenario_definitions ∧ year r = y ∧ case_id r = c.

(** The result holds exactly one [Settings] for each pair of the table, named
    after the case. *)
Definition one_settings_per_case (scenario_definitions : Table)
    (case_id_name_map : list (key * string))
    (scenario_settings : list (key * list (key * mapping))) : Prop :=
  NoDup (dict_keys scenario_settings) ∧
  (∀ y of_year, (y, of_year) ∈ scenario_settings → NoDup (dict_keys of_year)) ∧
  (∀ y c, is_Some (resolved scenario_settings y c) ↔
          in_table scenario_definitions y c) ∧
  (∀ y c s, resolved scenario_settings y c = Some s →
     ∃ name, dict_get c case_id_name_map = Some name ∧
             dict_get (KStr "case_name") (items s) = Some (VStr name)).

(** The specification of a build that always succeeds. *)
Definition build_total_claim (settings : mapping) (scenario_definitions : Table)
    (case_id_name_map : list (key * string)) : Prop :=
  no_double_patch settings scenario_definitions →
  ∃ scenario_settings,
    build_scenario_settings settings scenario_definitions case_id_name_map
      = Ok scenario_settings ∧
    one_settings_per_case scenario_definitions case_id_name_map scenario_settings.

(** Every year of the table has every case of the table, once. *)
Definition one_row_per_case (scenario_definitions : Table) : Prop :=
  ∀ y c,
    y ∈ year <$> rows scenario_definitions →
    c ∈ case_id <$> rows scenario_definitions →
    ∃ r, filter (λ r, case_id r = c ∧ year r = y) (rows scenario_definitions) = [r].

(** [n] levels of mappings. *)
Fixpoint nested_dicts (n : nat) (v : value) : bool :=
  match n, v with
  | O, _ => true
  | S n', VDict _ es => forallb (λ kv, nested_dicts n' kv.2) es
  | S _, _ => false
  end.

(** [settings["settings_management"]] has an entry for every year of the
    table, made of categories, variants and patches. *)
Definition management_of_years (settings : mapping) (scenario_definitions : Table)
  : Prop :=
  ∃ settings_management,
    setting settings "settings_management" = Ok settings_management ∧
    ∀ y, y ∈ year <$> rows scenario_definitions →
      ∃ planning_year_settings_management,
        subscript settings_management (Some y) = Ok planning_year_settings_management ∧
        nested_dicts 3 planning_year_settings_management = true.

(** The planning periods of [settings] cover the years of the table. *)
Definition planning_of_years (settings : mapping) (scenario_definitions : Table)
  : Prop :=
  ∃ periods,
    model_planning_period_dict settings = Ok periods ∧
    ∀ y, y ∈ year <$> rows scenario_definitions → is_Some (dict_get y periods).

(** Every case of the table has a name. *)
Definition names_of_cases (scenario_definitions : Table)
    (case_id_name_map : list (key * string)) : Prop :=
  ∀ c, c ∈ case_id <$> rows scenario_definitions →
    is_Some (dict_get c case_id_name_map).

(** The item of one category in the dictionary of lines 136-141. *)
Definition pivot_column (of_year : list Row) (j : nat) (category : string)
  : string * list (key * option key) :=
  (category, column_dict of_year (λ r, cell_at r j)).

(** ** Objects and their sharing *)

(** The objects a value is made of: the value itself when it is a list or a
    dict, and the objects of its elements. *)
Fixpoint objects (v : value) : list value :=
  match v with
  | VList _ xs => v :: flat_map objects xs
  | VDict _ es => v :: flat_map (λ kv, objects kv.2) es
  | _ => []
  end.

Definition root_oid (v : value) : option oid :=
  match v with
  | VList o _ | VDict o _ => Some o
  | _ => None
  end.

Definition oids (v : value) : list oid := omap root_oid (objects v).

(** All objects are objects the caller holds. *)
Definition caller_owned (v : value) : bool :=
  forallb (λ o, match o with Obj _ => true | Copy _ _ _ => false end) (oids v).

(** An object made by the [deepcopy] for [(y, c)]. *)
Definition copied (y c : key) (o : oid) : Prop := ∃ src, o = Copy y c src.

(** A value made of objects of [base] only. *)
Definition within (base x : value) : Prop :=
  ∀ t, t ∈ objects x → t ∈ objects base.

(** A value made of copies only. *)
Definition fresh (y c : key) (x : value) : Prop :=
  ∀ t, t ∈ objects x → ∃ o, root_oid t = Some o ∧ copied y c o.

(** A value made of copies and of objects of [base] as they are in [base]. *)
Definition sound (base : value) (y c : key) (x : value) : Prop :=
  ∀ t, t ∈ objects x →
    (∃ o, root_oid t = Some o ∧ copied y c o) ∨ t ∈ objects base.

(** The state of [_settings] while the categories are applied: what is
    stored under a key that no patch has set yet is a copy. *)
Definition settings_inv (base : value) (y c : key) (modified_settings : list key)
    (_settings : mapping) : Prop :=
  copied y c (oid_of _settings) ∧
  (∀ k x, (k, x) ∈ items _settings → sound base y c x) ∧
  (∀ k x, dict_get k (items _settings) = Some x →
     k ∉ modified_settings → fresh y c x).

(** Every object of the base that a resolved [Settings] reaches is there as it
    is in the base: the build has not written to it. *)
Definition base_unchanged (settings s : mapping) : Prop :=
  ∀ t o,
    t ∈ objects (dict_value s) → root_oid t = Some o →
    o ∈ oids (dict_value settings) → t ∈ objects (dict_value settings).

(** Two resolved [Settings] that share no object. *)
Definition independent (s1 s2 : mapping) : Prop :=
  ∀ o, o ∈ oids (dict_value s1) → o ∉ oids (dict_value s2).

(** The specification of independent deep copies. *)
Definition deepcopy_claim (settings : mapping) (scenario_definitions : Table)
    (case_id_name_map : list (key * string)) : Prop :=
  caller_owned (dict_value settings) = true →
  ∀ scenario_settings,
    build_scenario_settings settings scenario_definitions case_id_name_map
      = Ok scenario_settings →
    (∀ y c s, resolved scenario_settings y c = Some s →
       base_unchanged settings s) ∧
    (∀ y1 c1 s1 y2 c2 s2,
       (y1, c1) ≠ (y2, c2) →
       resolved scenario_settings y1 c1 = Some s1 →
       resolved scenario_settings y2 c2 = Some s2 →
       independent s1 s2).

(** ** Example inputs *)

Definition patch_high : value :=
  VDict (Obj 10)
    [(KStr "ng_mult", VInt 2);
     (KStr "regions", VList (Obj 11) [VStr "a"; VStr "b"])].

Definition example_patch : mapping :=
  {| oid_of := Obj 12;
     items := [(KStr "ccs", VDict (Obj 13) [(KStr "capex", VInt 1)])] |}.

Definition patch_mid : value := dict_value example_patch.

Definition management_2030 : value :=
  VDict (Obj 3)
    [(KStr "ng_price", VDict (Obj 4) [(KStr "high", patch_high)]);
     (KStr "ccs_capex", VDict (Obj 5) [(KStr "mid", patch_mid)])].

Definition example_settings : mapping :=
  {| oid_of := Obj 0;
     items :=
       [(KStr "model_year", VList (Obj 1) [VInt 2030; VInt 2040]);
        (KStr "model_first_planning_year", VList (Obj 2) [VInt 2020; VInt 2031]);
        (KStr "settings_management",
         VDict (Obj 6) [(KInt 2030, management_2030); (KInt 2040, VDict (Obj 7) [])]);
        (KStr "ccs", VDict (Obj 8) [(KStr "capex", VInt 0); (KStr "opex", VInt 5)])] |}.

Definition example_table : Table :=
  {| categories := ["ng_price"; "ccs_capex"];
     rows :=
       [{| case_id := KStr "p1"; year := KInt 2030;
           cells := [Some (KStr "high"); Some (KStr "mid")] |};
        {| case_id := KStr "p2"; year := KInt 2030;
           cells := [Some (KStr "high"); Some (KStr "low")] |};
        {| case_id := KStr "p1"; year := KInt 2040;
           cells := [Some (KStr "high"); None] |};
        {| case_id := KStr "p2"; year := KInt 2040;
           cells := [Some (KStr "high"); Some (KStr "low")] |}] |}.

Definition example_names : list (key * string) :=
  [(KStr "p1", "Case_1"); (KStr "p2", "Case_2")].

(** A table without categories in which each case has one year of its own. *)
Definition staggered_table : Table :=
  {| categories := [];
     rows :=
       [{| case_id := KStr "p1"; year := KInt 2030; cells := [] |};
        {| case_id := KStr "p2"; year := KInt 2040; cells := [] |}] |}.

(** Two categories whose selected patches both set [ng_mult]. *)
Definition clashing_settings : mapping :=
  {| oid_of := Obj 0;
     items :=
       [(KStr "model_year", VList (Obj 1) [VInt 2030]);
        (KStr "model_first_planning_year", VList (Obj 2) [VInt 2020]);
        (KStr "settings_management",
         VDict (Obj 3)
           [(KInt 2030,
             VDict (Obj 4)
               [(KStr "ng_price",
                 VDict (Obj 5) [(KStr "high", VDict (Obj 6) [(KStr "ng_mult", VInt 2)])]);
                (KStr "gas_demand",
                 VDict (Obj 7) [(KStr "low", VDict (Obj 8) [(KStr "ng_mult", VInt 3)])])])])] |}.

Definition clashing_row : Row :=
  {| case_id := KStr "p1"; year := KInt 2030;
     cells := [Some (KStr "high"); Some (KStr "low")] |}.

Definition clashing_table : Table :=
  {| categories := ["ng_price"; "gas_demand"]; rows := [clashing_row] |}.

End Scenario.

(** * run_powergenome_multiple_outputs_cli.py: the case names and [main] *)

Module Main.
Import Scenario.

(** [s.replace(" ", "_")] *)
Fixpoint replace_space (s : string) : string :=
  match s with
  | EmptyString => EmptyString
  | String a s' =>
      String (if Ascii.eqb a " " then "_"%char else a) (replace_space s')
  end.

(** Lines 106-115.  [case_id_name_df] is the series read from the case
    description file: the case id and the description of each line, in file
    order.  In [to_dict] a later line with the same case id replaces the name
    of an earlier one. *)
Definition build_case_id_name_map (case_id_name_df : list (key * string))
  : list (key * string) :=
  let case_id_name_df :=
    (λ line, (line.1, replace_space line.2)) <$> case_id_name_df in
  foldl (λ case_id_name_map line, dict_set line.1 line.2 case_id_name_map)
        [] case_id_name_df.

(** [len(v)] *)
Definition len (v : value) : result nat :=
  match v with
  | VList _ xs => Ok (length xs)
  | VDict _ es => Ok (length es)
  | VKey (KStr s) => Ok (String.length s)
  | _ => Err TypeError
  end.

(** [set(v)]: the elements of [v] by their keys; an element that cannot be
    hashed raises. *)
Definition set_of (v : value) : result (list (option key)) :=
  elements ← iter v;
  map_rows hash_key elements.

(** [set(a) == set(b)], the elements of [a] being keys; NaN equals nothing. *)
Definition set_eq (a : list key) (b : list (option key)) : bool :=
  forallb (λ k, bool_decide (Some k ∈ b)) a &&
  forallb (λ k, bool_decide (k ∈ Some <$> a)) b.

(** [assert condition] *)
Definition assert (condition : bool) : result () :=
  if condition then Ok () else Err AssertionError.

(** Lines 257-262 of [main]: the two checks made before the scenario settings
    are built. *)
Definition check_model_years (settings : mapping) (scenario_definitions : Table)
  : result () :=
  let table_years := year <$> rows scenario_definitions in
  model_year ← setting settings "model_year";
  model_years ← set_of model_year;
  _ ← assert (set_eq table_years model_years);
  model_year ← setting settings "model_year";
  n_years ← len model_year;
  model_first_planning_year ← setting settings "model_first_planning_year";
  n_start_years ← len model_first_planning_year;
  assert (bool_decide (n_years = n_start_years)).

(** The order of Python on strings: by code point, a prefix first. *)
Definition str_le (a b : string) : Prop := String.leb a b = true.

#[global] Instance str_le_dec : RelDecision str_le.
Proof. intros a b. unfold str_le. apply _. Defined.

(** [sorted(l)] for a list of strings *)
Definition sorted (l : list string) : list string := merge_sort str_le l.

(** Lines 243-248 of [main]: the regions, sorted, are numbered from 1. *)
Definition zone_num_map (model_regions : list string) : list (string * string) :=
  let zones := sorted model_regions in
  foldl (λ d zn, dict_set zn.1 (pretty (zn.2 + 1)%nat) d) []
        (zip zones (seq 0 (length zones))).

(** Line 378 of [main]: [fuels["fuel_indices"] = range(1, len(fuels) + 1)];
    a column that is there under that name is replaced. *)
Definition add_fuel_indices `{Arithmetic F} (fuels : Fuels.FuelTable F)
  : Fuels.FuelTable F :=
  let fuel_indices :=
    (λ i, dec (Z.of_nat (S i)) 1) <$> seq 0 (length (Fuels.rows fuels)) in
  match list_find (λ c, c = "fuel_indices") (Fuels.columns fuels) with
  | Some (j, _) =>
      {| Fuels.index_name := Fuels.index_name fuels;
         Fuels.columns := Fuels.columns fuels;
         Fuels.rows :=
           zip_with (λ row n, (row.1, <[j := n]> row.2))
                    (Fuels.rows fuels) fuel_indices |}
  | None =>
      {| Fuels.index_name := Fuels.index_name fuels;
         Fuels.columns := Fuels.columns fuels ++ ["fuel_indices"];
         Fuels.rows :=
           zip_with (λ row n, (row.1, row.2 ++ [n]))
                    (Fuels.rows fuels) fuel_indices |}
  end.

(** No patch that [settings_management] holds for the year sets the key. *)
Definition never_patched (settings : mapping) (y k : key) : Prop :=
  ∀ settings_management planning_year_settings_management category case_value
    patch,
    setting settings "settings_management" = Ok settings_management →
    subscript settings_management (Some y) = Ok planning_year_settings_management →
    find_patch planning_year_settings_management category case_value = Ok patch →
    k ∉ dict_keys (items patch).

(** The keys that are assigned after the patches (lines 185-187). *)
Definition final_keys : list string :=
  ["model_first_planning_year"; "model_year"; "case_name"].

(** ** The loop of [main] over the cases (lines 267-382) *)

(** The command line: the [dest] of each flag of [parse_command_line]. *)
Module Args.
Record t : Set := {
  gens : bool;
  current_gens : bool;
  load : bool;
  transmission : bool;
  fuel : bool;
  sort_gens : bool
}.
End Args.

(** How the loop can end other than by running out of cases: an exception
    of a call that is modelled, or a local variable that is read before it is
    assigned. *)
Inductive failure : Set :=
  | Raised (e : exn)
  | UnboundLocalError (name : string).

(** A call of [write_results_file]; [include_index] is [None] where the call
    leaves it to the default. *)
Record Written (DataFrame : Type) : Type := {
  df : DataFrame;
  folder : list string;
  file_name : string;
  include_index : option bool
}.
Arguments df {DataFrame} _.
Arguments folder {DataFrame} _.
Arguments file_name {DataFrame} _.
Arguments include_index {DataFrame} _.

(** The files that are written stay written when the loop fails. *)
Inductive outcome (DataFrame A : Type) : Type :=
  | Done (a : A)
  | Failed (f : failure) (written : list (Written DataFrame)).
Arguments Done {DataFrame A} a.
Arguments Failed {DataFrame A} f written.

#[global] Instance outcome_ret {DataFrame} : MRet (outcome DataFrame) :=
  λ A a, Done a.
#[global] Instance outcome_bind {DataFrame} : MBind (outcome DataFrame) :=
  λ A B k r,
  match r with Done a => k a | Failed f written => Failed f written end.

Fixpoint for_every {DataFrame A S} (xs : list A)
    (body : S → A → outcome DataFrame S) (s : S) : outcome DataFrame S :=
  match xs with
  | [] => Done s
  | x :: xs' => s' ← body s x; for_every xs' body s'
  end.

(** [f"{k}"] *)
Definition format_key (k : key) : string :=
  match k with
  | KNone => "None"
  | KInt z => pretty z
  | KStr s => s
  end.

(** The names of the files of one case, by the flags. *)
Definition file_names (args : Args.t) : list string :=
  (if Args.gens args
   then ["Generators_data.csv"; "Generators_variability.csv"] else []) ++
  (if Args.load args then ["Load_data.csv"] else []) ++
  (if Args.transmission args then ["Network.csv"] else []) ++
  (if Args.fuel args && Args.gens args then ["Fuels_data.csv"] else []).

(** The cases of the scenario settings, in the order of the two loops. *)
Definition cases_of (scenario_settings : list (key * list (key * mapping)))
  : list (key * (key * mapping)) :=
  flat_map (λ item, (λ case, (item.1, case)) <$> item.2) scenario_settings.

(** The frames of the files of one name. *)
Definition frames_of {DataFrame} (name : string)
    (written : list (Written DataFrame)) : list DataFrame :=
  df <$> filter (λ w, file_name w = name) written.

(** The collaborators of [main], none of them among the source files, as
    functions of their arguments, over their data: data frames, geographic
    data frames and the [GeneratorClusters] object.  The database connections
    are the same in every call.  A method of the [GeneratorClusters] object
    returns the object as it leaves it. *)
Class Collaborators (F DataFrame GeoDataFrame GeneratorClusters : Type) := {
  new_GeneratorClusters : mapping → bool → bool → GeneratorClusters;
  create_all_generators : GeneratorClusters → DataFrame * GeneratorClusters;
  with_settings : mapping → GeneratorClusters → GeneratorClusters;
  with_current_gens : bool → GeneratorClusters → GeneratorClusters;
  with_existing_resources : DataFrame → GeneratorClusters → GeneratorClusters;
  model_regions_gdf : GeneratorClusters → GeoDataFrame;
  fuel_prices : GeneratorClusters → list (Fuels.PriceRow F);
  (** the [Fuel] column of [gc.all_resources] *)
  all_resources : GeneratorClusters → list string;
  remove_fuel_scenario_name : DataFrame → mapping → DataFrame;
  (** [remove_fuel_scenario_name] on the fuel table *)
  remove_fuel_scenario_name_of_fuels : Fuels.FuelTable F → mapping → DataFrame;
  make_generator_variability : DataFrame → mapping → DataFrame;
  load_ipm_shapefile : mapping → GeoDataFrame;
  agg_transmission_constraints : mapping → DataFrame;
  transmission_line_distance : DataFrame → GeoDataFrame → mapping → DataFrame;
  make_final_load_curves : mapping → DataFrame;
  add_emission_policies : DataFrame → mapping → DataFrame;
  add_user_fuel_prices :
    Fuels.Settings F → list (Fuels.PriceRow F) → list (Fuels.PriceRow F);
  (** [gen_clusters["zone"] = gen_clusters["region"].map(zone_num_map)] *)
  assign_zone : list (string * string) → DataFrame → DataFrame;
  (** [gen_clusters.loc[gen_clusters["Existing_Cap_MW"] >= 0, :]] *)
  existing_capacity : DataFrame → DataFrame;
  (** [load.columns = "Load_MW_z" + load.columns.map(zone_num_map)] *)
  rename_load_columns : list (string * string) → DataFrame → DataFrame;
  (** the keys of a settings mapping that [fuels.py] reads *)
  fuel_settings : mapping → Fuels.Settings F;
  (** [f"{v}"] of a settings value that is not a scalar *)
  repr : value → string
}.

(** The [include_index] of the files of one name. *)
Definition index_flags_of {DataFrame} (name : string)
    (written : list (Written DataFrame)) : list (option bool) :=
  include_index <$> filter (λ w, file_name w = name) written.

Section MainLoop.

Context `{arithmetic : Arithmetic F}
  `{H : !Collaborators F DataFrame GeoDataFrame GeneratorClusters}.

Definition format_value (v : value) : string :=
  match v with
  | VKey k => format_key k
  | VNaN => "nan"
  | _ => repr v
  end.

(** The local variables of [main] that the loop assigns. *)
Record State : Type := {
  i : nat;
  gc : option GeneratorClusters;
  existing_gens : option DataFrame;
  transmission : option DataFrame;
  written : list (Written DataFrame)
}.

Definition read {A} (name : string) (variable : option A) (st : State)
  : outcome DataFrame A :=
  match variable with
  | Some a => Done a
  | None => Failed (UnboundLocalError name) (written st)
  end.

Definition raise_of {A} (r : result A) (st : State) : outcome DataFrame A :=
  match r with
  | Ok a => Done a
  | Err e => Failed (Raised e) (written st)
  end.

Definition write_results_file (df : DataFrame) (folder : list string)
    (file_name : string) (include_index : option bool) (st : State) : State :=
  {| i := i st; gc := gc st; existing_gens := existing_gens st;
     transmission := transmission st;
     written :=
       written st ++ [{| df := df; folder := folder; file_name := file_name;
                         include_index := include_index |}] |}.

(** Lines 270-272: the folder of a case, below [out_folder]. *)
Definition case_path (year case_id : key) (case_name : value) : list string :=
  [format_key year;
   (format_key case_id ++ "_" ++ format_key year ++ "_"
      ++ format_value case_name)%string].

Definition case_folder (year case_id : key) (_settings : mapping) (st : State)
  : outcome DataFrame (list string) :=
  case_name ← raise_of (setting _settings "case_name") st;
  Done (case_path year case_id case_name).

(** Lines 275-323: the branch [i == 0]. *)
Definition first_round (args : Args.t) (zone_num_map : list (string * string))
    (case_folder : list string) (_settings : mapping) (st : State)
  : outcome DataFrame State :=
  st ← (if Args.gens args then
          let gc := new_GeneratorClusters _settings (Args.current_gens args)
                      (Args.sort_gens args) in
          let '(gen_clusters, gc) := create_all_generators gc in
          let gen_clusters := remove_fuel_scenario_name gen_clusters _settings in
          let gen_clusters := assign_zone zone_num_map gen_clusters in
          let existing_gens := existing_capacity gen_clusters in
          let st := write_results_file gen_clusters case_folder
                      "Generators_data.csv" (Some false) st in
          let gen_variability :=
            make_generator_variability gen_clusters _settings in
          let st := write_results_file gen_variability case_folder
                      "Generators_variability.csv" (Some true) st in
          Done {| i := i st + 1; gc := Some gc;
                  existing_gens := Some existing_gens;
                  transmission := transmission st; written := written st |}
        else Done st);
  if Args.transmission args then
    model_regions_gdf ←
      (if negb (Args.gens args) then Done (load_ipm_shapefile _settings)
       else gc ← read "gc" (gc st) st; Done (model_regions_gdf gc));
    let transmission := agg_transmission_constraints _settings in
    let transmission :=
      transmission_line_distance transmission model_regions_gdf _settings in
    Done {| i := i st; gc := gc st; existing_gens := existing_gens st;
            transmission := Some transmission; written := written st |}
  else Done st.

(** Lines 324-349: the branch of the later rounds. *)
Definition later_round (args : Args.t) (zone_num_map : list (string * string))
    (case_folder : list string) (_settings : mapping) (st : State)
  : outcome DataFrame State :=
  if Args.gens args then
    gc ← read "gc" (gc st) st;
    let gc := with_settings _settings gc in
    let gc := with_current_gens false gc in
    existing_gens ← read "existing_gens" (existing_gens st) st;
    let gc := with_existing_resources existing_gens gc in
    let '(gen_clusters, gc) := create_all_generators gc in
    let gen_clusters := remove_fuel_scenario_name gen_clusters _settings in
    let gen_clusters := assign_zone zone_num_map gen_clusters in
    let st := write_results_file gen_clusters case_folder
                "Generators_data.csv" None st in
    let gen_variability := make_generator_variability gen_clusters _settings in
    let st := write_results_file gen_variability case_folder
                "Generators_variability.csv" (Some true) st in
    Done {| i := i st; gc := Some gc; existing_gens := Some existing_gens;
            transmission := transmission st; written := written st |}
  else Done st.

(** Lines 351-382: the load, the network and the fuels of the case. *)
Definition case_tables (args : Args.t) (zone_num_map : list (string * string))
    (case_folder : list string) (_settings : mapping) (st : State)
  : outcome DataFrame State :=
  let st :=
    if Args.load args then
      let load := make_final_load_curves _settings in
      let load := rename_load_columns zone_num_map load in
      write_results_file load case_folder "Load_data.csv" (Some true) st
    else st in
  st ← (if Args.transmission args then
          transmission ← read "transmission" (transmission st) st;
          let network := add_emission_policies transmission _settings in
          Done (write_results_file network case_folder "Network.csv"
                  (Some true) st)
        else Done st);
  if Args.fuel args && Args.gens args then
    gc ← read "gc" (gc st) st;
    fuels ← raise_of (Fuels.fuel_cost_table add_user_fuel_prices
                        (fuel_prices gc) (all_resources gc)
                        (fuel_settings _settings)) st;
    let fuels := add_fuel_indices fuels in
    let fuels := remove_fuel_scenario_name_of_fuels fuels _settings in
    Done (write_results_file fuels case_folder "Fuels_data.csv" None st)
  else Done st.

(** Lines 270-382: one case. *)
Definition case_outputs (args : Args.t) (zone_num_map : list (string * string))
    (year : key) (st : State) (case : key * mapping) : outcome DataFrame State :=
  let '(case_id, _settings) := case in
  case_folder ← case_folder year case_id _settings st;
  st ← (if bool_decide (i st = 0%nat)
        then first_round args zone_num_map case_folder _settings st
        else later_round args zone_num_map case_folder _settings st);
  case_tables args zone_num_map case_folder _settings st.

(** Line 267: nothing is assigned but [i]. *)
Definition initial : State :=
  {| i := 0; gc := None; existing_gens := None; transmission := None;
     written := [] |}.

(** Lines 267-382 *)
Definition main_loop (args : Args.t) (zone_num_map : list (string * string))
    (scenario_settings : list (key * list (key * mapping)))
  : outcome DataFrame State :=
  for_every (dict_keys scenario_settings)
    (λ st year,
       of_year ← raise_of (getitem (dict_get year scenario_settings)) st;
       for_every of_year (case_outputs args zone_num_map year) st)
    initial.

(** The local variables after the first case: those that the flags make the
    later cases read are assigned. *)
Definition bound (args : Args.t) (st : State) : Prop :=
  (Args.gens args = true →
   i st = 1%nat ∧ is_Some (gc st) ∧ is_Some (existing_gens st)) ∧
  (Args.gens args = false → i st = 0%nat) ∧
  (Args.transmission args = true → is_Some (transmission st)).

(** The files of one case: folder and name. *)
Definition files_of_case (args : Args.t) (case : key * (key * mapping))
  : list (list string * string) :=
  match setting case.2.2 "case_name" with
  | Ok case_name =>
      (λ name, (case_path case.1 case.2.1 case_name, name)) <$> file_names args
  | Err _ => []
  end.

(** The transmission constraints as they are made from the settings of one
    case (lines 311-323). *)
Definition transmission_of (args : Args.t) (_settings : mapping) : DataFrame :=
  let model_regions_gdf :=
    if Args.gens args then
      model_regions_gdf
        (create_all_generators
           (new_GeneratorClusters _settings (Args.current_gens args)
              (Args.sort_gens args))).2
    else load_ipm_shapefile _settings in
  transmission_line_distance (agg_transmission_constraints _settings)
    model_regions_gdf _settings.

End MainLoop.

(** Example inputs. *)

(** Settings in which a variant holds a number where a patch is expected. *)
Definition scalar_patch_settings : mapping :=
  {| oid_of := Obj 0;
     items :=
       [(KStr "model_year", VList (Obj 1) [VInt 2030]);
        (KStr "model_first_planning_year", VList (Obj 2) [VInt 2020]);
        (KStr "settings_management",
         VDict (Obj 3)
           [(KInt 2030,
             VDict (Obj 4)
               [(KStr "ng_price", VDict (Obj 5) [(KStr "high", VInt 2)])])])] |}.

(** Collaborators that return a description of what they are called with. *)
Definition name_of (_settings : mapping) : string :=
  match setting _settings "case_name" with
  | Ok (VKey (KStr name)) => name
  | _ => ""
  end.

Definition example_collaborators
  : Collaborators double (list string) (list string) (list string) :=
  {| new_GeneratorClusters s _ _ := ["GeneratorClusters"; name_of s];
     create_all_generators g := ("gen_clusters" :: g, "created" :: g);
     with_settings s g := "settings" :: name_of s :: g;
     with_current_gens _ g := "current_gens" :: g;
     with_existing_resources _ g := "existing_resources" :: g;
     model_regions_gdf g := "model_regions_gdf" :: g;
     fuel_prices _ := Fuels.example_prices;
     all_resources _ := Fuels.example_roster;
     remove_fuel_scenario_name f _ := f;
     remove_fuel_scenario_name_of_fuels _ s := ["fuels"; name_of s];
     make_generator_variability f _ := "variability" :: f;
     load_ipm_shapefile s := ["shapefile"; name_of s];
     agg_transmission_constraints s := ["transmission"; name_of s];
     transmission_line_distance t _ _ := "distance" :: t;
     make_final_load_curves s := ["load"; name_of s];
     add_emission_policies t s := "policies" :: name_of s :: t;
     add_user_fuel_prices := Fuels.no_user_prices;
     assign_zone _ f := "zone" :: f;
     existing_capacity f := "existing" :: f;
     rename_load_columns _ f := "Load_MW_z" :: f;
     fuel_settings _ := Fuels.example_settings;
     repr _ := "" |}.

Definition example_args : Args.t :=
  {| Args.gens := true; Args.current_gens := true; Args.load := true;
     Args.transmission := true; Args.fuel := true; Args.sort_gens := false |}.

(** Two resolved settings of one year, and one without a case name. *)
Definition resolved_p1 : mapping :=
  {| oid_of := Obj 0; items := [(KStr "case_name", VStr "Base_case")] |}.
Definition resolved_p2 : mapping :=
  {| oid_of := Obj 1; items := [(KStr "case_name", VStr "High_gas")] |}.
Definition example_scenario_settings : list (key * list (key * mapping)) :=
  [(KInt 2030, [(KStr "p1", resolved_p1); (KStr "p2", resolved_p2)])].
Definition nameless_scenario_settings : list (key * list (key * mapping)) :=
  [(KInt 2030, [(KStr "p1", {| oid_of := Obj 0; items := [] |})])].

Definition example_descriptions : list (key * string) :=
  [(KStr "p1", "Reference case"); (KStr "p2", "High gas price");
   (KStr "p1", "Base case")].

End Main.

(** * Facts *)

(** *** Running the monad backwards *)

Lemma bind_Ok {A B} (r : result A) (k : A → result B) (b : B) :
  r ≫= k = Ok b ↔ ∃ a, r = Ok a ∧ k a = Ok b.
Proof.
  destruct r as [a|e]; simpl; split.
  - eauto.
  - intros (a' & [= <-] & Hk). exact Hk.
  - discriminate.
  - intros (a' & [=] & _).
Qed.

Lemma bind_Err {A B} (r : result A) (k : A → result B) (e : exn) :
  r ≫= k = Err e ↔ r = Err e ∨ ∃ a, r = Ok a ∧ k a = Err e.
Proof.
  destruct r as [a|e']; simpl; split; eauto.
  - intros [[=]|(a' & [= <-] & Hk)]. exact Hk.
  - intros [= ->]. by left.
  - intros [[= ->]|(a' & [=] & _)]. done.
Qed.

Lemma getitem_Ok {A} (o : option A) (a : A) : getitem o = Ok a ↔ o = Some a.
Proof. destruct o; simpl; split; congruence. Qed.

Lemma getitem_Err {A} (o : option A) (e : exn) :
  getitem o = Err e ↔ o = None ∧ e = KeyError.
Proof.
  destruct o; simpl; split.
  - discriminate.
  - intros [[=] _].
  - intros [= <-]. done.
  - intros [_ ->]. done.
Qed.

Ltac inv_ok H :=
  repeat match type of H with
  | _ ≫= _ = Ok _ =>
      let a := fresh "a" in let Ha := fresh "H" a in
      apply bind_Ok in H as (a & Ha & H)
  end.

Lemma map_rows_Ok {A B} (f : A → result B) (xs : list A) (ys : list B) :
  map_rows f xs = Ok ys ↔ Forall2 (λ x y, f x = Ok y) xs ys.
Proof.
  revert ys. induction xs as [|x xs IH]; intros ys; simpl.
  - split; [intros [= <-]; constructor | by inversion 1].
  - rewrite bind_Ok. split.
    + intros (y & Hy & H). apply bind_Ok in H as (ys' & Hys & [= <-]).
      constructor; [done | by apply IH].
    + inversion 1 as [|? y ? ys' Hy Hys]; subst. exists y. split; [done|].
      apply bind_Ok. exists ys'. split; [by apply IH | done].
Qed.

Lemma map_rows_Err {A B} (f : A → result B) (xs : list A) (e : exn) :
  map_rows f xs = Err e → ∃ x, x ∈ xs ∧ f x = Err e.
Proof.
  induction xs as [|x xs IH]; simpl; [done|].
  rewrite bind_Err. intros [H|(y & Hy & H)].
  - exists x. split; [left | done].
  - apply bind_Err in H as [H|(ys & _ & [=])].
    destruct (IH H) as (x' & Hin & Hx'). exists x'. split; [by right | done].
Qed.

Lemma for_each_app {A S} (xs ys : list A) (body : S → A → result S) (s : S) :
  for_each (xs ++ ys) body s = for_each xs body s ≫= for_each ys body.
Proof.
  revert s. induction xs as [|x xs IH]; intros s; simpl; [done|].
  destruct (body s x) as [s'|e]; simpl; [apply IH | done].
Qed.

(** *** First occurrences *)

Lemma elem_of_unique_from {A} `{EqDecision A} (seen l : list A) (x : A) :
  x ∈ unique_from seen l ↔ x ∈ l ∧ x ∉ seen.
Proof.
  revert seen. induction l as [|y l IH]; intros seen; simpl.
  - split; [by intros ?%elem_of_nil | by intros [?%elem_of_nil _]].
  - case_bool_decide as Hy.
    + rewrite IH, elem_of_cons. split; [tauto|].
      intros [[->|Hx] Hn]; [done | done].
    + rewrite !elem_of_cons, IH, not_elem_of_cons.
      destruct (decide (x = y)) as [->|Hne]; tauto.
Qed.

Lemma NoDup_unique_from {A} `{EqDecision A} (seen l : list A) :
  NoDup (unique_from seen l).
Proof.
  revert seen. induction l as [|y l IH]; intros seen; simpl.
  - constructor.
  - case_bool_decide; [apply IH|]. constructor; [|apply IH].
    rewrite elem_of_unique_from, not_elem_of_cons. tauto.
Qed.

Lemma elem_of_drop_duplicates {A} `{EqDecision A} (l : list A) (x : A) :
  x ∈ drop_duplicates l ↔ x ∈ l.
Proof.
  unfold drop_duplicates. rewrite elem_of_unique_from.
  split; [tauto | intros H; split; [done | apply not_elem_of_nil]].
Qed.

Lemma NoDup_drop_duplicates {A} `{EqDecision A} (l : list A) :
  NoDup (drop_duplicates l).
Proof. apply NoDup_unique_from. Qed.

Lemma only_KeyError_bind {A B} (r : result A) (k : A → result B) :
  only_KeyError r → (∀ a, r = Ok a → only_KeyError (k a)) → only_KeyError (r ≫= k).
Proof.
  intros Hr Hk e [H|(a & Ha & H)]%bind_Err; [by apply Hr | by eapply Hk].
Qed.

Lemma only_KeyError_getitem {A} (o : option A) : only_KeyError (getitem o).
Proof. by intros e [_ ->]%getitem_Err. Qed.

Lemma only_KeyError_Ok {A} (a : A) : only_KeyError (Ok a).
Proof. by intros e. Qed.

Lemma only_KeyError_for_each {A S} (l : list A) (body : S → A → result S) s :
  (∀ s x, only_KeyError (body s x)) → only_KeyError (for_each l body s).
Proof.
  intros Hb. revert s. induction l as [|x l IH]; intros s; simpl.
  - apply only_KeyError_Ok.
  - apply only_KeyError_bind; [apply Hb | intros; apply IH].
Qed.

Lemma only_KeyError_map_rows {A B} (f : A → result B) (l : list A) :
  (∀ x, only_KeyError (f x)) → only_KeyError (map_rows f l).
Proof.
  intros Hf e (x & _ & Hx)%map_rows_Err. by eapply Hf.
Qed.

(** *** Dictionaries *)

Section DictFacts.
Context {K V : Type} `{EqDecision K}.
Implicit Types (k : K) (v : V) (d : list (K * V)).

Lemma dict_get_set_eq k v d : dict_get k (dict_set k v d) = Some v.
Proof.
  induction d as [|[k' v'] d IH]; simpl.
  - by case_decide.
  - destruct (decide (k = k')) as [->|Hne]; simpl; by case_decide.
Qed.

Lemma dict_get_set_ne k k' v d :
  k ≠ k' → dict_get k' (dict_set k v d) = dict_get k' d.
Proof.
  intros Hne. induction d as [|[k0 v0] d IH]; simpl.
  - case_decide; [by subst | done].
  - destruct (decide (k = k0)) as [->|Hk0]; simpl.
    + by repeat case_decide; subst.
    + by case_decide.
Qed.

Lemma dict_set_same k v d : dict_get k d = Some v → dict_set k v d = d.
Proof.
  induction d as [|[k' v'] d IH]; simpl; [done|].
  case_decide as Hk; [subst|].
  - by intros [= ->].
  - intros Hd. by rewrite IH.
Qed.

Lemma dict_get_Some_elem k v d : dict_get k d = Some v → (k, v) ∈ d.
Proof.
  induction d as [|[k' v'] d IH]; simpl; [done|].
  case_decide as Hk; [subst|].
  - intros [= ->]. left.
  - intros Hd. right. by apply IH.
Qed.

Lemma dict_get_None k d : dict_get k d = None ↔ k ∉ dict_keys d.
Proof.
  unfold dict_keys. induction d as [|[k' v'] d IH]; simpl.
  - split; [intros _; apply not_elem_of_nil | done].
  - rewrite not_elem_of_cons. case_decide as Hk; [subst|].
    + split; [done | by intros [? _]].
    + rewrite IH. tauto.
Qed.

Lemma dict_get_is_Some k d : is_Some (dict_get k d) ↔ k ∈ dict_keys d.
Proof.
  rewrite <- not_eq_None_Some, dict_get_None.
  destruct (decide (k ∈ dict_keys d)); tauto.
Qed.

Lemma dict_get_NoDup k v d :
  NoDup (dict_keys d) → (k, v) ∈ d → dict_get k d = Some v.
Proof.
  unfold dict_keys. induction d as [|[k' v'] d IH]; simpl.
  - by intros _ ?%elem_of_nil.
  - intros [Hk' Hd]%NoDup_cons [[= -> ->]|Hin]%elem_of_cons.
    + by case_decide.
    + case_decide as Hk; [subst|by apply IH].
      destruct Hk'. apply list_elem_of_fmap. by exists (k', v).
Qed.

Lemma dict_keys_set_old k v d :
  k ∈ dict_keys d → dict_keys (dict_set k v d) = dict_keys d.
Proof.
  unfold dict_keys. induction d as [|[k' v'] d IH]; simpl.
  - by intros ?%elem_of_nil.
  - intros Hin. case_decide as Hk; [by subst|]. simpl. f_equal. apply IH.
    by apply elem_of_cons in Hin as [?|?].
Qed.

Lemma dict_keys_set_new k v d :
  k ∉ dict_keys d → dict_keys (dict_set k v d) = dict_keys d ++ [k].
Proof.
  unfold dict_keys. induction d as [|[k' v'] d IH]; simpl; [done|].
  intros [Hne Hin]%not_elem_of_cons. case_decide; [done|]. simpl. f_equal.
  by apply IH.
Qed.

Lemma elem_of_dict_keys_set k k' v d :
  k' ∈ dict_keys (dict_set k v d) ↔ k' = k ∨ k' ∈ dict_keys d.
Proof.
  destruct (decide (k ∈ dict_keys d)) as [Hin|Hnin].
  - rewrite dict_keys_set_old by done. split; [by right | by intros [->|?]].
  - rewrite dict_keys_set_new by done.
    rewrite elem_of_app, list_elem_of_singleton. tauto.
Qed.

Lemma NoDup_dict_keys_set k v d :
  NoDup (dict_keys d) → NoDup (dict_keys (dict_set k v d)).
Proof.
  intros Hd. destruct (decide (k ∈ dict_keys d)) as [Hin|Hnin].
  - by rewrite dict_keys_set_old.
  - rewrite dict_keys_set_new by done.
    apply NoDup_app. split; [done|]. split; [|apply NoDup_singleton].
    intros x Hx ->%list_elem_of_singleton. done.
Qed.

End DictFacts.

Lemma dict_set_new {K V} `{EqDecision K} (k : K) (v : V) (d : list (K * V)) :
  k ∉ dict_keys d → dict_set k v d = d ++ [(k, v)].
Proof.
  unfold dict_keys. induction d as [|[k' v'] d IH]; simpl; [done|].
  intros [Hne Hin]%not_elem_of_cons. case_decide; [done|]. by rewrite IH.
Qed.

(** Storing under keys that are all new appends the items in order. *)
Lemma foldl_dict_set_new {A K V} `{EqDecision K} (f : A → K) (g : A → V)
    (xs : list A) (d : list (K * V)) :
  NoDup (dict_keys d ++ (f <$> xs)) →
  foldl (λ d x, dict_set (f x) (g x) d) d xs = d ++ ((λ x, (f x, g x)) <$> xs).
Proof.
  revert d. induction xs as [|x xs IH]; intros d Hnd; simpl.
  - by rewrite app_nil_r.
  - assert (f x ∉ dict_keys d) as Hx.
    { apply NoDup_app in Hnd as (_ & Hd & _). intros Hin.
      apply (Hd _ Hin). left. }
    rewrite dict_set_new by done. rewrite IH.
    + by rewrite <- app_assoc.
    + unfold dict_keys in *. rewrite fmap_app. simpl.
      by rewrite <- app_assoc.
Qed.

(** The value stored last under a key is the one that is read. *)
Lemma dict_get_foldl_dict_set {A K V} `{EqDecision K} (f : A → K) (g : A → V)
    (xs : list A) (d : list (K * V)) (k : K) :
  dict_get k (foldl (λ d x, dict_set (f x) (g x) d) d xs) =
    match last (filter (λ x, f x = k) xs) with
    | Some x => Some (g x)
    | None => dict_get k d
    end.
Proof.
  revert d. induction xs as [|x xs IH]; intros d; simpl; [done|].
  rewrite IH. rewrite filter_cons. destruct (decide (f x = k)) as [<-|Hne].
  - rewrite last_cons, dict_get_set_eq.
    by destruct (last (filter (λ x0, f x0 = f x) xs)).
  - by rewrite dict_get_set_ne.
Qed.

Lemma for_each_Ok_inv {A S} (xs : list A) (body : S → A → result S) (s0 s : S) :
  for_each xs body s0 = Ok s →
  ∀ x, x ∈ xs → ∃ s1 s2, body s1 x = Ok s2.
Proof.
  revert s0. induction xs as [|x0 xs IH]; intros s0; simpl.
  - by intros _ x ?%elem_of_nil.
  - intros (s1 & Hs1 & H)%bind_Ok x [->|Hin]%elem_of_cons; [by eauto|].
    by eapply IH.
Qed.

(** A loop that stores one result for each element of a list. *)
Lemma for_each_dict_set {K V} `{EqDecision K} (f : K → result V)
    (xs : list K) (d0 d : list (K * V)) :
  for_each xs (λ d x, v ← f x; Ok (dict_set x v d)) d0 = Ok d →
  (NoDup (dict_keys d0) → NoDup (dict_keys d)) ∧
  (∀ x, x ∈ dict_keys d ↔ x ∈ dict_keys d0 ∨ x ∈ xs) ∧
  (∀ x v, dict_get x d = Some v →
     (x ∈ xs ∧ f x = Ok v) ∨ ((x ∉ xs) ∧ dict_get x d0 = Some v)).
Proof.
  revert d0. induction xs as [|x0 xs IH]; intros d0; simpl.
  - intros [= <-]. split; [done|]. split.
    + intros x. rewrite elem_of_nil. tauto.
    + intros x v Hx. right. split; [apply not_elem_of_nil | done].
  - intros (d1 & Hd1 & H)%bind_Ok.
    apply bind_Ok in Hd1 as (v0 & Hv0 & [= <-]).
    destruct (IH _ H) as (Hnd & Hkeys & Hget). split; [|split].
    + intros Hd0. apply Hnd. by apply NoDup_dict_keys_set.
    + intros x. rewrite Hkeys, elem_of_dict_keys_set, elem_of_cons. tauto.
    + intros x v Hx. destruct (Hget x v Hx) as [[Hin Hf]|[Hnin Hd]].
      * left. split; [by right | done].
      * destruct (decide (x0 = x)) as [->|Hne].
        -- rewrite dict_get_set_eq in Hd. injection Hd as <-.
           left. split; [left | done].
        -- rewrite dict_get_set_ne in Hd by done. right.
           split; [|done]. by intros [->|?]%elem_of_cons.
Qed.

Lemma for_each_dict_set_Ok {K V} `{EqDecision K} (f : K → result V)
    (xs : list K) (d0 : list (K * V)) :
  (∀ x, x ∈ xs → ∃ v, f x = Ok v) →
  ∃ d, for_each xs (λ d x, v ← f x; Ok (dict_set x v d)) d0 = Ok d.
Proof.
  revert d0. induction xs as [|x0 xs IH]; intros d0 Hf; simpl; [by eauto|].
  destruct (Hf x0) as (v0 & Hv0); [left|]. rewrite Hv0. simpl.
  apply IH. intros x Hx. apply Hf. by right.
Qed.

Lemma for_each_invariant {A S} (P : S → Prop) (xs : list A)
    (body : S → A → result S) (s0 s : S) :
  for_each xs body s0 = Ok s →
  P s0 →
  (∀ s1 x s2, x ∈ xs → P s1 → body s1 x = Ok s2 → P s2) →
  P s.
Proof.
  revert s0. induction xs as [|x xs IH]; intros s0; simpl.
  - by intros [= <-].
  - intros (s1 & Hs1 & H)%bind_Ok Hs0 Hstep. eapply IH; [exact H | |].
    + eapply Hstep; [left | exact Hs0 | exact Hs1].
    + intros s2 x' s3 Hx'. apply Hstep. by right.
Qed.

Lemma catch_KeyError_Ok {S} (body : result S) (before s : S) :
  catch_KeyError body before = Ok s ↔
  body = Ok s ∨ (body = Err KeyError ∧ s = before).
Proof.
  destruct body as [s'|[]]; simpl; split; try (by intros [= <-]; eauto);
    try (by intros [[=]|[[=] _]]); try done.
  - intros [[= ->]|[[=] _]]. done.
  - intros [[=]|[_ ->]]. done.
Qed.

(** *** Token arithmetic *)

Lemma string_length_app (a b : string) :
  String.length (a ++ b)%string = (String.length a + String.length b)%nat.
Proof. induction a as [|c a IH]; simpl; [done | by rewrite IH]. Qed.

Lemma split_not_nil (c : ascii) (s : string) : split c s ≠ [].
Proof.
  destruct s as [|a s]; simpl; [done|].
  destruct (Ascii.eqb a c); [done|]. by destruct (split c s).
Qed.

Lemma length_join_cons (t : string) (ts : list string) :
  ts ≠ [] →
  String.length (join "_" (t :: ts)) =
    (String.length t + 1 + String.length (join "_" ts))%nat.
Proof.
  destruct ts as [|u ts]; [done|]. intros _.
  change (join "_" (t :: u :: ts)) with (t ++ "_" ++ join "_" (u :: ts))%string.
  rewrite !string_length_app. simpl. lia.
Qed.

Lemma length_join_split (c : ascii) (s : string) :
  String.length (join "_" (split c s)) = String.length s.
Proof.
  induction s as [|a s IH]; simpl; [done|].
  destruct (Ascii.eqb a c).
  - rewrite length_join_cons by apply split_not_nil. simpl. by rewrite IH.
  - pose proof (split_not_nil c s) as Hne.
    destruct (split c s) as [|t ts]; [done|].
    destruct ts as [|u ts]; [simpl in *; by rewrite IH|].
    rewrite length_join_cons by done. rewrite length_join_cons in IH by done.
    change (String.length (String a t)) with (S (String.length t)). lia.
Qed.

Lemma length_join_all_but_last (t : string) (ts : list string) :
  ts ≠ [] →
  (String.length (join "_" (all_but_last (t :: ts)))
     < String.length (join "_" (t :: ts)))%nat.
Proof.
  unfold all_but_last. revert t. induction ts as [|u ts IH]; intros t Hne; [done|].
  destruct ts as [|v ts].
  - change (removelast [t; u]) with [t].
    rewrite (length_join_cons t [u]) by done. simpl. lia.
  - change (removelast (t :: u :: v :: ts)) with (t :: removelast (u :: v :: ts)).
    specialize (IH u ltac:(done)).
    rewrite (length_join_cons t (u :: v :: ts)) by done.
    change (removelast (u :: v :: ts)) with (u :: removelast (v :: ts)) in *.
    rewrite length_join_cons by done. lia.
Qed.

Lemma length_drop_last_token (f : string) :
  f ≠ "" → (String.length (drop_last_token f) < String.length f)%nat.
Proof.
  intros Hf. unfold drop_last_token.
  rewrite <- (length_join_split underscore f).
  pose proof (split_not_nil underscore f) as Hne.
  destruct (split underscore f) as [|t ts] eqn:Hs; [done|].
  destruct ts as [|u ts]; [|by apply length_join_all_but_last].
  simpl. pose proof (length_join_split underscore f) as Hl.
  rewrite Hs in Hl. simpl in Hl. rewrite Hl.
  destruct f; [done | simpl; lia].
Qed.

Lemma length_drop_last_token_le (f : string) :
  (String.length (drop_last_token f) ≤ String.length f)%nat.
Proof.
  destruct (decide (f = "")) as [->|Hf]; [done|].
  pose proof (length_drop_last_token f Hf). lia.
Qed.

Lemma contains_nonempty (sub s : string) :
  sub ≠ "" → contains sub s = true → s ≠ "".
Proof. intros Hsub Hc ->. simpl in Hc. by destruct sub. Qed.


(** * Facts about fuels.py *)

Module FuelsFacts.
Import Fuels.

Section Generic.

Context `{Arithmetic F}.

Lemma elem_of_ccs_fuels_of (generators : list string) (f : string) :
  f ∈ ccs_fuels_of generators ↔ f ∈ generators ∧ contains "ccs" f = true.
Proof.
  unfold ccs_fuels_of. by rewrite elem_of_drop_duplicates, list_elem_of_filter, (comm and).
Qed.

(** *** The CCS adjustment of one row *)

Lemma adjust_ccs_fuels_other (settings : Settings F) (row : FuelRow F) :
  contains "ccs" (Fuel row) = false → adjust_ccs_fuels settings row = Ok row.
Proof. unfold adjust_ccs_fuels. by intros ->. Qed.

Lemma adjust_ccs_fuels_ccs (settings : Settings F) (row : FuelRow F) d rates r :
  contains "ccs" (Fuel row) = true →
  ccs_disposal_cost settings = Some d →
  ccs_capture_rate settings = Some rates →
  rates !! last_two_tokens (Fuel row) = Some r →
  adjust_ccs_fuels settings row =
    Ok {| Fuel := Fuel row;
          Cost_per_MMBtu :=
            cell_add (Cost_per_MMBtu row)
              (cell_mul (cell_mul (CO2_content_tons_per_MMBtu row) r) d);
          CO2_content_tons_per_MMBtu :=
            cell_sub (CO2_content_tons_per_MMBtu row)
              (cell_mul (CO2_content_tons_per_MMBtu row) r) |}.
Proof.
  unfold adjust_ccs_fuels. intros -> -> -> Hr. simpl. by rewrite Hr.
Qed.

(** The operations of the adjustment, in the order of the code. *)
Lemma adjust_ccs_fuels_priced (settings : Settings F) (row : FuelRow F)
    d rates r p e :
  contains "ccs" (Fuel row) = true →
  ccs_disposal_cost settings = Some d →
  ccs_capture_rate settings = Some rates →
  rates !! last_two_tokens (Fuel row) = Some r →
  Cost_per_MMBtu row = Some p →
  CO2_content_tons_per_MMBtu row = Some e →
  adjust_ccs_fuels settings row =
    Ok {| Fuel := Fuel row;
          Cost_per_MMBtu := Some (fadd p (fmul (fmul e r) d));
          CO2_content_tons_per_MMBtu := Some (fsub e (fmul e r)) |}.
Proof.
  intros Hccs Hd Hrates Hr Hp He.
  rewrite (adjust_ccs_fuels_ccs _ _ d rates r) by done. by rewrite Hp, He.
Qed.


(** The adjustment leaves the fuel name as it is. *)
Lemma adjust_ccs_fuels_Fuel (settings : Settings F) (row row' : FuelRow F) :
  adjust_ccs_fuels settings row = Ok row' → Fuel row' = Fuel row.
Proof.
  unfold adjust_ccs_fuels.
  destruct (contains "ccs" (Fuel row)); [|by intros [= <-]].
  intros Hr. inv_ok Hr. by injection Hr as <-.
Qed.

Lemma ccs_step_Ok (maps : gmap string F * gmap string F) ccs_fuel maps' :
  ccs_step maps ccs_fuel = Ok maps' ↔
  ∃ p e, maps.1 !! drop_last_token ccs_fuel = Some p ∧
         maps.2 !! drop_last_token ccs_fuel = Some e ∧
         maps' = (<[ccs_fuel := p]> maps.1, <[ccs_fuel := e]> maps.2).
Proof.
  destruct maps as [pm em]. unfold ccs_step. simpl. rewrite bind_Ok. split.
  - intros (p & Hp%getitem_Ok & Hb). apply bind_Ok in Hb as (e & He%getitem_Ok & [= <-]).
    by exists p, e.
  - intros (p & e & Hp & He & ->). exists p. rewrite Hp, He. done.
Qed.

Lemma ccs_step_same_keys (maps : gmap string F * gmap string F) ccs_fuel maps' :
  ccs_step maps ccs_fuel = Ok maps' → same_keys maps → same_keys maps'.
Proof.
  intros (p & e & _ & _ & ->)%ccs_step_Ok Hk f. simpl.
  destruct (decide (ccs_fuel = f)) as [->|Hne].
  - by rewrite !lookup_insert_eq.
  - rewrite !lookup_insert_ne by done. apply Hk.
Qed.

Lemma for_each_ccs_step_same_keys l (maps : gmap string F * gmap string F) maps' :
  for_each l ccs_step maps = Ok maps' → same_keys maps → same_keys maps'.
Proof.
  revert maps. induction l as [|f l IH]; intros maps; simpl.
  - by intros [= <-].
  - intros (m1 & Hm1 & Hl)%bind_Ok Hk. eapply IH; [done|].
    by eapply ccs_step_same_keys.
Qed.

Lemma build_fuel_emission_map_same_keys (emission_dict fuel_price_map : gmap string F) :
  same_keys (fuel_price_map, build_fuel_emission_map emission_dict fuel_price_map).
Proof.
  intros f. unfold build_fuel_emission_map. simpl. rewrite map_lookup_imap.
  by destruct (fuel_price_map !! f).
Qed.


(** *** The carbon tax *)

Lemma tax_row_priced (ctax : F) (r : FuelRow F) p e :
  Cost_per_MMBtu r = Some p → CO2_content_tons_per_MMBtu r = Some e →
  tax_row ctax r =
    {| Fuel := Fuel r; Cost_per_MMBtu := Some (fadd p (fmul e ctax));
       CO2_content_tons_per_MMBtu := Some e |}.
Proof. unfold tax_row. by intros -> ->. Qed.

Lemma hour_index_lookup (N i : Z) :
  (1 ≤ i ≤ N)%Z → hour_index N !! Z.to_nat (i - 1) = Some i.
Proof.
  intros Hi. unfold hour_index. rewrite list_lookup_fmap.
  rewrite lookup_seq_lt by lia. simpl. f_equal. lia.
Qed.

Lemma length_hour_index (N : Z) : length (hour_index N) = Z.to_nat N.
Proof. unfold hour_index. by rewrite length_fmap, length_seq. Qed.

Lemma num_hours_of_Ok (settings : Settings F) N :
  num_hours_of settings = Ok N →
  if default false (reduce_time_domain settings)
  then ∃ days periods,
         time_domain_days_per_period settings = Some days ∧
         time_domain_periods settings = Some periods ∧
         N = (days * periods * 24)%Z
  else N = 8760%Z.
Proof.
  unfold num_hours_of. destruct (default false (reduce_time_domain settings)).
  - intros Hn. inv_ok Hn. injection Hn as <-.
    apply getitem_Ok in Ha, Ha0. by exists a, a0.
  - by intros [= <-].
Qed.

Section FuelCostTableProps.

Variable add_user_fuel_prices : Settings F → list (PriceRow F) → list (PriceRow F).

Abbreviation fuel_cost_table := (fuel_cost_table add_user_fuel_prices).
Abbreviation ccs_adjusted_frame := (ccs_adjusted_frame add_user_fuel_prices).
Abbreviation fuel_lookups := (fuel_lookups add_user_fuel_prices).
Abbreviation model_year_prices := (model_year_prices add_user_fuel_prices).

Lemma fuel_cost_table_Ok fuel_costs generators settings t :
  fuel_cost_table fuel_costs generators settings = Ok t ↔
  ∃ fuel_df N,
    ccs_adjusted_frame fuel_costs generators settings = Ok fuel_df ∧
    num_hours_of settings = Ok N ∧
    t = {| index_name := "Time_Index";
           columns := drop_duplicates generators;
           rows :=
             (0%Z, round_decimals 5 <$> co2_column (add_carbon_tax fuel_df settings))
             :: ((λ i, (i, round_decimals 2
                             <$> cost_column (add_carbon_tax fuel_df settings)))
                   <$> hour_index N) |}.
Proof.
  unfold Fuels.fuel_cost_table. rewrite bind_Ok. split.
  - intros (df & Hdf & Ht). apply bind_Ok in Ht as (N & HN & [= <-]). by exists df, N.
  - intros (df & N & Hdf & HN & ->). exists df. split; [done|]. by rewrite HN.
Qed.

Lemma fuel_lookups_same_keys fuel_costs generators settings maps :
  fuel_lookups fuel_costs generators settings = Ok maps → same_keys maps.
Proof.
  unfold Fuels.fuel_lookups. intros Hm. inv_ok Hm.
  eapply for_each_ccs_step_same_keys; [done|].
  apply build_fuel_emission_map_same_keys.
Qed.

Lemma ccs_adjusted_frame_Ok fuel_costs generators settings fuel_df :
  ccs_adjusted_frame fuel_costs generators settings = Ok fuel_df ↔
  ∃ maps, fuel_lookups fuel_costs generators settings = Ok maps ∧
    Forall2 (λ x y, adjust_ccs_fuels settings x = Ok y)
      (lookup_rows maps (drop_duplicates generators)) fuel_df.
Proof.
  unfold Fuels.ccs_adjusted_frame. rewrite bind_Ok.
  by setoid_rewrite map_rows_Ok.
Qed.


(** The frame has one row for each column of the table. *)
Lemma ccs_adjusted_frame_fuels fuel_costs generators settings fuel_df :
  ccs_adjusted_frame fuel_costs generators settings = Ok fuel_df →
  Fuel <$> add_carbon_tax fuel_df settings = drop_duplicates generators.
Proof.
  intros (maps & _ & Hrows)%ccs_adjusted_frame_Ok.
  unfold add_carbon_tax, lookup_rows in *. rewrite <- list_fmap_compose.
  revert Hrows. generalize (drop_duplicates generators). intros fuels.
  revert fuel_df. induction fuels as [|f fuels IH]; intros fuel_df Hrows.
  - by apply Forall2_nil_inv_l in Hrows as ->.
  - rewrite fmap_cons in Hrows.
    apply Forall2_cons_inv_l in Hrows as (row & df & Hrow & Hdf & ->).
    rewrite fmap_cons. f_equal; [|by apply IH].
    by apply adjust_ccs_fuels_Fuel in Hrow.
Qed.

(** The rows of the table, cell by cell of the frame after the tax. *)
Lemma fuel_cost_table_rows fuel_costs generators settings t :
  fuel_cost_table fuel_costs generators settings = Ok t →
  ∃ fuel_df N emissions prices,
    ccs_adjusted_frame fuel_costs generators settings = Ok fuel_df ∧
    num_hours_of settings = Ok N ∧
    Fuel <$> add_carbon_tax fuel_df settings = columns t ∧
    rows t =
      (0%Z, emissions)
      :: ((λ k, (Z.of_nat (S k), prices)) <$> seq 0 (Z.to_nat N)) ∧
    Forall2 (λ r v, v = round_decimals 5 (fillna0 (CO2_content_tons_per_MMBtu r)))
      (add_carbon_tax fuel_df settings) emissions ∧
    Forall2 (λ r v, v = round_decimals 2 (fillna0 (Cost_per_MMBtu r)))
      (add_carbon_tax fuel_df settings) prices.
Proof.
  intros (fuel_df & N & Hdf & HN & ->)%fuel_cost_table_Ok.
  exists fuel_df, N. eexists _, _. split; [done|]. split; [done|].
  split; [by eapply ccs_adjusted_frame_fuels|]. split.
  - simpl. f_equal. unfold hour_index. by rewrite <- list_fmap_compose.
  - split.
    + unfold co2_column. rewrite <- list_fmap_compose.
      apply Forall2_fmap_r, Forall_Forall2_diag, Forall_forall. done.
    + unfold cost_column. rewrite <- list_fmap_compose.
      apply Forall2_fmap_r, Forall_Forall2_diag, Forall_forall. done.
Qed.

(** The loop over the CCS fuels only adds entries, one for each CCS fuel. *)
Lemma ccs_step_is_Some (maps : gmap string F * gmap string F) ccs_fuel maps' f :
  ccs_step maps ccs_fuel = Ok maps' →
  is_Some (maps.1 !! f) ∨ f = ccs_fuel → is_Some (maps'.1 !! f).
Proof.
  intros (p & e & _ & _ & ->)%ccs_step_Ok Hf. simpl.
  destruct (decide (ccs_fuel = f)) as [->|Hne].
  - rewrite lookup_insert_eq. eauto.
  - rewrite lookup_insert_ne by done. destruct Hf as [Hf| ->]; done.
Qed.

Lemma for_each_ccs_step_is_Some l (maps : gmap string F * gmap string F) maps' f :
  for_each l ccs_step maps = Ok maps' →
  is_Some (maps.1 !! f) ∨ f ∈ l → is_Some (maps'.1 !! f).
Proof.
  revert maps. induction l as [|g l IH]; intros maps; simpl.
  - intros [= <-] [Hf|Hf%elem_of_nil]; done.
  - intros (m1 & Hm1 & Hl)%bind_Ok Hf. eapply IH; [done|].
    rewrite elem_of_cons in Hf.
    destruct (decide (f ∈ l)) as [Hin|Hnin]; [by right|]. left.
    eapply ccs_step_is_Some; [done|]. tauto.
Qed.

Lemma fuel_lookups_ccs_priced fuel_costs generators settings maps f :
  fuel_lookups fuel_costs generators settings = Ok maps →
  f ∈ generators → contains "ccs" f = true → is_Some (maps.1 !! f).
Proof.
  unfold Fuels.fuel_lookups. intros Hm Hin Hccs. inv_ok Hm.
  eapply for_each_ccs_step_is_Some; [done|]. right.
  by apply elem_of_ccs_fuels_of.
Qed.

(** C6 -- every fuel of the roster is the name of exactly one column of the
    table, and a fuel for which the lookups hold no price or no emission factor
    has the value 0 in every row. *)
Theorem fuel_cost_table_columns fuel_costs generators settings t :
  fuel_cost_table fuel_costs generators settings = Ok t →
  NoDup (columns t) ∧
  (∀ f, f ∈ columns t ↔ f ∈ generators) ∧
  (∀ i values, (i, values) ∈ rows t → length values = length (columns t)) ∧
  ∃ maps,
    fuel_lookups fuel_costs generators settings = Ok maps ∧
    ∀ j f, columns t !! j = Some f →
      maps.1 !! f = None ∨ maps.2 !! f = None →
      ∀ i values, (i, values) ∈ rows t → values !! j = Some fzero.
Proof.
  intros (fuel_df & N & Hdf & HN & ->)%fuel_cost_table_Ok. simpl.
  apply ccs_adjusted_frame_Ok in Hdf as (maps & Hmaps & Hrows).
  assert (length fuel_df = length (drop_duplicates generators)) as Hlen.
  { apply Forall2_length in Hrows. unfold lookup_rows in Hrows.
    by rewrite length_fmap in Hrows. }
  split; [apply NoDup_drop_duplicates|].
  split; [apply elem_of_drop_duplicates|]. split.
  - intros i values [[= -> ->]|Hin]%elem_of_cons.
    + unfold co2_column, add_carbon_tax. by rewrite !length_fmap.
    + apply list_elem_of_fmap in Hin as (k & [= -> ->] & _).
      unfold cost_column, add_carbon_tax. by rewrite !length_fmap.
  - exists maps. split; [done|]. intros j f Hj Hnone.
    assert (maps.1 !! f = None ∧ maps.2 !! f = None) as [Hp He].
    { pose proof (fuel_lookups_same_keys _ _ _ _ Hmaps f). tauto. }
    assert (contains "ccs" f = false) as Hccs.
    { destruct (contains "ccs" f) eqn:Hc; [|done].
      assert (f ∈ generators) as Hin.
      { apply elem_of_drop_duplicates. by eapply list_elem_of_lookup_2. }
      destruct (fuel_lookups_ccs_priced _ _ _ _ f Hmaps Hin Hc). congruence. }
    assert (fuel_df !! j =
              Some {| Fuel := f; Cost_per_MMBtu := None;
                      CO2_content_tons_per_MMBtu := None |}) as Hrow.
    { assert (lookup_rows maps (drop_duplicates generators) !! j =
                Some {| Fuel := f; Cost_per_MMBtu := None;
                        CO2_content_tons_per_MMBtu := None |}) as Hl.
      { unfold lookup_rows. rewrite list_lookup_fmap, Hj. simpl. by rewrite Hp, He. }
      destruct (Forall2_lookup_l _ _ _ _ _ Hrows Hl) as (y & Hy & Hadj).
      rewrite adjust_ccs_fuels_other in Hadj by done. by injection Hadj as <-. }
    intros i values [[= -> ->]|Hin]%elem_of_cons.
    + unfold co2_column, add_carbon_tax. rewrite !list_lookup_fmap, Hrow. simpl.
      by rewrite round_decimals_zero by lia.
    + apply list_elem_of_fmap in Hin as (k & [= -> ->] & _).
      unfold cost_column, add_carbon_tax. rewrite !list_lookup_fmap, Hrow. simpl.
      by rewrite round_decimals_zero by lia.
Qed.

End FuelCostTableProps.

Lemma ccs_step_agree_below n (m m' : gmap string F * gmap string F) g r r' :
  agree_below n m m' →
  ccs_step m g = Ok r → ccs_step m' g = Ok r' → agree_below n r r'.
Proof.
  intros Hag (p & e & Hp & He & ->)%ccs_step_Ok
    (p' & e' & Hp' & He' & ->)%ccs_step_Ok k Hk. simpl.
  destruct (decide (g = k)) as [->|Hne].
  - rewrite !lookup_insert_eq.
    destruct (Hag (drop_last_token k)) as [H1 H2].
    { pose proof (length_drop_last_token_le k). lia. }
    split; congruence.
  - rewrite !lookup_insert_ne by done. by apply Hag.
Qed.

Lemma for_each_ccs_step_agree_below n l (m m' : gmap string F * gmap string F) r r' :
  agree_below n m m' →
  for_each l ccs_step m = Ok r → for_each l ccs_step m' = Ok r' →
  agree_below n r r'.
Proof.
  revert m m'. induction l as [|g l IH]; intros m m' Hag; simpl.
  - by intros [= <-] [= <-].
  - intros (m1 & Hm1 & Hl)%bind_Ok (m1' & Hm1' & Hl')%bind_Ok.
    eapply IH; [|done..]. by eapply ccs_step_agree_below.
Qed.

Lemma only_KeyError_ccs_step (maps : gmap string F * gmap string F) f :
  only_KeyError (ccs_step maps f).
Proof.
  destruct maps as [pm em]. unfold ccs_step.
  apply only_KeyError_bind; [apply only_KeyError_getitem|]. intros p _.
  apply only_KeyError_bind; [apply only_KeyError_getitem|]. intros e _.
  apply only_KeyError_Ok.
Qed.

Lemma only_KeyError_adjust_ccs_fuels (settings : Settings F) row :
  only_KeyError (adjust_ccs_fuels settings row).
Proof.
  unfold adjust_ccs_fuels. destruct (contains "ccs" (Fuel row));
    [|apply only_KeyError_Ok].
  repeat (apply only_KeyError_bind; [apply only_KeyError_getitem|]; intros ? _).
  apply only_KeyError_Ok.
Qed.

Lemma only_KeyError_num_hours_of (settings : Settings F) :
  only_KeyError (num_hours_of settings).
Proof.
  unfold num_hours_of. destruct (default false (reduce_time_domain settings));
    [|apply only_KeyError_Ok].
  repeat (apply only_KeyError_bind; [apply only_KeyError_getitem|]; intros ? _).
  apply only_KeyError_Ok.
Qed.

(** An entry that is not written by the loop is read back as it was. *)
Lemma for_each_ccs_step_other l (maps : gmap string F * gmap string F) maps' k :
  for_each l ccs_step maps = Ok maps' → k ∉ l →
  maps'.1 !! k = maps.1 !! k ∧ maps'.2 !! k = maps.2 !! k.
Proof.
  revert maps. induction l as [|g l IH]; intros maps; simpl.
  - by intros [= <-].
  - intros (m1 & Hm1 & Hl)%bind_Ok Hk. apply not_elem_of_cons in Hk as [Hne Hk].
    destruct (IH _ Hl Hk) as [-> ->].
    apply ccs_step_Ok in Hm1 as (p & e & _ & _ & ->). simpl.
    by rewrite !lookup_insert_ne.
Qed.

Section FuelCostTableFailures.

Variable add_user_fuel_prices : Settings F → list (PriceRow F) → list (PriceRow F).

Abbreviation fuel_cost_table := (fuel_cost_table add_user_fuel_prices).
Abbreviation ccs_adjusted_frame := (ccs_adjusted_frame add_user_fuel_prices).
Abbreviation fuel_lookups := (fuel_lookups add_user_fuel_prices).
Abbreviation model_year_prices := (model_year_prices add_user_fuel_prices).

Lemma only_KeyError_fuel_cost_table fuel_costs generators settings :
  only_KeyError (fuel_cost_table fuel_costs generators settings).
Proof.
  unfold Fuels.fuel_cost_table, Fuels.ccs_adjusted_frame, Fuels.fuel_lookups,
    Fuels.model_year_prices.
  repeat first
    [ apply only_KeyError_Ok
    | apply only_KeyError_getitem
    | apply only_KeyError_num_hours_of
    | apply only_KeyError_for_each; intros; apply only_KeyError_ccs_step
    | apply only_KeyError_map_rows; intros; apply only_KeyError_adjust_ccs_fuels
    | apply only_KeyError_bind; [|intros ? _] ].
Qed.

Lemma fuel_lookups_Ok fuel_costs generators settings maps :
  fuel_lookups fuel_costs generators settings = Ok maps ↔
  ∃ prices emission_dict,
    model_year_prices fuel_costs settings = Ok prices ∧
    fuel_emission_factors settings = Some emission_dict ∧
    for_each (ccs_fuels_of generators) ccs_step
      (prices, build_fuel_emission_map emission_dict prices) = Ok maps.
Proof.
  unfold Fuels.fuel_lookups. rewrite bind_Ok. split.
  - intros (prices & Hp & Hm). apply bind_Ok in Hm as (ed & Hed%getitem_Ok & Hm).
    by exists prices, ed.
  - intros (prices & ed & Hp & Hed & Hm). exists prices. split; [done|].
    by rewrite Hed.
Qed.

(** C7, as it holds of the code -- a roster fuel with "ccs" in its name makes
    [fuel_cost_table] fail with [KeyError] when (a) neither the price lookup
    of the model year nor a CCS fuel placed before it in the roster provides
    an entry for its name without the last token, or (b) the settings have no
    [ccs_disposal_cost] or no [ccs_capture_rate] entry for its last two
    tokens. *)
Theorem ccs_lookup_failure fuel_costs generators settings f l1 l2 :
  ccs_fuels_of generators = (l1 ++ f :: l2) →
  ((∀ prices, model_year_prices fuel_costs settings = Ok prices →
      prices !! drop_last_token f = None) ∧
   drop_last_token f ∉ l1) ∨
  ccs_disposal_cost settings = None ∨
  (∀ rates, ccs_capture_rate settings = Some rates →
     rates !! last_two_tokens f = None) →
  fuel_cost_table fuel_costs generators settings = Err KeyError.
Proof.
  intros Hsplit Hmiss.
  destruct (fuel_cost_table fuel_costs generators settings) as [t|e] eqn:Hrun;
    [|f_equal; by eapply only_KeyError_fuel_cost_table].
  exfalso.
  apply fuel_cost_table_Ok in Hrun as (fuel_df & N & Hdf & _ & _).
  apply ccs_adjusted_frame_Ok in Hdf as (maps & Hmaps & Hrows).
  assert (f ∈ generators ∧ contains "ccs" f = true) as [Hin Hccs].
  { apply elem_of_ccs_fuels_of. rewrite Hsplit.
    apply elem_of_app. right. left. }
  destruct Hmiss as [[Hprice Hbefore]|Hadj].
  - apply fuel_lookups_Ok in Hmaps as (prices & ed & Hp & _ & Hloop).
    rewrite Hsplit, for_each_app in Hloop.
    apply bind_Ok in Hloop as (m1 & Hm1 & Hloop). simpl in Hloop.
    apply bind_Ok in Hloop as (m2 & Hm2 & _).
    apply ccs_step_Ok in Hm2 as (p & _ & Hbase & _).
    destruct (for_each_ccs_step_other _ _ _ _ Hm1 Hbefore) as [Heq _].
    simpl in Heq. rewrite Heq, (Hprice _ Hp) in Hbase. done.
  - assert (f ∈ drop_duplicates generators) as Hu
      by by apply elem_of_drop_duplicates.
    apply list_elem_of_lookup in Hu as (j & Hj).
    assert (lookup_rows maps (drop_duplicates generators) !! j =
              Some {| Fuel := f; Cost_per_MMBtu := maps.1 !! f;
                      CO2_content_tons_per_MMBtu := maps.2 !! f |}) as Hl.
    { unfold lookup_rows. by rewrite list_lookup_fmap, Hj. }
    destruct (Forall2_lookup_l _ _ _ _ _ Hrows Hl) as (y & _ & Hy).
    unfold adjust_ccs_fuels in Hy. simpl in Hy. rewrite Hccs in Hy.
    apply bind_Ok in Hy as (d & Hd%getitem_Ok & Hy).
    apply bind_Ok in Hy as (rates & Hrates%getitem_Ok & Hy).
    apply bind_Ok in Hy as (r & Hr%getitem_Ok & _).
    destruct Hadj as [Hnone|Hnone]; [congruence|].
    rewrite (Hnone _ Hrates) in Hr. done.
Qed.

(** C10, as it holds of the code -- a roster fuel [f] with "ccs" in its name
    gets the price and the emission factor that the lookups hold, when the
    loop reaches it, under its name without the last token: the entries of
    the model year when that name is not a CCS fuel placed before [f] in the
    roster, the entries the loop wrote for it otherwise.  The entry the price
    lookup of the model year holds under [f] itself is overwritten, and the
    values given to [f] are the same whatever price row is keyed by [f]; such
    a row can still be the base of another CCS fuel that the loop reaches
    before [f]. *)
Theorem ccs_fuel_from_base fuel_costs generators settings maps f l1 l2 :
  fuel_lookups fuel_costs generators settings = Ok maps →
  ccs_fuels_of generators = (l1 ++ f :: l2) →
  ∃ prices emission_dict before,
    model_year_prices fuel_costs settings = Ok prices ∧
    fuel_emission_factors settings = Some emission_dict ∧
    for_each l1 ccs_step
      (prices, build_fuel_emission_map emission_dict prices) = Ok before ∧
    is_Some (maps.1 !! f) ∧
    maps.1 !! f = before.1 !! drop_last_token f ∧
    maps.2 !! f = before.2 !! drop_last_token f ∧
    (drop_last_token f ∉ l1 →
     maps.1 !! f = prices !! drop_last_token f ∧
     maps.2 !! f =
       Some (default fzero (emission_dict !! last_token (drop_last_token f)))) ∧
    (∀ fuel_costs' prices' maps',
       model_year_prices fuel_costs' settings = Ok prices' →
       (∀ k, k ≠ f → prices' !! k = prices !! k) →
       fuel_lookups fuel_costs' generators settings = Ok maps' →
       maps'.1 !! f = maps.1 !! f ∧ maps'.2 !! f = maps.2 !! f).
Proof.
  intros (prices & ed & Hp & Hed & Hloop)%fuel_lookups_Ok Hsplit.
  exists prices, ed.
  assert (NoDup (l1 ++ f :: l2)) as Hnd
    by (rewrite <- Hsplit; apply NoDup_drop_duplicates).
  apply NoDup_app in Hnd as (_ & _ & [Hf2 _]%NoDup_cons).
  rewrite Hsplit, for_each_app in Hloop.
  apply bind_Ok in Hloop as (before & Hbefore & Hloop). simpl in Hloop.
  apply bind_Ok in Hloop as (m2 & Hm2 & Hloop).
  exists before. do 3 (split; [done|]).
  destruct (for_each_ccs_step_other _ _ _ _ Hloop Hf2) as [-> ->].
  pose proof Hm2 as (p & e & Hbp & Hbe & ->)%ccs_step_Ok. simpl.
  rewrite !lookup_insert_eq, Hbp, Hbe.
  split; [eauto|]. split; [done|]. split; [done|]. split.
  - intros Hbase.
    destruct (for_each_ccs_step_other _ _ _ _ Hbefore Hbase) as [Hp1 He1].
    simpl in Hp1, He1. rewrite Hp1 in Hbp. rewrite He1 in Hbe.
    split; [done|]. rewrite <- Hbe. unfold build_fuel_emission_map.
    rewrite map_lookup_imap, Hbp. done.
  - intros fuel_costs' prices' maps' Hp' Hsame
      (prices'' & ed' & Hp'' & Hed' & Hloop')%fuel_lookups_Ok.
    rewrite Hp' in Hp''. injection Hp'' as <-.
    rewrite Hed in Hed'. injection Hed' as <-.
    rewrite Hsplit, for_each_app in Hloop'.
    apply bind_Ok in Hloop' as (before' & Hbefore' & Hloop'). simpl in Hloop'.
    apply bind_Ok in Hloop' as (m2' & Hm2' & Hloop').
    destruct (for_each_ccs_step_other _ _ _ _ Hloop' Hf2) as [-> ->].
    apply ccs_step_Ok in Hm2' as (p' & e' & Hbp' & Hbe' & ->). simpl.
    rewrite !lookup_insert_eq.
    assert (f ≠ "") as Hne.
    { assert (f ∈ ccs_fuels_of generators) as Hin
        by (rewrite Hsplit; apply elem_of_app; right; left).
      apply elem_of_ccs_fuels_of in Hin as [_ Hc].
      by apply (contains_nonempty "ccs"). }
    assert (agree_below (String.length f)
              (prices', build_fuel_emission_map ed prices')
              (prices, build_fuel_emission_map ed prices)) as Hag.
    { intros k Hk. assert (k ≠ f) as Hkf by (intros ->; lia). simpl.
      unfold build_fuel_emission_map. rewrite !map_lookup_imap.
      by rewrite (Hsame k Hkf). }
    destruct (for_each_ccs_step_agree_below _ _ _ _ _ _ Hag Hbefore' Hbefore
                (drop_last_token f) (length_drop_last_token f Hne)) as [H1 H2].
    split; congruence.
Qed.

End FuelCostTableFailures.

End Generic.

(** *** The arithmetic of the specification *)

Section Exact.

Local Open Scope Qc_scope.

Variable add_user_fuel_prices :
  Settings Qc → list (PriceRow Qc) → list (PriceRow Qc).

Abbreviation fuel_cost_table := (fuel_cost_table add_user_fuel_prices).
Abbreviation ccs_adjusted_frame := (ccs_adjusted_frame add_user_fuel_prices).




End Exact.

(** *** The arithmetic of the code *)


Section Binary64.

Variable add_user_fuel_prices :
  Settings double → list (PriceRow double) → list (PriceRow double).

Abbreviation fuel_cost_table := (fuel_cost_table add_user_fuel_prices).
Abbreviation ccs_adjusted_frame := (ccs_adjusted_frame add_user_fuel_prices).

(** C5 -- the result table is indexed by "Time_Index"; row 0 holds, fuel by
    fuel, the emission factor of the frame (one row for each column of the
    table) rounded to 5 decimals, and it is followed by the rows 1, ..., N,
    which all hold, fuel by fuel, the price of the frame rounded to 2
    decimals; N is [days_per_period * periods * 24]
    when [reduce_time_domain] is set and 8760 otherwise (7 days and 4 periods:
    672 hourly rows).  The rounding is that of [numpy] on doubles: with the
    price 3.00 and the emission factor 0.053 of "NG", capture rate 0.9,
    disposal cost 10 and carbon tax 5, row 0 holds 0.053 for "NG", 0.0053 for
    "NG_ccs" (from 0.005299999999999999) and 0 for "coal", which has no price,
    and each of the 672 hourly rows holds 3.26 (from 3.265, a double below the
    tie), 3.5 (from 3.5035) and 0; 0.125, a tie, is rounded to 0.12, and
    1.015, a double below the tie, to 1.01. *)
Theorem fuel_cost_table_shape fuel_costs generators settings t :
  fuel_cost_table fuel_costs generators settings = Ok t →
  index_name t = "Time_Index" ∧
  (∃ fuel_df N emissions prices,
    ccs_adjusted_frame fuel_costs generators settings = Ok fuel_df ∧
    num_hours_of settings = Ok N ∧
    (if default false (reduce_time_domain settings)
     then ∃ days periods,
            time_domain_days_per_period settings = Some days ∧
            time_domain_periods settings = Some periods ∧
            N = (days * periods * 24)%Z
     else N = 8760%Z) ∧
    (default false (reduce_time_domain settings) = true →
     time_domain_days_per_period settings = Some 7%Z →
     time_domain_periods settings = Some 4%Z → N = 672%Z) ∧
    Fuel <$> add_carbon_tax fuel_df settings = columns t ∧
    rows t =
      (0%Z, emissions)
      :: ((λ k, (Z.of_nat (S k), prices)) <$> seq 0 (Z.to_nat N)) ∧
    Forall2 (λ r v, v = round_decimals 5 (fillna0 (CO2_content_tons_per_MMBtu r)))
      (add_carbon_tax fuel_df settings) emissions ∧
    Forall2 (λ r v, v = round_decimals 2 (fillna0 (Cost_per_MMBtu r)))
      (add_carbon_tax fuel_df settings) prices) ∧
  Fuels.fuel_cost_table no_user_prices example_prices example_roster
    example_settings =
    Ok {| index_name := "Time_Index";
          columns := ["NG"; "NG_ccs"; "coal"];
          rows :=
            (0%Z, [dec 53 1000; dec 53 10000; fzero])
            :: ((λ k, (Z.of_nat (S k), [dec 326 100; dec 35 10; fzero]))
                  <$> seq 0 672) |} ∧
  round_decimals 2 (dec 125 1000 : double) = dec 12 100 ∧
  round_decimals 2 (dec 1015 1000 : double) = dec 101 100.
Proof.
  intros Ht. split; [|split; [|split; [|split; reflexivity]]].
  - by apply fuel_cost_table_Ok in Ht as (? & ? & _ & _ & ->).
  - destruct (fuel_cost_table_rows _ _ _ _ _ Ht)
      as (fuel_df & N & emissions & prices & Hdf & HN & Hfuels & Hrows & Hem
          & Hpr).
    exists fuel_df, N, emissions, prices. split; [done|]. split; [done|].
    pose proof (num_hours_of_Ok _ _ HN) as HNv.
    split; [exact HNv|]. split; [|done].
    intros Hr Hd Hp. rewrite Hr in HNv. destruct HNv as (d & p & Hd' & Hp' & ->).
    rewrite Hd in Hd'. rewrite Hp in Hp'. by injection Hd' as <-; injection Hp' as <-.
  - vm_compute. reflexivity.
Qed.

End Binary64.




Lemma fuel_cost_table_shape_witness :
  ∃ t N,
    fuel_cost_table (F := double) no_user_prices example_prices example_roster
      example_settings = Ok t ∧
    index_name t = "Time_Index" ∧
    num_hours_of (F := double) example_settings = Ok N ∧ N = 672%Z.
Proof.
  destruct (fuel_cost_table (F := double) no_user_prices example_prices
              example_roster example_settings) as [t|e] eqn:Hok;
    [|vm_compute in Hok; discriminate].
  destruct (fuel_cost_table_shape no_user_prices example_prices example_roster
              example_settings t Hok)
    as (Hname & (fuel_df & N & emissions & prices & _ & HN & _ & H672 & _)
        & _).
  exists t, N. split; [reflexivity|]. split; [exact Hname|].
  split; [exact HN|]. apply H672; reflexivity.
Defined.

Lemma fuel_cost_table_columns_witness :
  ∃ t, fuel_cost_table (F := double) no_user_prices example_prices example_roster
         example_settings = Ok t ∧
       NoDup (columns t) ∧ (∀ f, f ∈ columns t ↔ f ∈ example_roster).
Proof.
  destruct (fuel_cost_table (F := double) no_user_prices example_prices
              example_roster example_settings) as [t|e] eqn:Hok;
    [|vm_compute in Hok; discriminate].
  destruct (fuel_cost_table_columns no_user_prices example_prices example_roster
              example_settings t Hok) as (Hnd & Hin & _).
  exists t. split; [reflexivity|]. split; [exact Hnd | exact Hin].
Defined.

(** The price lookup of 2030 holds "NG" only, so it has no entry for
    "NG_ccs", the base of "NG_ccs_x"; the table is built all the same, from
    the entry the loop wrote for "NG_ccs" one turn earlier. *)
Lemma ccs_lookup_failure_counterexample :
  ¬ ccs_lookup_failure_claim (F := double) no_user_prices example_prices
      chained_roster chained_settings "NG_ccs_x".
Proof.
  intros Hclaim.
  assert (fuel_cost_table (F := double) no_user_prices example_prices
            chained_roster chained_settings = Err KeyError) as Hfail.
  { apply Hclaim.
    - apply elem_of_cons. right. apply elem_of_cons. by left.
    - reflexivity.
    - left. intros prices [= <-]. reflexivity. }
  vm_compute in Hfail. discriminate.
Qed.

Lemma ccs_lookup_failure_witness :
  fuel_cost_table (F := double) no_user_prices example_prices ["coal"; "NG_ccs_x"]
    chained_settings = Err KeyError.
Proof.
  apply (ccs_lookup_failure no_user_prices example_prices ["coal"; "NG_ccs_x"]
           chained_settings "NG_ccs_x" [] []).
  - reflexivity.
  - left. split.
    + intros prices [= <-]. reflexivity.
    + apply not_elem_of_nil.
Defined.

Lemma ccs_fuel_from_base_witness :
  ∃ maps,
    fuel_lookups (F := double) no_user_prices example_prices example_roster
      example_settings = Ok maps ∧
    maps.1 !! "NG_ccs" = Some (dec 3 1) ∧
    maps.2 !! "NG_ccs" = Some (dec 53 1000).
Proof.
  destruct (fuel_lookups (F := double) no_user_prices example_prices
              example_roster example_settings) as [maps|e] eqn:Hok;
    [|vm_compute in Hok; discriminate].
  destruct (ccs_fuel_from_base no_user_prices example_prices example_roster
              example_settings maps "NG_ccs" [] [] Hok eq_refl)
    as (prices & ed & before & Hp & Hed & _ & _ & _ & _ & Hbase & _).
  destruct (Hbase (not_elem_of_nil _)) as [H1 H2].
  injection Hp as <-. injection Hed as <-.
  exists maps. split; [reflexivity|]. split; [exact H1 | exact H2].
Defined.

(** With the roster "NG_ccs_x", "NG_ccs" the loop reaches "NG_ccs_x" first and
    reads the entry of its base "NG_ccs" from the price lookup of the model
    year: the price of the row keyed by the CCS fuel "NG_ccs", 99 or 50, is
    the hourly price of "NG_ccs_x". *)
Lemma ccs_fuel_from_base_counterexample :
  ¬ ccs_rows_unused_claim (F := double) no_user_prices
      (prices_with_ccs_row (dec 99 1)) (prices_with_ccs_row (dec 50 1))
      derived_first_roster chained_settings.
Proof.
  intros Hclaim.
  assert (fuel_cost_table (F := double) no_user_prices
            (prices_with_ccs_row (dec 99 1)) derived_first_roster
            chained_settings =
          fuel_cost_table no_user_prices (prices_with_ccs_row (dec 50 1))
            derived_first_roster chained_settings) as Heq.
  { apply Hclaim. reflexivity. }
  vm_compute in Heq. discriminate.
Qed.

End FuelsFacts.

(** * Facts about run_powergenome_multiple_outputs_cli.py *)

Module ScenarioFacts.
Import Scenario.

(** Induction on a value, with the hypothesis on every element. *)
Lemma value_nested_ind (P : value → Prop) :
  P VNaN →
  (∀ k, P (VKey k)) →
  (∀ o xs, Forall P xs → P (VList o xs)) →
  (∀ o es, Forall (λ kv, P kv.2) es → P (VDict o es)) →
  ∀ v, P v.
Proof.
  intros HNaN HKey HList HDict. fix IH 1. intros [|k|o xs|o es].
  - exact HNaN.
  - apply HKey.
  - apply HList. induction xs as [|x xs IHxs]; constructor; [apply IH | exact IHxs].
  - apply HDict. induction es as [|[k v] es IHes]; constructor;
      [apply IH | exact IHes].
Qed.

Lemma well_formed_dict o es :
  well_formed (VDict o es) = true ↔
  NoDup (dict_keys es) ∧ ∀ k v, (k, v) ∈ es → well_formed v = true.
Proof.
  simpl. rewrite andb_true_iff, bool_decide_eq_true, forallb_forall.
  split; intros [Hnd Hall]; (split; [done|]).
  - intros k v Hin. apply (Hall (k, v)). by apply list_elem_of_In.
  - intros [k v] Hin. apply (Hall k v). by apply list_elem_of_In.
Qed.

(** *** The merge *)

Lemma merge_value_dict ob bes op pes :
  merge_value (VDict ob bes) (VDict op pes) = VDict ob (foldl update_key bes pes).
Proof.
  simpl. f_equal. revert bes.
  induction pes as [|[k v] pes IH]; intros bes; [done|]. simpl. by rewrite IH.
Qed.

Lemma update_dictionary_value base patch :
  merge_value (dict_value base) (dict_value patch) =
    dict_value (update_dictionary base patch).
Proof. apply merge_value_dict. Qed.

Lemma update_key_other base kv k :
  k ≠ kv.1 → dict_get k (update_key base kv) = dict_get k base.
Proof. intros Hne. unfold update_key. by rewrite dict_get_set_ne. Qed.

Lemma foldl_update_key_other pes bes k :
  k ∉ dict_keys pes → dict_get k (foldl update_key bes pes) = dict_get k bes.
Proof.
  unfold dict_keys. revert bes. induction pes as [|[k' v'] pes IH]; intros bes; [done|].
  simpl. intros [Hne Hk]%not_elem_of_cons. rewrite IH by done.
  by apply update_key_other.
Qed.

Lemma foldl_update_key_patched pes bes k pv :
  NoDup (dict_keys pes) → (k, pv) ∈ pes →
  dict_get k (foldl update_key bes pes) =
    Some (match dict_get k bes with
          | Some b => merge_value b pv
          | None => pv
          end).
Proof.
  unfold dict_keys. revert bes.
  induction pes as [|[k' v'] pes IH]; intros bes; [by intros _ ?%elem_of_nil|].
  simpl. intros [Hk' Hnd]%NoDup_cons [[= -> ->]|Hin]%elem_of_cons.
  - rewrite foldl_update_key_other by done. unfold update_key. simpl.
    by rewrite dict_get_set_eq.
  - assert (k ≠ k') as Hne.
    { intros ->. apply Hk'. apply list_elem_of_fmap. by exists (k', pv). }
    rewrite IH by done. by rewrite update_key_other.
Qed.

Lemma foldl_update_key_absorbed pes acc :
  (∀ k v, (k, v) ∈ pes →
     ∃ x, dict_get k acc = Some x ∧ merge_value x v = x) →
  foldl update_key acc pes = acc.
Proof.
  induction pes as [|[k v] pes IH]; intros Habs; [done|]. simpl.
  destruct (Habs k v) as (x & Hx & Hm); [left|].
  assert (update_key acc (k, v) = acc) as ->.
  { unfold update_key. simpl. rewrite Hx, Hm. by apply dict_set_same. }
  apply IH. intros k' v' Hin. apply Habs. by right.
Qed.

Lemma merge_value_self v : well_formed v = true → merge_value v v = v.
Proof.
  induction v as [|k|o xs _|o es IH] using value_nested_ind; try done.
  intros [Hnd Hwf]%well_formed_dict. rewrite merge_value_dict. f_equal.
  apply foldl_update_key_absorbed. intros k v Hin. exists v.
  split; [by apply dict_get_NoDup|].
  rewrite Forall_forall in IH. apply (IH (k, v)); [done|]. by eapply Hwf.
Qed.

Lemma merge_value_idempotent pv bv :
  well_formed pv = true →
  merge_value (merge_value bv pv) pv = merge_value bv pv.
Proof.
  revert bv.
  induction pv as [|k|o xs _|op pes IH] using value_nested_ind; intros bv Hwf;
    try done.
  destruct bv as [| | |ob bes].
  1-3: by (change (merge_value (VDict op pes) (VDict op pes) = VDict op pes);
           apply merge_value_self).
  rewrite !merge_value_dict. f_equal.
  pose proof Hwf as [Hnd Hwfs]%well_formed_dict.
  apply foldl_update_key_absorbed. intros k v Hin.
  rewrite (foldl_update_key_patched _ _ k v) by done.
  eexists. split; [done|]. rewrite Forall_forall in IH.
  destruct (dict_get k bes) as [b|].
  - apply (IH (k, v)); [done|]. by eapply Hwfs.
  - apply merge_value_self. by eapply Hwfs.
Qed.

(** C8 -- [update_dictionary base patch] leaves every key of [base] that is
    not a key of [patch] bound to its value; a key of [patch] is bound to the
    recursive merge when both values are mappings and to the value of [patch]
    otherwise (also when the key is new); merging the same patch again changes
    nothing. *)
Theorem update_dictionary_spec (base patch : mapping) :
  well_formed (dict_value patch) = true →
  (∀ k, k ∉ dict_keys (items patch) →
     dict_get k (items (update_dictionary base patch)) = dict_get k (items base)) ∧
  (∀ k pv, dict_get k (items patch) = Some pv →
     dict_get k (items (update_dictionary base patch)) =
       Some (match dict_get k (items base), pv with
             | Some (VDict ob bes), VDict op pes =>
                 dict_value (update_dictionary (Mapping ob bes) (Mapping op pes))
             | _, _ => pv
             end)) ∧
  update_dictionary (update_dictionary base patch) patch =
    update_dictionary base patch.
Proof.
  intros Hwf. pose proof Hwf as [Hnd Hwfs]%well_formed_dict.
  split; [|split].
  - intros k Hk. by apply foldl_update_key_other.
  - intros k pv Hpv%dict_get_Some_elem. simpl.
    rewrite (foldl_update_key_patched _ _ k pv) by done. f_equal.
    destruct (dict_get k (items base)) as [b|]; [|by destruct pv].
    destruct pv as [| | |op pes]; [by destruct b..|].
    destruct b as [| | |ob bes]; try done. apply merge_value_dict.
  - pose proof (merge_value_idempotent (dict_value patch) (dict_value base) Hwf)
      as Hid.
    rewrite !update_dictionary_value in Hid. unfold dict_value in Hid.
    destruct (update_dictionary (update_dictionary base patch) patch),
      (update_dictionary base patch). simpl in Hid. by injection Hid as -> ->.
Qed.

(** *** The scenario table as a dictionary *)

Lemma planning_year_scenario_definitions_dict_columns tbl y :
  NoDup (columns tbl) →
  planning_year_scenario_definitions_dict tbl y =
    imap (pivot_column (filter (λ r, year r = y) (rows tbl))) (categories tbl).
Proof.
  unfold columns. intros [_ Hnd]%NoDup_cons.
  unfold planning_year_scenario_definitions_dict.
  rewrite (foldl_dict_set_new snd
             (λ jc, column_dict (filter (λ r, year r = y) (rows tbl))
                      (λ r, cell_at r jc.1))).
  - rewrite fmap_imap. unfold dict_pop. simpl.
    rewrite filter_cons_False by (intros Hne; by apply Hne).
    apply NoDup_cons in Hnd as [Hyear _].
    assert (∀ (f : nat → string → string * list (key * option key)) l,
              (∀ j c, (f j c).1 = c) → "year" ∉ l →
              filter (λ kv, kv.1 ≠ "year") (imap f l) = imap f l) as Hfilter.
    { intros f l. revert f. induction l as [|c l IH]; intros f Hf Hl; [done|].
      rewrite imap_cons. apply not_elem_of_cons in Hl as [Hc Hl].
      rewrite filter_cons_True by (rewrite Hf; done).
      f_equal. apply IH; [intros; apply Hf | done]. }
    by rewrite Hfilter.
  - simpl. rewrite fmap_imap.
    replace (imap (λ n, snd ∘ (λ category : string, (n, category))) (categories tbl))
      with (categories tbl); [done|].
    clear. generalize (categories tbl). intros l.
    rewrite <- (list_fmap_id l) at 1. rewrite <- imap_const.
    by apply imap_ext.
Qed.

Lemma column_dict_one_row of_year cell c r :
  filter (λ r, case_id r = c) of_year = [r] →
  dict_get c (column_dict of_year cell) = Some (cell r).
Proof.
  intros Hone. unfold column_dict. rewrite dict_get_foldl_dict_set.
  by rewrite Hone.
Qed.

Lemma filter_case_of_year tbl y c :
  filter (λ r, case_id r = c) (filter (λ r, year r = y) (rows tbl)) =
    filter (λ r, case_id r = c ∧ year r = y) (rows tbl).
Proof. by rewrite list_filter_filter. Qed.

(** *** Values found inside the settings *)

Lemma well_formed_elements o xs x :
  well_formed (VList o xs) = true → x ∈ xs → well_formed x = true.
Proof.
  simpl. rewrite forallb_forall. intros Hall Hin. apply Hall.
  by apply list_elem_of_In.
Qed.

Lemma well_formed_chars s x : x ∈ chars s → well_formed x = true.
Proof. unfold chars. by intros (c & -> & _)%list_elem_of_fmap. Qed.

Lemma list_index_elem xs z x : list_index xs z = Ok x → x ∈ xs.
Proof.
  unfold list_index. repeat case_bool_decide; try done.
  - destruct (xs !! Z.to_nat z) eqn:Hx; [|done]. intros [= <-].
    by eapply list_elem_of_lookup_2.
  - destruct (xs !! Z.to_nat (Z.of_nat (length xs) + z)) eqn:Hx; [|done].
    intros [= <-]. by eapply list_elem_of_lookup_2.
Qed.

Lemma subscript_well_formed v k x :
  well_formed v = true → subscript v k = Ok x → well_formed x = true.
Proof.
  destruct v as [|k0|o xs|o es].
  - done.
  - destruct k0 as [| |s]; [done..|]. destruct k as [[|z|]|]; [done| |done|done].
    intros _ Hx%list_index_elem. by eapply well_formed_chars.
  - destruct k as [[|z|]|]; [done| |done|done].
    intros Hwf Hx%list_index_elem. by eapply well_formed_elements.
  - intros [_ Hwf]%well_formed_dict. destruct k as [k|]; [|done].
    intros Hx%getitem_Ok%dict_get_Some_elem. by eapply Hwf.
Qed.

Lemma setting_well_formed settings name x :
  well_formed (dict_value settings) = true →
  setting settings name = Ok x → well_formed x = true.
Proof.
  intros [_ Hwf]%well_formed_dict Hx%getitem_Ok%dict_get_Some_elem.
  by eapply Hwf.
Qed.

Lemma as_mapping_Ok v m : as_mapping v = Ok m ↔ v = dict_value m.
Proof.
  destruct m as [o es]. destruct v; simpl; split; try done.
  - by intros [= -> ->].
  - by intros [= -> ->].
Qed.

Lemma find_patch_well_formed pysm category case_value patch :
  well_formed pysm = true →
  find_patch pysm category case_value = Ok patch →
  well_formed (dict_value patch) = true.
Proof.
  intros Hwf H. unfold find_patch in H. inv_ok H.
  apply as_mapping_Ok in H as ->.
  eapply subscript_well_formed; [|done]. by eapply subscript_well_formed.
Qed.

Lemma nested_dicts_dict n v :
  nested_dicts (S n) v = true ↔
  ∃ o es, v = VDict o es ∧ ∀ k x, (k, x) ∈ es → nested_dicts n x = true.
Proof.
  destruct v as [| | |o es]; simpl.
  1-3: split; [done | by intros (? & ? & ? & _)].
  rewrite forallb_forall. split.
  - intros Hall. exists o, es. split; [done|]. intros k x Hin.
    apply (Hall (k, x)). by apply list_elem_of_In.
  - intros (o' & es' & [= <- <-] & Hall) [k x] Hin. apply (Hall k x).
    by apply list_elem_of_In.
Qed.

(** Among categories, variants and patches a lookup finds a patch or raises
    [KeyError]. *)
Lemma find_patch_typed pysm category case_value :
  nested_dicts 3 pysm = true →
  (∃ patch, find_patch pysm category case_value = Ok patch) ∨
  find_patch pysm category case_value = Err KeyError.
Proof.
  intros (o & es & -> & Hes)%nested_dicts_dict. unfold find_patch. simpl.
  destruct (dict_get (KStr category) es) as [bv|] eqn:Hbv; [|by right].
  apply dict_get_Some_elem, Hes in Hbv as (o' & vs & -> & Hvs)%nested_dicts_dict.
  simpl. destruct case_value as [k|]; [|by right]. simpl.
  destruct (dict_get k vs) as [p|] eqn:Hp; [|by right].
  apply dict_get_Some_elem, Hvs in Hp as (o'' & ps & -> & _)%nested_dicts_dict.
  left. by eexists.
Qed.

(** *** One category *)

Lemma apply_category_find_patch pysm c ms s category cvd :
  apply_category pysm c (ms, s) (category, cvd) =
    catch_KeyError
      (case_value ← getitem (dict_get c cvd);
       new_parameter ← find_patch pysm category case_value;
       modified_settings ← check_keys (dict_keys (items new_parameter)) ms;
       Ok (modified_settings, update_dictionary s new_parameter))
      (ms, s).
Proof.
  unfold apply_category, find_patch. f_equal.
  destruct (getitem (dict_get c cvd)) as [cv|e]; [|done]. simpl.
  destruct (subscript pysm (Some (KStr category))) as [bv|e]; [|done]. simpl.
  by destruct (subscript bv cv) as [p|e].
Qed.

Lemma check_keys_Ok settings_keys ms :
  NoDup settings_keys → (∀ k, k ∈ settings_keys → k ∉ ms) →
  check_keys settings_keys ms = Ok (ms ++ settings_keys).
Proof.
  unfold check_keys. revert ms.
  induction settings_keys as [|k ks IH]; intros ms Hnd Hnew; simpl.
  - by rewrite app_nil_r.
  - apply NoDup_cons in Hnd as [Hk Hnd].
    rewrite bool_decide_eq_false_2 by (apply Hnew; left). simpl.
    rewrite IH; [by rewrite <- app_assoc | done |].
    intros k' Hk' [Hin| ->%list_elem_of_singleton]%elem_of_app; [|done].
    by apply (Hnew k'); [right|].
Qed.

Lemma check_keys_Ok_inv settings_keys ms ms' :
  check_keys settings_keys ms = Ok ms' →
  ms' = ms ++ settings_keys ∧ ∀ k, k ∈ settings_keys → k ∉ ms.
Proof.
  unfold check_keys. revert ms.
  induction settings_keys as [|k ks IH]; intros ms; simpl.
  - intros [= <-]. split; [by rewrite app_nil_r | by intros k ?%elem_of_nil].
  - case_bool_decide as Hk; [done|]. simpl. intros [-> Hks]%IH.
    split; [by rewrite <- app_assoc|].
    intros k' [->|Hk']%elem_of_cons; [done|].
    intros Hin. apply (Hks k' Hk'). apply elem_of_app. by left.
Qed.

Lemma check_keys_Err settings_keys ms e :
  check_keys settings_keys ms = Err e → e = AssertionError.
Proof.
  unfold check_keys. revert ms.
  induction settings_keys as [|k ks IH]; intros ms; simpl; [done|].
  case_bool_decide; simpl; [by intros [= <-] | apply IH].
Qed.

(** *** The loop over the categories *)

Section Build.

Variables (settings : mapping) (scenario_definitions : Table)
  (case_id_name_map : list (key * string)).

Lemma selected_patch_find_patch sm pysm r j category :
  setting settings "settings_management" = Ok sm →
  subscript sm (Some (year r)) = Ok pysm →
  categories scenario_definitions !! j = Some category →
  selected_patch settings scenario_definitions r j =
    match find_patch pysm category (cell_at r j) with
    | Ok patch => Some patch
    | Err _ => None
    end.
Proof.
  intros Hsm Hpysm Hcat. unfold selected_patch. rewrite Hcat, Hsm. simpl.
  by rewrite Hpysm.
Qed.

Lemma category_loop_Ok sm pysm r of_year :
  setting settings "settings_management" = Ok sm →
  subscript sm (Some (year r)) = Ok pysm →
  nested_dicts 3 pysm = true →
  well_formed pysm = true →
  r ∈ rows scenario_definitions →
  no_double_patch settings scenario_definitions →
  filter (λ r', case_id r' = case_id r) of_year = [r] →
  ∀ cats n ms s,
    cats = drop n (categories scenario_definitions) →
    (∀ k, k ∈ ms →
       ∃ i patch, (i < n)%nat ∧
         selected_patch settings scenario_definitions r i = Some patch ∧
         k ∈ dict_keys (items patch)) →
    ∃ state,
      for_each (imap (λ j, pivot_column of_year (n + j)) cats)
        (apply_category pysm (case_id r)) (ms, s) = Ok state.
Proof.
  intros Hsm Hpysm Htyped Hwf Hr Hno Hone.
  induction cats as [|category cats IH]; intros n ms s Hdrop Hms.
  - simpl. by eauto.
  - assert (categories scenario_definitions !! n = Some category) as Hcat.
    { rewrite <- (Nat.add_0_r n), <- lookup_drop, <- Hdrop. done. }
    assert (cats = drop (S n) (categories scenario_definitions)) as Hdrop'.
    { rewrite (drop_S _ _ _ Hcat) in Hdrop. by injection Hdrop. }
    rewrite imap_cons. cbn [for_each]. rewrite Nat.add_0_r.
    change (pivot_column of_year n category)
      with (category, column_dict of_year (λ r0, cell_at r0 n)).
    rewrite apply_category_find_patch.
    rewrite (column_dict_one_row _ _ _ r) by done. simpl.
    pose proof (selected_patch_find_patch _ _ r n category Hsm Hpysm Hcat) as Hsel.
    assert (∀ ms' s',
              (∀ k, k ∈ ms' →
                 ∃ i patch, (i < S n)%nat ∧
                   selected_patch settings scenario_definitions r i = Some patch ∧
                   k ∈ dict_keys (items patch)) →
              ∃ state,
                for_each (imap ((λ j, pivot_column of_year (n + j)) ∘ S) cats)
                  (apply_category pysm (case_id r)) (ms', s') = Ok state) as Hnext.
    { intros ms' s' Hms'.
      rewrite (imap_ext _ (λ j, pivot_column of_year (S n + j))).
      - by apply IH.
      - intros j x _. simpl. f_equal. lia. }
    destruct (find_patch_typed pysm category (cell_at r n) Htyped)
      as [[patch Hpatch]|Hmiss].
    + rewrite Hpatch in Hsel |- *. simpl.
      pose proof (find_patch_well_formed _ _ _ _ Hwf Hpatch)
        as [Hnd _]%well_formed_dict.
      rewrite check_keys_Ok; [simpl| done |].
      * apply Hnext. intros k [Hk|Hk]%elem_of_app.
        -- destruct (Hms k Hk) as (i & p & Hi & Hp & Hkp).
           exists i, p. split; [lia | done].
        -- exists n, patch. split; [lia | done].
      * intros k Hk Hin. destruct (Hms k Hin) as (i & p & Hi & Hp & Hkp).
        apply (Hno r i n p patch k); [done | lia | done..].
    + rewrite Hmiss. simpl. apply Hnext. intros k Hk.
      destruct (Hms k Hk) as (i & p & Hi & Hp & Hkp).
      exists i, p. split; [lia | done].
Qed.

(** *** One case *)

Lemma case_settings_case_name periods pysm pivot y c s :
  case_settings settings scenario_definitions periods case_id_name_map pysm
    pivot y c = Ok s →
  ∃ name, dict_get c case_id_name_map = Some name ∧
          dict_get (KStr "case_name") (items s) = Some (VStr name).
Proof.
  unfold case_settings. intros H.
  apply bind_Ok in H as (r & _ & H).
  apply bind_Ok in H as ([ms s'] & _ & H).
  apply bind_Ok in H as (planning & _ & H).
  apply bind_Ok in H as (name & Hname%getitem_Ok & [= <-]).
  exists name. split; [done|]. simpl. apply dict_get_set_eq.
Qed.

Lemma case_settings_Ok periods sm pysm y c :
  NoDup (columns scenario_definitions) →
  one_row_per_case scenario_definitions →
  well_formed (dict_value settings) = true →
  no_double_patch settings scenario_definitions →
  setting settings "settings_management" = Ok sm →
  subscript sm (Some y) = Ok pysm →
  nested_dicts 3 pysm = true →
  is_Some (dict_get y periods) →
  is_Some (dict_get c case_id_name_map) →
  y ∈ year <$> rows scenario_definitions →
  c ∈ case_id <$> rows scenario_definitions →
  ∃ s,
    case_settings settings scenario_definitions periods case_id_name_map pysm
      (planning_year_scenario_definitions_dict scenario_definitions y) y c = Ok s.
Proof.
  intros Hcols Hrows Hwf Hno Hsm Hpysm Htyped [planning Hplanning]
    [name Hname] Hy Hc.
  destruct (Hrows y c Hy Hc) as (r & Hone).
  assert (r ∈ rows scenario_definitions ∧ case_id r = c ∧ year r = y)
    as (Hr & <- & <-).
  { assert (r ∈ filter (λ r, case_id r = c ∧ year r = y)
                  (rows scenario_definitions)) as Hin by (rewrite Hone; left).
    apply list_elem_of_filter in Hin. tauto. }
  unfold case_settings. rewrite Hone. simpl.
  rewrite planning_year_scenario_definitions_dict_columns by done.
  destruct (category_loop_Ok sm pysm r
              (filter (λ r', year r' = year r) (rows scenario_definitions))
              Hsm Hpysm Htyped) with
    (cats := categories scenario_definitions) (n := 0%nat)
    (ms := @nil key)
    (s := overlay_columns scenario_definitions r
            (deepcopy_mapping (year r) (case_id r) settings))
    as ([ms s'] & Hloop); try done.
  - eapply subscript_well_formed; [|done]. by eapply setting_well_formed.
  - by rewrite filter_case_of_year.
  - by intros k ?%elem_of_nil.
  - rewrite (imap_ext _ (λ j, pivot_column
               (filter (λ r', year r' = year r) (rows scenario_definitions))
               (0 + j))) by done.
    rewrite Hloop. simpl. rewrite Hplanning, Hname. simpl. by eauto.
Qed.

(** *** The two loops *)

Lemma elem_of_years y :
  y ∈ drop_duplicates (year <$> rows scenario_definitions) ↔
  y ∈ year <$> rows scenario_definitions.
Proof. apply elem_of_drop_duplicates. Qed.

Lemma in_table_iff y c :
  one_row_per_case scenario_definitions →
  in_table scenario_definitions y c ↔
  y ∈ year <$> rows scenario_definitions ∧
  c ∈ case_id <$> rows scenario_definitions.
Proof.
  intros Hrows. split.
  - intros (r & Hr & <- & <-). split; apply list_elem_of_fmap; by exists r.
  - intros [Hy Hc]. destruct (Hrows y c Hy Hc) as (r & Hone). exists r.
    assert (r ∈ filter (λ r, case_id r = c ∧ year r = y)
                  (rows scenario_definitions)) as Hin by (rewrite Hone; left).
    apply list_elem_of_filter in Hin. tauto.
Qed.

(** C1, as it holds of the code -- when the table has exactly one row for every pair of one
    of its years and one of its cases, its column names are distinct, the
    settings hold a planning period and a [settings_management] entry (of
    categories, variants and patches) for every year of the table, every case
    has a name, and no case and year has two categories that patch the same
    settings key, [build_scenario_settings] returns a mapping by year and
    case id with exactly one [Settings] for each pair of the table, whose
    [case_name] is the name of the case; absent categories and variants are
    skipped. *)
Theorem build_scenario_settings_total :
  NoDup (columns scenario_definitions) →
  one_row_per_case scenario_definitions →
  well_formed (dict_value settings) = true →
  planning_of_years settings scenario_definitions →
  management_of_years settings scenario_definitions →
  names_of_cases scenario_definitions case_id_name_map →
  no_double_patch settings scenario_definitions →
  ∃ scenario_settings,
    build_scenario_settings settings scenario_definitions case_id_name_map
      = Ok scenario_settings ∧
    one_settings_per_case scenario_definitions case_id_name_map scenario_settings.
Proof.
  intros Hcols Hrows Hwf (periods & Hperiods & Hyears) (sm & Hsm & Hmgmt)
    Hnames Hno.
  unfold build_scenario_settings. rewrite Hperiods. simpl.
  assert (∀ y, y ∈ drop_duplicates (year <$> rows scenario_definitions) →
            ∃ of_year,
              planning_year_settings settings scenario_definitions periods
                case_id_name_map y = Ok of_year) as Hyear_ok.
  { intros y Hy%elem_of_years. unfold planning_year_settings.
    destruct (Hmgmt y Hy) as (pysm & Hpysm & Htyped).
    rewrite Hsm. simpl. rewrite Hpysm. simpl.
    apply for_each_dict_set_Ok. intros c Hc.
    apply (proj1 (elem_of_drop_duplicates _ _)) in Hc.
    apply (case_settings_Ok periods sm pysm y c);
      [done.. | by apply Hyears | exact (Hnames c Hc) | done | done]. }
  destruct (for_each_dict_set_Ok _ _ [] Hyear_ok) as (result & Hresult).
  exists result. split; [exact Hresult|].
  destruct (for_each_dict_set _ _ _ _ Hresult) as (Hnd & Hkeys & Hget).
  assert (∀ y of_year, dict_get y result = Some of_year →
            y ∈ year <$> rows scenario_definitions ∧
            NoDup (dict_keys of_year) ∧
            (∀ c, c ∈ dict_keys of_year ↔
                  c ∈ case_id <$> rows scenario_definitions) ∧
            (∀ c s, dict_get c of_year = Some s →
               ∃ name, dict_get c case_id_name_map = Some name ∧
                 dict_get (KStr "case_name") (items s) = Some (VStr name)))
    as Hof_year.
  { intros y of_year Hy. destruct (Hget y of_year Hy) as [[Hin Hrun]|[_ [=]]].
    apply elem_of_years in Hin. split; [done|].
    unfold planning_year_settings in Hrun.
    apply bind_Ok in Hrun as (sm' & _ & Hrun).
    apply bind_Ok in Hrun as (pysm & _ & Hrun).
    destruct (for_each_dict_set _ _ _ _ Hrun) as (Hnd' & Hkeys' & Hget').
    split; [apply Hnd'; constructor|]. split.
    - intros c. rewrite Hkeys', elem_of_drop_duplicates.
      unfold dict_keys. simpl. rewrite elem_of_nil. tauto.
    - intros c s Hs. destruct (Hget' c s Hs) as [[_ Hcase]|[_ [=]]].
      by eapply case_settings_case_name. }
  split; [apply Hnd; constructor|]. split; [|split].
  - intros y of_year Hin. apply Hof_year with y.
    apply dict_get_NoDup; [apply Hnd; constructor | done].
  - intros y c. rewrite in_table_iff by done. unfold resolved. split.
    + intros [s Hs]. destruct (dict_get y result) as [of_year|] eqn:Hy; [|done].
      simpl in Hs. destruct (Hof_year y of_year Hy) as (Hyin & _ & Hcs & _).
      split; [done|]. apply Hcs. apply dict_get_is_Some. by eauto.
    + intros [Hy Hc].
      assert (is_Some (dict_get y result)) as [of_year Hof].
      { apply dict_get_is_Some, Hkeys. right. by apply elem_of_years. }
      rewrite Hof. simpl. destruct (Hof_year y of_year Hof) as (_ & _ & Hcs & _).
      apply dict_get_is_Some. by apply Hcs.
  - intros y c s. unfold resolved.
    destruct (dict_get y result) as [of_year|] eqn:Hy; [|done]. simpl.
    destruct (Hof_year y of_year Hy) as (_ & _ & _ & Hname). apply Hname.
Qed.

(** *** Two patches for one key *)

Lemma check_keys_clash settings_keys ms k :
  k ∈ settings_keys → k ∈ ms →
  check_keys settings_keys ms = Err AssertionError.
Proof.
  unfold check_keys. revert ms.
  induction settings_keys as [|k0 ks IH]; intros ms Hk Hms; simpl.
  - by apply elem_of_nil in Hk.
  - case_bool_decide as Hk0; [done|]. simpl.
    apply elem_of_cons in Hk as [->|Hk]; [done|].
    apply IH; [done|]. apply elem_of_app. by left.
Qed.

Lemma apply_category_clash pysm c ms s category cvd case_value patch k :
  dict_get c cvd = Some case_value →
  find_patch pysm category case_value = Ok patch →
  k ∈ dict_keys (items patch) → k ∈ ms →
  apply_category pysm c (ms, s) (category, cvd) = Err AssertionError.
Proof.
  intros Hcv Hpatch Hk Hms. rewrite apply_category_find_patch, Hcv. simpl.
  rewrite Hpatch. simpl. by rewrite (check_keys_clash _ _ k).
Qed.

(** What one turn of the loop over the categories does when it returns. *)
Lemma apply_category_Ok pysm c ms s category cvd case_value ms' s' :
  dict_get c cvd = Some case_value →
  apply_category pysm c (ms, s) (category, cvd) = Ok (ms', s') →
  (∃ patch,
     find_patch pysm category case_value = Ok patch ∧
     ms' = ms ++ dict_keys (items patch) ∧
     (∀ k, k ∈ dict_keys (items patch) → k ∉ ms) ∧
     s' = update_dictionary s patch) ∨
  (find_patch pysm category case_value = Err KeyError ∧ ms' = ms ∧ s' = s).
Proof.
  intros Hcv. rewrite apply_category_find_patch, Hcv. simpl.
  intros [Hbody|[Hbody [= -> ->]]]%catch_KeyError_Ok.
  - left. apply bind_Ok in Hbody as (patch & Hpatch & Hbody).
    apply bind_Ok in Hbody as (ms1 & [-> Hnew]%check_keys_Ok_inv & [= <- <-]).
    by exists patch.
  - right. apply bind_Err in Hbody as [Hbody|(patch & Hpatch & Hbody)]; [done|].
    apply bind_Err in Hbody as [Hbody%check_keys_Err|(? & _ & [=])]. done.
Qed.

Lemma apply_category_grows pysm c ms s item ms' s' k :
  apply_category pysm c (ms, s) item = Ok (ms', s') → k ∈ ms → k ∈ ms'.
Proof.
  destruct item as [category cvd]. rewrite apply_category_find_patch.
  intros [Hbody|[_ [= -> _]]]%catch_KeyError_Ok Hk; [|done].
  apply bind_Ok in Hbody as (cv & _ & Hbody).
  apply bind_Ok in Hbody as (patch & _ & Hbody).
  apply bind_Ok in Hbody as (ms1 & [-> _]%check_keys_Ok_inv & [= <- _]).
  apply elem_of_app. by left.
Qed.

Lemma category_loop_grows pysm c l ms s ms' s' k :
  for_each l (apply_category pysm c) (ms, s) = Ok (ms', s') → k ∈ ms → k ∈ ms'.
Proof.
  revert ms s. induction l as [|item l IH]; intros ms s; simpl.
  - by intros [= <- _].
  - intros ([ms1 s1] & Hstep & Hl)%bind_Ok Hk. eapply IH; [exact Hl|].
    by eapply apply_category_grows.
Qed.

Lemma selected_patch_lt r j patch :
  selected_patch settings scenario_definitions r j = Some patch →
  (j < length (categories scenario_definitions))%nat.
Proof.
  unfold selected_patch.
  destruct (categories scenario_definitions !! j) eqn:Hj; [|done].
  intros _. by eapply lookup_lt_Some.
Qed.

(** When the loop over the categories returns, the patches it found have set
    keys that were not set before, each key once. *)
Lemma category_loop_Ok_inv sm pysm r of_year :
  setting settings "settings_management" = Ok sm →
  subscript sm (Some (year r)) = Ok pysm →
  filter (λ r', case_id r' = case_id r) of_year = [r] →
  ∀ cats n ms s ms' s',
    cats = drop n (categories scenario_definitions) →
    for_each (imap (λ j, pivot_column of_year (n + j)) cats)
      (apply_category pysm (case_id r)) (ms, s) = Ok (ms', s') →
    ∀ a patch k,
      (n ≤ a)%nat →
      selected_patch settings scenario_definitions r a = Some patch →
      k ∈ dict_keys (items patch) →
      k ∈ ms' ∧ (k ∉ ms) ∧
      ∀ b other, (n ≤ b)%nat → b ≠ a →
        selected_patch settings scenario_definitions r b = Some other →
        k ∉ dict_keys (items other).
Proof.
  intros Hsm Hpysm Hone.
  induction cats as [|category cats IH];
    intros n ms s ms' s' Hdrop Hloop a patch k Ha Hpatch Hk.
  - apply selected_patch_lt in Hpatch.
    assert (length (drop n (categories scenario_definitions)) = 0%nat) as Hlen
      by by rewrite <- Hdrop.
    rewrite length_drop in Hlen. lia.
  - assert (categories scenario_definitions !! n = Some category) as Hcat.
    { rewrite <- (Nat.add_0_r n), <- lookup_drop, <- Hdrop. done. }
    assert (cats = drop (S n) (categories scenario_definitions)) as Hdrop'.
    { rewrite (drop_S _ _ _ Hcat) in Hdrop. by injection Hdrop. }
    rewrite imap_cons in Hloop. cbn [for_each] in Hloop.
    rewrite Nat.add_0_r in Hloop.
    apply bind_Ok in Hloop as ([ms1 s1] & Hstep & Hloop).
    rewrite (imap_ext _ (λ j, pivot_column of_year (S n + j))) in Hloop
      by (intros j x _; simpl; f_equal; lia).
    pose proof (IH (S n) ms1 s1 ms' s' Hdrop' Hloop) as Hrest.
    pose proof (selected_patch_find_patch _ _ r n category Hsm Hpysm Hcat) as Hsel.
    change (pivot_column of_year n category)
      with (category, column_dict of_year (λ r0, cell_at r0 n)) in Hstep.
    apply (apply_category_Ok _ _ _ _ _ _ (cell_at r n)) in Hstep;
      [|by apply (column_dict_one_row _ (λ r0, cell_at r0 n))].
    destruct Hstep as [(p & Hp & -> & Hnew & ->)|(Hmiss & -> & ->)].
    + rewrite Hp in Hsel.
      assert (∀ k', k' ∈ dict_keys (items p) → k' ∈ ms') as Hp_in.
      { intros k' Hk'. eapply category_loop_grows; [exact Hloop|].
        apply elem_of_app. by right. }
      destruct (decide (a = n)) as [->|Hne].
      * rewrite Hsel in Hpatch. injection Hpatch as <-.
        split; [by apply Hp_in|]. split; [by apply Hnew|].
        intros b other Hb Hba Hother Hkb.
        destruct (Hrest b other k) as (_ & Hnot & _); [lia | done..|].
        apply Hnot. apply elem_of_app. by right.
      * destruct (Hrest a patch k) as (Hin & Hnot & Hdisj); [lia | done..|].
        split; [done|]. split.
        { intros Hms. apply Hnot. apply elem_of_app. by left. }
        intros b other Hb Hba Hother Hkb.
        destruct (decide (b = n)) as [->|Hbn].
        -- rewrite Hsel in Hother. injection Hother as <-.
           apply Hnot. apply elem_of_app. by right.
        -- apply (Hdisj b other); [lia | done..].
    + rewrite Hmiss in Hsel.
      destruct (decide (a = n)) as [->|Hne]; [congruence|].
      destruct (Hrest a patch k) as (Hin & Hnot & Hdisj); [lia | done..|].
      split; [done|]. split; [done|].
      intros b other Hb Hba Hother.
      destruct (decide (b = n)) as [->|Hbn]; [congruence|].
      apply (Hdisj b other); [lia | done..].
Qed.

(** C2 -- when, for the case and year of a row, the patches selected by two
    different categories both hold a settings key, [build_scenario_settings]
    raises and returns no settings: the second patch fails the assertion, which
    the [except KeyError] does not catch. *)
Theorem double_patch_fatal r i j patch_i patch_j k :
  NoDup (columns scenario_definitions) →
  r ∈ rows scenario_definitions →
  i ≠ j →
  selected_patch settings scenario_definitions r i = Some patch_i →
  selected_patch settings scenario_definitions r j = Some patch_j →
  k ∈ dict_keys (items patch_i) →
  k ∈ dict_keys (items patch_j) →
  (∃ e, build_scenario_settings settings scenario_definitions case_id_name_map
          = Err e) ∧
  (∀ pysm c ms s category cvd case_value,
     dict_get c cvd = Some case_value →
     find_patch pysm category case_value = Ok patch_j →
     k ∈ ms →
     apply_category pysm c (ms, s) (category, cvd) = Err AssertionError).
Proof.
  intros Hcols Hr Hij Hi Hj Hki Hkj. split.
  2: { intros pysm c ms s category cvd cv Hcv Hp Hms.
       by eapply apply_category_clash. }
  destruct (build_scenario_settings settings scenario_definitions
              case_id_name_map) as [result|e] eqn:Hbuild; [exfalso | by eauto].
  unfold build_scenario_settings in Hbuild.
  apply bind_Ok in Hbuild as (periods & _ & Hbuild).
  destruct (for_each_Ok_inv _ _ _ _ Hbuild (year r)) as (? & ? & Hyear).
  { apply elem_of_years, list_elem_of_fmap. by exists r. }
  apply bind_Ok in Hyear as (of_year & Hyear & _).
  unfold planning_year_settings in Hyear.
  apply bind_Ok in Hyear as (sm & Hsm & Hyear).
  apply bind_Ok in Hyear as (pysm & Hpysm & Hyear).
  destruct (for_each_Ok_inv _ _ _ _ Hyear (case_id r)) as (? & ? & Hcase).
  { apply elem_of_drop_duplicates, list_elem_of_fmap. by exists r. }
  apply bind_Ok in Hcase as (s & Hcase & _).
  unfold case_settings in Hcase.
  apply bind_Ok in Hcase as (r' & Hsq & Hcase).
  apply bind_Ok in Hcase as ([ms s'] & Hloop & _).
  assert (filter (λ r0, case_id r0 = case_id r ∧ year r0 = year r)
            (rows scenario_definitions) = [r]) as Hone.
  { unfold squeeze in Hsq.
    destruct (filter _ (rows scenario_definitions)) as [|r1 [|r2 l]] eqn:Hf;
      try done.
    assert (r ∈ [r1]) as ->%list_elem_of_singleton; [|done].
    rewrite <- Hf. by apply list_elem_of_filter. }
  rewrite planning_year_scenario_definitions_dict_columns in Hloop by done.
  rewrite (imap_ext _ (λ j', pivot_column
             (filter (λ r', year r' = year r) (rows scenario_definitions))
             (0 + j'))) in Hloop by done.
  eapply (category_loop_Ok_inv sm pysm r _ Hsm Hpysm) in Hloop; [| |done|..].
  - destruct Hloop as (_ & _ & Hdisj). eapply (Hdisj j patch_j); [lia|..]; done.
  - by rewrite filter_case_of_year.
  - lia.
  - exact Hi.
  - exact Hki.
Qed.

End Build.

(** *** Objects *)

Lemma elem_of_objects_dict o es t :
  t ∈ objects (VDict o es) ↔
  t = VDict o es ∨ ∃ k x, (k, x) ∈ es ∧ t ∈ objects x.
Proof.
  simpl. rewrite elem_of_cons, list_elem_of_In, in_flat_map. split.
  - intros [->|([k x] & Hin & Ht)]; [by left|]. right. exists k, x.
    by rewrite !list_elem_of_In.
  - intros [->|(k & x & Hin & Ht)]; [by left|]. right. exists (k, x).
    by rewrite <- !list_elem_of_In.
Qed.

Lemma elem_of_objects_list o xs t :
  t ∈ objects (VList o xs) ↔ t = VList o xs ∨ ∃ x, x ∈ xs ∧ t ∈ objects x.
Proof.
  simpl. rewrite elem_of_cons, list_elem_of_In, in_flat_map. split.
  - intros [->|(x & Hin & Ht)]; [by left|]. right. exists x.
    by rewrite !list_elem_of_In.
  - intros [->|(x & Hin & Ht)]; [by left|]. right. exists x.
    by rewrite <- !list_elem_of_In.
Qed.

Lemma elem_of_oids v o :
  o ∈ oids v ↔ ∃ t, t ∈ objects v ∧ root_oid t = Some o.
Proof. unfold oids. by rewrite list_elem_of_omap. Qed.

Lemma objects_trans v t u : t ∈ objects v → u ∈ objects t → u ∈ objects v.
Proof.
  revert t u.
  induction v as [|k|o xs IH|o es IH] using value_nested_ind; intros t u.
  - by intros ?%elem_of_nil.
  - by intros ?%elem_of_nil.
  - rewrite Forall_forall in IH.
    intros [->|(x & Hx & Ht)]%elem_of_objects_list Hu; [done|].
    apply elem_of_objects_list. right. exists x. split; [done|]. by eapply IH.
  - rewrite Forall_forall in IH.
    intros [->|(k & x & Hx & Ht)]%elem_of_objects_dict Hu; [done|].
    apply elem_of_objects_dict. right. exists k, x. split; [done|].
    by eapply (IH (k, x)).
Qed.

Lemma within_element base o es k x :
  within base (VDict o es) → (k, x) ∈ es → within base x.
Proof.
  intros Hw Hin t Ht. apply Hw, elem_of_objects_dict. right. by exists k, x.
Qed.

Lemma within_objects base x t : within base x → t ∈ objects x → within base t.
Proof. intros Hw Ht u Hu. apply Hw. by eapply objects_trans. Qed.

Lemma fresh_element y c o es k x :
  fresh y c (VDict o es) → (k, x) ∈ es → fresh y c x.
Proof.
  intros Hf Hin t Ht. apply Hf, elem_of_objects_dict. right. by exists k, x.
Qed.

Lemma fresh_sound base y c x : fresh y c x → sound base y c x.
Proof. intros Hf t Ht. left. by apply Hf. Qed.

Lemma within_sound base y c x : within base x → sound base y c x.
Proof. intros Hw t Ht. right. by apply Hw. Qed.

Lemma sound_dict base y c o es :
  copied y c o → (∀ k x, (k, x) ∈ es → sound base y c x) →
  sound base y c (VDict o es).
Proof.
  intros Ho Hes t [->|(k & x & Hin & Ht)]%elem_of_objects_dict.
  - left. by exists o.
  - by eapply Hes.
Qed.

Lemma fresh_scalar y c x : objects x = [] → fresh y c x.
Proof. intros Hx t Ht. rewrite Hx in Ht. by apply elem_of_nil in Ht. Qed.

Lemma deepcopy_fresh y c v : fresh y c (deepcopy y c v).
Proof.
  induction v as [|k|o xs IH|o es IH] using value_nested_ind.
  - by apply fresh_scalar.
  - by apply fresh_scalar.
  - rewrite Forall_forall in IH. simpl.
    intros t [->|(x & Hx & Ht)]%elem_of_objects_list.
    + eexists. split; [done|]. by eexists.
    + apply list_elem_of_In, in_map_iff in Hx as (x0 & <- & Hx0).
      apply (IH x0); [by apply list_elem_of_In | done].
  - rewrite Forall_forall in IH. simpl.
    intros t [->|(k & x & Hx & Ht)]%elem_of_objects_dict.
    + eexists. split; [done|]. by eexists.
    + apply list_elem_of_In, in_map_iff in Hx as ([k0 x0] & [= <- <-] & Hx0).
      apply (IH (k0, x0)); [by apply list_elem_of_In | done].
Qed.

Lemma subscript_within v k x t :
  subscript v k = Ok x → t ∈ objects x → t ∈ objects v.
Proof.
  destruct v as [|k0|o xs|o es].
  - done.
  - destruct k0 as [| |s]; [done..|]. destruct k as [[|z|]|]; [done| |done|done].
    intros Hx%list_index_elem. unfold chars in Hx.
    apply list_elem_of_fmap in Hx as (a & -> & _). by intros ?%elem_of_nil.
  - destruct k as [[|z|]|]; [done| |done|done].
    intros Hx%list_index_elem Ht. apply elem_of_objects_list. right. by exists x.
  - destruct k as [k|]; [|done].
    intros Hx%getitem_Ok%dict_get_Some_elem Ht.
    apply elem_of_objects_dict. right. by exists k, x.
Qed.

Lemma setting_within settings name x t :
  setting settings name = Ok x → t ∈ objects x →
  t ∈ objects (dict_value settings).
Proof.
  intros Hx%getitem_Ok%dict_get_Some_elem Ht.
  apply elem_of_objects_dict. right. by eexists _, x.
Qed.

Lemma iter_within v xs x t :
  iter v = Ok xs → x ∈ xs → t ∈ objects x → t ∈ objects v.
Proof.
  destruct v as [|[| |s]|o ys|o es]; try done; simpl.
  - intros [= <-]. unfold chars. intros (a & -> & _)%list_elem_of_fmap.
    by intros ?%elem_of_nil.
  - intros [= <-] Hx Ht. rewrite elem_of_cons, list_elem_of_In, in_flat_map.
    right. exists x. by rewrite <- !list_elem_of_In.
  - intros [= <-]. intros (a & -> & _)%list_elem_of_fmap.
    by intros ?%elem_of_nil.
Qed.

Lemma find_patch_within pysm category case_value patch t :
  find_patch pysm category case_value = Ok patch →
  t ∈ objects (dict_value patch) → t ∈ objects pysm.
Proof.
  intros H Ht. unfold find_patch in H. inv_ok H.
  apply as_mapping_Ok in H as ->.
  eapply subscript_within; [done|]. by eapply subscript_within.
Qed.

(** *** The merge and the objects *)

Lemma elem_of_dict_set {K V} `{EqDecision K} (k k' : K) (v v' : V) d :
  (k', v') ∈ dict_set k v d → (k', v') = (k, v) ∨ (k', v') ∈ d.
Proof.
  induction d as [|[k0 v0] d IH]; simpl.
  - intros ->%list_elem_of_singleton. by left.
  - case_decide as Hk; [subst|].
    + intros [->|Hin]%elem_of_cons; [by left|]. right. by right.
    + intros [->|Hin]%elem_of_cons; [right; left|].
      destruct (IH Hin) as [->|Hd]; [by left|]. right. by right.
Qed.

(** An item of the merged mapping is an item of the base or the merge of one
    item of the patch. *)
Lemma elem_of_foldl_update_key pes bes k x :
  NoDup (dict_keys pes) →
  (k, x) ∈ foldl update_key bes pes →
  (k, x) ∈ bes ∨
  ∃ v, (k, v) ∈ pes ∧
       x = match dict_get k bes with
           | Some b => merge_value b v
           | None => v
           end.
Proof.
  unfold dict_keys. revert bes.
  induction pes as [|[k0 v0] pes IH]; intros bes; simpl; [by left|].
  intros [Hk0 Hnd]%NoDup_cons Hin.
  destruct (IH _ Hnd Hin) as [Hbes|(v & Hv & ->)].
  - unfold update_key in Hbes. simpl in Hbes.
    apply elem_of_dict_set in Hbes as [[= -> ->]|Hbes]; [|by left].
    right. exists v0. split; [left | done].
  - right. exists v. split; [by right|].
    rewrite update_key_other; [done|]. simpl. intros ->.
    apply Hk0, list_elem_of_fmap. by exists (k0, v).
Qed.

Lemma merge_value_sound base y c pv :
  well_formed pv = true → within base pv →
  ∀ bv, fresh y c bv → sound base y c (merge_value bv pv).
Proof.
  induction pv as [|k|o xs _|op pes IH] using value_nested_ind;
    intros Hwf Hw bv Hf; try (by apply within_sound).
  destruct bv as [| | |ob bes]; try (by apply within_sound).
  rewrite merge_value_dict.
  apply well_formed_dict in Hwf as [Hnd Hwfs]. rewrite Forall_forall in IH.
  apply sound_dict.
  - destruct (Hf (VDict ob bes)) as (o & [= <-] & Ho); [|done].
    apply elem_of_objects_dict. by left.
  - intros k x Hin.
    destruct (elem_of_foldl_update_key _ _ _ _ Hnd Hin) as [Hbes|(v & Hv & ->)].
    + apply fresh_sound. by eapply fresh_element.
    + destruct (dict_get k bes) as [b|] eqn:Hb.
      * apply (IH (k, v)); [done | by eapply Hwfs | by eapply within_element |].
        eapply fresh_element; [done|]. by apply dict_get_Some_elem.
      * apply within_sound. by eapply within_element.
Qed.

(** *** The settings of a case and the objects of the base *)

Lemma objects_value_of_cell cell : objects (value_of_cell cell) = [].
Proof. by destruct cell. Qed.

Lemma deepcopy_mapping_inv base y c settings :
  settings_inv base y c [] (deepcopy_mapping y c settings).
Proof.
  assert (∀ k x, (k, x) ∈ items (deepcopy_mapping y c settings) → fresh y c x)
    as Hfresh.
  { intros k x Hin. simpl in Hin.
    apply list_elem_of_In, in_map_iff in Hin as ([k0 x0] & [= <- <-] & _).
    apply deepcopy_fresh. }
  split; [by eexists|]. split.
  - intros k x Hin. apply fresh_sound. by eapply Hfresh.
  - intros k x Hx%dict_get_Some_elem _. by eapply Hfresh.
Qed.

Lemma setitem_inv base y c ms s k x :
  settings_inv base y c ms s → fresh y c x →
  settings_inv base y c ms (setitem k x s).
Proof.
  intros (Hroot & Hsound & Hfresh) Hx. split; [done|]. split.
  - intros k' x' [[= -> ->]|Hin]%elem_of_dict_set.
    + by apply fresh_sound.
    + by eapply Hsound.
  - intros k' x'. simpl. destruct (decide (k = k')) as [->|Hne].
    + rewrite dict_get_set_eq. by intros [= <-].
    + rewrite dict_get_set_ne by done. apply Hfresh.
Qed.

Lemma overlay_columns_inv base y c ms tbl r s :
  settings_inv base y c ms s →
  settings_inv base y c ms (overlay_columns tbl r s).
Proof.
  intros Hs. unfold overlay_columns.
  assert (settings_inv base y c ms
            (setitem (KStr "year") (VKey (year r))
               (setitem (KStr "case_id") (VKey (case_id r)) s))) as Hs'.
  { by repeat (apply setitem_inv; [|by apply fresh_scalar]). }
  revert Hs'. generalize (setitem (KStr "year") (VKey (year r))
                            (setitem (KStr "case_id") (VKey (case_id r)) s)).
  generalize (imap (λ (j : nat) (category : string), (j, category))
                (categories tbl)).
  intros l. induction l as [|jc l IH]; intros s0 Hs0; simpl; [done|].
  apply IH. apply setitem_inv; [done|].
  apply fresh_scalar, objects_value_of_cell.
Qed.

Lemma update_dictionary_inv base y c ms s patch :
  settings_inv base y c ms s →
  well_formed (dict_value patch) = true →
  within base (dict_value patch) →
  (∀ k, k ∈ dict_keys (items patch) → k ∉ ms) →
  settings_inv base y c (ms ++ dict_keys (items patch))
    (update_dictionary s patch).
Proof.
  intros (Hroot & Hsound & Hfresh) [Hnd Hwfs]%well_formed_dict Hw Hnew.
  split; [done|]. split.
  - intros k x Hin. simpl in Hin.
    destruct (elem_of_foldl_update_key _ _ _ _ Hnd Hin) as [Hs|(v & Hv & ->)].
    + by eapply Hsound.
    + assert (within base v) as Hwv by by eapply within_element.
      destruct (dict_get k (items s)) as [b|] eqn:Hb; [|by apply within_sound].
      apply merge_value_sound; [by eapply Hwfs | done |].
      eapply Hfresh; [done|]. apply Hnew.
      apply list_elem_of_fmap. by exists (k, v).
  - intros k x Hx [Hms Hp]%not_elem_of_app. simpl in Hx.
    rewrite foldl_update_key_other in Hx by done. by eapply Hfresh.
Qed.

Lemma apply_category_inv base y c pysm ms s item ms' s' :
  well_formed pysm = true → within base pysm →
  apply_category pysm c (ms, s) item = Ok (ms', s') →
  settings_inv base y c ms s → settings_inv base y c ms' s'.
Proof.
  intros Hwf Hw. destruct item as [category cvd].
  rewrite apply_category_find_patch.
  intros [Hbody|[_ [= -> ->]]]%catch_KeyError_Ok Hinv; [|done].
  apply bind_Ok in Hbody as (cv & _ & Hbody).
  apply bind_Ok in Hbody as (patch & Hpatch & Hbody).
  apply bind_Ok in Hbody as (ms1 & [-> Hnew]%check_keys_Ok_inv & [= <- <-]).
  apply update_dictionary_inv; [done | | | done].
  - by eapply find_patch_well_formed.
  - intros t Ht. apply Hw. by eapply find_patch_within.
Qed.

Lemma apply_category_oid pysm c ms s item ms' s' :
  apply_category pysm c (ms, s) item = Ok (ms', s') → oid_of s' = oid_of s.
Proof.
  destruct item as [category cvd]. rewrite apply_category_find_patch.
  intros [Hbody|[_ [= -> ->]]]%catch_KeyError_Ok; [|done].
  apply bind_Ok in Hbody as (cv & _ & Hbody).
  apply bind_Ok in Hbody as (patch & Hpatch & Hbody).
  by apply bind_Ok in Hbody as (ms1 & _ & [= <- <-]).
Qed.

Lemma category_loop_inv base y c pysm l ms s ms' s' :
  well_formed pysm = true → within base pysm →
  for_each l (apply_category pysm c) (ms, s) = Ok (ms', s') →
  settings_inv base y c ms s →
  settings_inv base y c ms' s' ∧ oid_of s' = oid_of s.
Proof.
  intros Hwf Hw Hloop Hinv.
  apply (for_each_invariant
           (λ st, settings_inv base y c st.1 st.2 ∧ oid_of st.2 = oid_of s)
           _ _ _ _ Hloop); [done|].
  intros [ms1 s1] item [ms2 s2] _ [Hinv1 Hoid] Hstep. simpl in *. split.
  - by eapply apply_category_inv.
  - rewrite <- Hoid. by eapply apply_category_oid.
Qed.

Lemma overlay_columns_oid tbl r s : oid_of (overlay_columns tbl r s) = oid_of s.
Proof.
  unfold overlay_columns.
  change (oid_of s) with
    (oid_of (setitem (KStr "year") (VKey (year r))
               (setitem (KStr "case_id") (VKey (case_id r)) s))).
  generalize (setitem (KStr "year") (VKey (year r))
                (setitem (KStr "case_id") (VKey (case_id r)) s)).
  generalize (imap (λ (j : nat) (category : string), (j, category))
                (categories tbl)).
  intros l. induction l as [|jc l IH]; intros s0; simpl; [done|].
  by rewrite IH.
Qed.

Lemma model_planning_period_dict_within settings periods y planning :
  model_planning_period_dict settings = Ok periods →
  dict_get y periods = Some planning →
  within (dict_value settings) planning.1 ∧
  within (dict_value settings) planning.2.
Proof.
  unfold model_planning_period_dict. intros H Hy.
  apply bind_Ok in H as (my & Hmy & H).
  apply bind_Ok in H as (fp & Hfp & H).
  apply bind_Ok in H as (years & Hyears & H).
  apply bind_Ok in H as (starts & Hstarts & H).
  apply dict_get_Some_elem in Hy.
  revert y planning Hy.
  apply (for_each_invariant
           (λ d, ∀ y planning, (y, planning) ∈ d →
                   within (dict_value settings) planning.1 ∧
                   within (dict_value settings) planning.2)
           _ _ _ _ H).
  - by intros y planning ?%elem_of_nil.
  - intros d [yv sv] d' Hin Hd Hstep.
    apply bind_Ok in Hstep as (k & _ & [= <-]).
    destruct k as [k|]; [|done].
    intros y planning [[= -> ->]|Hold]%elem_of_dict_set; [|by eapply Hd].
    simpl. split; intros t Ht.
    + eapply setting_within; [exact Hfp|].
      eapply iter_within; [exact Hstarts | | exact Ht].
      by eapply elem_of_zip_r.
    + eapply setting_within; [exact Hmy|].
      eapply iter_within; [exact Hyears | | exact Ht].
      by eapply elem_of_zip_l.
Qed.

Section Isolation.

Variables (settings : mapping) (scenario_definitions : Table)
  (case_id_name_map : list (key * string)).

Lemma case_settings_sound periods sm pysm pivot y c s :
  well_formed (dict_value settings) = true →
  model_planning_period_dict settings = Ok periods →
  setting settings "settings_management" = Ok sm →
  subscript sm (Some y) = Ok pysm →
  case_settings settings scenario_definitions periods case_id_name_map pysm
    pivot y c = Ok s →
  oid_of s = Copy y c (oid_of settings) ∧
  sound (dict_value settings) y c (dict_value s).
Proof.
  intros Hwf Hperiods Hsm Hpysm H. unfold case_settings in H.
  apply bind_Ok in H as (r & _ & H).
  apply bind_Ok in H as ([ms s'] & Hloop & H).
  apply bind_Ok in H as (planning & Hplanning%getitem_Ok & H).
  apply bind_Ok in H as (name & _ & [= <-]).
  eapply (category_loop_inv (dict_value settings) y c) in Hloop
    as ((Hroot & Hsound & _) & Hoid).
  - rewrite overlay_columns_oid in Hoid. simpl in Hoid. split; [done|].
    destruct (model_planning_period_dict_within _ _ _ _ Hperiods Hplanning)
      as [Hw1 Hw2].
    apply sound_dict; [done|]. simpl.
    intros k x [[= -> ->]|Hin]%elem_of_dict_set;
      [by apply fresh_sound, fresh_scalar|].
    apply elem_of_dict_set in Hin as [[= -> ->]|Hin]; [by apply within_sound|].
    apply elem_of_dict_set in Hin as [[= -> ->]|Hin]; [by apply within_sound|].
    by eapply Hsound.
  - eapply subscript_well_formed; [|exact Hpysm]. by eapply setting_well_formed.
  - intros t Ht. eapply setting_within; [exact Hsm|].
    by eapply subscript_within.
  - apply overlay_columns_inv, deepcopy_mapping_inv.
Qed.

(** A resolved [Settings] is what [case_settings] returns for its year and its
    case. *)
Lemma resolved_case_settings scenario_settings y c s :
  build_scenario_settings settings scenario_definitions case_id_name_map
    = Ok scenario_settings →
  resolved scenario_settings y c = Some s →
  ∃ periods sm pysm,
    model_planning_period_dict settings = Ok periods ∧
    setting settings "settings_management" = Ok sm ∧
    subscript sm (Some y) = Ok pysm ∧
    case_settings settings scenario_definitions periods case_id_name_map pysm
      (planning_year_scenario_definitions_dict scenario_definitions y) y c
      = Ok s.
Proof.
  unfold build_scenario_settings, resolved. intros Hbuild Hs.
  apply bind_Ok in Hbuild as (periods & Hperiods & Hbuild).
  destruct (for_each_dict_set _ _ _ _ Hbuild) as (_ & _ & Hget).
  destruct (dict_get y scenario_settings) as [of_year|] eqn:Hy; [|done].
  simpl in Hs. destruct (Hget y of_year Hy) as [[_ Hrun]|[_ [=]]].
  unfold planning_year_settings in Hrun.
  apply bind_Ok in Hrun as (sm & Hsm & Hrun).
  apply bind_Ok in Hrun as (pysm & Hpysm & Hrun).
  destruct (for_each_dict_set _ _ _ _ Hrun) as (_ & _ & Hget').
  destruct (Hget' c s Hs) as [[_ Hcase]|[_ [=]]].
  by exists periods, sm, pysm.
Qed.

Lemma caller_owned_Obj v o :
  caller_owned v = true → o ∈ oids v → ∃ n, o = Obj n.
Proof.
  unfold caller_owned. rewrite forallb_forall. intros Hall Ho%list_elem_of_In.
  specialize (Hall o Ho). destruct o; [by eauto | done].
Qed.

(** C9, as it holds of the code -- [build_scenario_settings] deep-copies the base settings
    before each case's overlay: the [Settings] resolved for a year and a case
    is a new object, every object it reaches is either a copy made for that
    year and case or an object of the base with the contents it has in the
    base (the build writes to no object of the base), and whatever two
    resolved [Settings] share is an object of the base. *)
Theorem deepcopy_isolation scenario_settings :
  caller_owned (dict_value settings) = true →
  well_formed (dict_value settings) = true →
  build_scenario_settings settings scenario_definitions case_id_name_map
    = Ok scenario_settings →
  (∀ y c s, resolved scenario_settings y c = Some s →
     oid_of s = Copy y c (oid_of settings) ∧
     base_unchanged settings s ∧
     ∀ o, o ∈ oids (dict_value s) →
       copied y c o ∨ o ∈ oids (dict_value settings)) ∧
  (∀ y1 c1 s1 y2 c2 s2 o,
     (y1, c1) ≠ (y2, c2) →
     resolved scenario_settings y1 c1 = Some s1 →
     resolved scenario_settings y2 c2 = Some s2 →
     o ∈ oids (dict_value s1) → o ∈ oids (dict_value s2) →
     o ∈ oids (dict_value settings)).
Proof.
  intros Hown Hwf Hbuild.
  assert (∀ y c s, resolved scenario_settings y c = Some s →
            oid_of s = Copy y c (oid_of settings) ∧
            sound (dict_value settings) y c (dict_value s)) as Hsound.
  { intros y c s Hs.
    destruct (resolved_case_settings _ _ _ _ Hbuild Hs)
      as (periods & sm & pysm & Hperiods & Hsm & Hpysm & Hcase).
    by eapply case_settings_sound. }
  assert (∀ y c s o, resolved scenario_settings y c = Some s →
            o ∈ oids (dict_value s) →
            copied y c o ∨ o ∈ oids (dict_value settings)) as Hoids.
  { intros y c s o Hs (t & Ht & Hroot)%elem_of_oids.
    destruct (Hsound y c s Hs) as [_ Hsd].
    destruct (Hsd t Ht) as [(o' & Ho' & Hcopy)|Hbase].
    - left. congruence.
    - right. apply elem_of_oids. by exists t. }
  split.
  - intros y c s Hs. destruct (Hsound y c s Hs) as [Hroot Hsd].
    split; [done|]. split; [|intros o Ho; by eapply Hoids].
    intros t o Ht Ho Hbase. destruct (Hsd t Ht) as [(o' & Ho' & Hcopy)|]; [|done].
    destruct (caller_owned_Obj _ _ Hown Hbase) as (n & ->).
    destruct Hcopy as (src & ->). congruence.
  - intros y1 c1 s1 y2 c2 s2 o Hne Hs1 Hs2 Ho1 Ho2.
    destruct (Hoids _ _ _ _ Hs1 Ho1) as [(src1 & ->)|]; [|done].
    destruct (Hoids _ _ _ _ Hs2 Ho2) as [(src2 & Heq)|]; [|done].
    injection Heq as -> -> _. done.
Qed.

End Isolation.

(** *** The example inputs *)

Lemma update_dictionary_spec_witness :
  update_dictionary (update_dictionary example_settings example_patch)
    example_patch = update_dictionary example_settings example_patch.
Proof.
  exact (proj2 (proj2 (update_dictionary_spec example_settings example_patch
                         eq_refl))).
Defined.

Ltac elem_cases H :=
  repeat (apply elem_of_cons in H as [?|H]; [simplify_eq|]);
  try (by apply elem_of_nil in H).

(** In [staggered_table] case "p2" has no row for 2030: selecting its row
    there and reading a column of it raises, though no category patches
    anything. *)
Lemma build_scenario_settings_total_counterexample :
  ¬ build_total_claim example_settings staggered_table example_names.
Proof.
  intros Hclaim. destruct Hclaim as (result & Hbuild & _).
  - intros r i j patch_i patch_j k _ _ Hi. unfold selected_patch in Hi.
    by destruct i.
  - vm_compute in Hbuild. discriminate.
Qed.

Lemma example_no_double_patch : no_double_patch example_settings example_table.
Proof.
  intros r i j patch_i patch_j k Hr Hij Hi Hj Hki Hkj.
  simpl in Hr. elem_cases Hr.
  all: destruct i as [|[|i]]; try (by vm_compute in Hi).
  all: destruct j as [|[|j]]; try (by vm_compute in Hj); try done.
  all: vm_compute in Hi; vm_compute in Hj; try done.
  all: injection Hi as <-; injection Hj as <-.
  all: simpl in Hki, Hkj; elem_cases Hki; elem_cases Hkj.
Qed.

Lemma build_scenario_settings_total_witness :
  ∃ scenario_settings,
    build_scenario_settings example_settings example_table example_names
      = Ok scenario_settings ∧
    one_settings_per_case example_table example_names scenario_settings.
Proof.
  apply build_scenario_settings_total.
  - apply (bool_decide_unpack _). vm_compute. exact I.
  - intros y c Hy Hc. simpl in Hy, Hc. elem_cases Hy; elem_cases Hc;
      eexists; reflexivity.
  - reflexivity.
  - eexists. split; [reflexivity|]. intros y Hy. simpl in Hy.
    elem_cases Hy; vm_compute; eauto.
  - eexists. split; [reflexivity|]. intros y Hy. simpl in Hy.
    elem_cases Hy; eexists; (split; [reflexivity | reflexivity]).
  - intros c Hc. simpl in Hc. elem_cases Hc; vm_compute; eauto.
  - exact example_no_double_patch.
Defined.

Lemma double_patch_fatal_witness :
  ∃ e, build_scenario_settings clashing_settings clashing_table example_names
         = Err e.
Proof.
  apply (double_patch_fatal clashing_settings clashing_table example_names
           clashing_row 0 1
           {| oid_of := Obj 6; items := [(KStr "ng_mult", VInt 2)] |}
           {| oid_of := Obj 8; items := [(KStr "ng_mult", VInt 3)] |}
           (KStr "ng_mult")).
  - apply (bool_decide_unpack _). vm_compute. exact I.
  - left.
  - lia.
  - reflexivity.
  - reflexivity.
  - left.
  - left.
Defined.

(** The list under "regions" of the patch [high] is one object, [Obj 11] of
    the base: the cases "p1" and "p2" both select [high] in 2030, and both
    resolved [Settings] hold that very list. *)
Lemma deepcopy_isolation_counterexample :
  ¬ deepcopy_claim example_settings example_table example_names.
Proof.
  intros Hclaim.
  assert (∃ result s1 s2,
            build_scenario_settings example_settings example_table example_names
              = Ok result ∧
            resolved result (KInt 2030) (KStr "p1") = Some s1 ∧
            resolved result (KInt 2030) (KStr "p2") = Some s2 ∧
            Obj 11 ∈ oids (dict_value s1) ∧ Obj 11 ∈ oids (dict_value s2))
    as (result & s1 & s2 & Hbuild & Hs1 & Hs2 & Ho1 & Ho2).
  { eexists _, _, _. split; [vm_compute; reflexivity|].
    split; [vm_compute; reflexivity|]. split; [vm_compute; reflexivity|].
    split; apply (bool_decide_unpack _); vm_compute; exact I. }
  destruct (Hclaim eq_refl result Hbuild) as [_ Hind].
  apply (Hind (KInt 2030) (KStr "p1") s1 (KInt 2030) (KStr "p2") s2
           ltac:(done) Hs1 Hs2 (Obj 11) Ho1 Ho2).
Qed.

Lemma deepcopy_isolation_witness :
  ∃ result,
    build_scenario_settings example_settings example_table example_names
      = Ok result ∧
    ∀ y c s, resolved result y c = Some s →
      oid_of s = Copy y c (oid_of example_settings) ∧
      base_unchanged example_settings s.
Proof.
  destruct (build_scenario_settings example_settings example_table
              example_names) as [result|e] eqn:Hbuild;
    [|vm_compute in Hbuild; discriminate].
  exists result. split; [reflexivity|]. intros y c s Hs.
  destruct (deepcopy_isolation example_settings example_table example_names
              result eq_refl eq_refl Hbuild) as [H _].
  destruct (H y c s Hs) as (Hroot & Hbase & _). by split.
Defined.

End ScenarioFacts.

(** * More facts about fuels.py *)

(** *** First occurrences, again *)

Lemma unique_from_NoDup {A} `{EqDecision A} (seen l : list A) :
  NoDup l → (∀ x, x ∈ l → x ∉ seen) → unique_from seen l = l.
Proof.
  revert seen. induction l as [|x l IH]; intros seen Hnd Hseen; simpl; [done|].
  apply NoDup_cons in Hnd as [Hx Hnd].
  rewrite bool_decide_eq_false_2 by (apply Hseen; left).
  f_equal. apply IH; [done|]. intros y Hy. rewrite not_elem_of_cons. split.
  - by intros ->.
  - apply Hseen. by right.
Qed.

Lemma drop_duplicates_idemp {A} `{EqDecision A} (l : list A) :
  drop_duplicates (drop_duplicates l) = drop_duplicates l.
Proof.
  unfold drop_duplicates. apply unique_from_NoDup; [apply NoDup_unique_from|].
  intros x _. apply not_elem_of_nil.
Qed.

Lemma filter_unique_from {A} `{EqDecision A} (P : A → Prop)
    `{∀ x, Decision (P x)} (seen l : list A) :
  filter P (unique_from seen l) = unique_from (filter P seen) (filter P l).
Proof.
  revert seen. induction l as [|x l IH]; intros seen; simpl; [done|].
  rewrite (filter_cons P x l). case_bool_decide as Hx.
  - rewrite IH. destruct (decide (P x)) as [HP|HP]; [|done]. simpl.
    rewrite bool_decide_eq_true_2; [done|]. by apply list_elem_of_filter.
  - rewrite filter_cons, IH, filter_cons.
    destruct (decide (P x)) as [HP|HP]; [|done]. simpl.
    rewrite bool_decide_eq_false_2; [done|].
    rewrite list_elem_of_filter. tauto.
Qed.

Lemma drop_duplicates_filter {A} `{EqDecision A} (P : A → Prop)
    `{∀ x, Decision (P x)} (l : list A) :
  drop_duplicates (filter P (drop_duplicates l)) = drop_duplicates (filter P l).
Proof.
  unfold drop_duplicates at 2. rewrite filter_unique_from.
  apply drop_duplicates_idemp.
Qed.

Lemma map_rows_total {A B} (f : A → result B) (xs : list A) :
  (∀ x, x ∈ xs → ∃ y, f x = Ok y) → ∃ ys, map_rows f xs = Ok ys.
Proof.
  induction xs as [|x xs IH]; intros Hf; simpl; [by eauto|].
  destruct (Hf x) as (y & Hy); [left|]. rewrite Hy. simpl.
  destruct IH as (ys & Hys); [intros x' Hx'; apply Hf; by right|].
  rewrite Hys. simpl. by eauto.
Qed.

(** The value inserted last under a name is the one that is read. *)
Lemma lookup_foldl_insert {A V} (f : A → string) (g : A → V) (xs : list A)
    (m : gmap string V) (k : string) :
  foldl (λ m x, <[f x := g x]> m) m xs !! k =
    match last (filter (λ x, f x = k) xs) with
    | Some x => Some (g x)
    | None => m !! k
    end.
Proof.
  revert m. induction xs as [|x xs IH]; intros m; simpl; [done|].
  rewrite IH, filter_cons. destruct (decide (f x = k)) as [<-|Hne].
  - rewrite last_cons, lookup_insert_eq.
    by destruct (last (filter (λ x0, f x0 = f x) xs)).
  - by rewrite lookup_insert_ne.
Qed.

(** *** Tokens of a fuel name *)

Lemma contains_underscore_cons (a : ascii) (t : string) :
  contains "_" (String a t) = Ascii.eqb a "_" || contains "_" t.
Proof.
  cbn [contains String.prefix]. destruct (ascii_dec "_" a) as [<-|Hne].
  - by destruct t.
  - rewrite (proj2 (Ascii.eqb_neq a "_")); [done | by intros ->].
Qed.

Lemma contains_underscore (s : string) :
  contains "_" s = false ↔ split underscore s = [s].
Proof.
  induction s as [|a s IH]; [done|].
  rewrite contains_underscore_cons. cbn [split]. unfold underscore in *.
  destruct (Ascii.eqb a "_") eqn:Ha; [done|].
  rewrite orb_false_l, IH.
  pose proof (split_not_nil "_" s) as Hnil.
  destruct (split "_" s) as [|t ts]; [done|]. split.
  - by intros [= -> ->].
  - by intros [= -> ->].
Qed.

Lemma join_split (s : string) : join "_" (split underscore s) = s.
Proof.
  induction s as [|a s IH]; [done|]. cbn [split]. unfold underscore in *.
  pose proof (split_not_nil "_" s) as Hnil.
  destruct (Ascii.eqb a "_") eqn:Ha.
  - apply Ascii.eqb_eq in Ha as ->.
    destruct (split "_" s) as [|t ts]; [done|].
    change (join "_" ("" :: t :: ts)) with ("" ++ "_" ++ join "_" (t :: ts))%string.
    by rewrite IH.
  - destruct (split "_" s) as [|t ts]; [done|]. destruct ts as [|u ts].
    + simpl in *. by rewrite IH.
    + change (join "_" (String a t :: u :: ts))
        with (String a (t ++ "_" ++ join "_" (u :: ts)))%string.
      by rewrite <- IH.
Qed.

Lemma string_app_assoc (a b c : string) : ((a ++ b) ++ c = a ++ b ++ c)%string.
Proof.
  induction a as [|x a IH]; [done|].
  change (String x ((a ++ b) ++ c) = String x (a ++ b ++ c))%string. by f_equal.
Qed.

Lemma join_snoc (ts : list string) (t : string) :
  ts ≠ [] → join "_" (ts ++ [t]) = (join "_" ts ++ "_" ++ t)%string.
Proof.
  induction ts as [|u ts IH]; [done|]. intros _. destruct ts as [|v ts].
  - done.
  - change (join "_" ((u :: v :: ts) ++ [t]))
      with (u ++ "_" ++ join "_" ((v :: ts) ++ [t]))%string.
    rewrite IH by done.
    change (join "_" (u :: v :: ts)) with (u ++ "_" ++ join "_" (v :: ts))%string.
    by rewrite !string_app_assoc.
Qed.

Lemma contains_last_split (s : string) :
  contains "_" (List.last (split underscore s) "") = false.
Proof.
  induction s as [|a s IH]; [done|]. cbn [split]. unfold underscore in *.
  pose proof (split_not_nil "_" s) as Hnil.
  destruct (Ascii.eqb a "_") eqn:Ha.
  - destruct (split "_" s) as [|t ts]; [done|]. exact IH.
  - destruct (split "_" s) as [|t ts]; [done|]. destruct ts as [|u ts].
    + change (List.last [String a t] "") with (String a t).
      change (List.last [t] "") with t in IH.
      by rewrite contains_underscore_cons, Ha, IH.
    + exact IH.
Qed.

Module FuelsProps.
Import Fuels FuelsFacts.

(** X1 -- the tokens of a fuel name: joining the [split("_")] tokens with
    "_" gives the name back; the last token holds no underscore; a name with
    an underscore is its base name (all tokens but the last), an underscore
    and its last token; a name without underscore has the empty base name and
    is its own last token and its own capture-rate key. *)
Theorem fuel_name_tokens (f : string) :
  join "_" (split underscore f) = f ∧
  contains "_" (last_token f) = false ∧
  (contains "_" f = true →
   f = (drop_last_token f ++ "_" ++ last_token f)%string) ∧
  (contains "_" f = false →
   drop_last_token f = "" ∧ last_token f = f ∧ last_two_tokens f = f).
Proof.
  split; [apply join_split|]. split; [apply contains_last_split|]. split.
  - intros Hc. unfold drop_last_token, last_token, all_but_last.
    pose proof (join_split f) as Hjoin.
    pose proof (split_not_nil underscore f) as Hnil.
    destruct (split underscore f) as [|t ts] eqn:Hs; [done|].
    destruct ts as [|u ts].
    { simpl in Hjoin. subst t. apply contains_underscore in Hs. congruence. }
    rewrite <- Hjoin at 1.
    rewrite (app_removelast_last "" (l := t :: u :: ts)) at 1 by done.
    apply join_snoc. done.
  - intros Hs%contains_underscore.
    unfold drop_last_token, last_token, last_two_tokens. by rewrite Hs.
Qed.

Lemma fuel_name_tokens_witness :
  "NG_ccs_x" = (drop_last_token "NG_ccs_x" ++ "_" ++ last_token "NG_ccs_x")%string ∧
  last_two_tokens "coal" = "coal".
Proof.
  split.
  - apply (proj1 (proj2 (proj2 (fuel_name_tokens "NG_ccs_x")))). reflexivity.
  - apply (proj2 (proj2 (proj2 (fuel_name_tokens "coal")))). reflexivity.
Defined.

(** The rows of the table carry the labels 0, 1, 2, ... in order. *)
Lemma hour_index_label (N : Z) (k : nat) (i : Z) :
  hour_index N !! k = Some i → i = Z.of_nat (S k).
Proof.
  unfold hour_index. rewrite list_lookup_fmap.
  destruct (seq 0 (Z.to_nat N) !! k) as [n|] eqn:Hn; [|done].
  apply lookup_seq in Hn as [-> _]. by intros [= <-].
Qed.

Section Generic.

Context `{Arithmetic F}.

Lemma for_each_ccs_step_total l (maps : gmap string F * gmap string F) :
  same_keys maps →
  (∀ f, f ∈ l → is_Some (maps.1 !! drop_last_token f)) →
  ∃ maps', for_each l ccs_step maps = Ok maps'.
Proof.
  revert maps. induction l as [|g l IH]; intros maps Hk Hbase; simpl; [by eauto|].
  destruct (Hbase g) as (p & Hp); [left|].
  assert (is_Some (maps.2 !! drop_last_token g)) as (e & He).
  { apply not_eq_None_Some. rewrite <- (Hk (drop_last_token g)). congruence. }
  assert (ccs_step maps g = Ok (<[g := p]> maps.1, <[g := e]> maps.2)) as Hstep.
  { apply ccs_step_Ok. by exists p, e. }
  rewrite Hstep. simpl. apply IH.
  - by eapply ccs_step_same_keys.
  - intros f Hf. eapply ccs_step_is_Some; [exact Hstep|]. left.
    apply Hbase. by right.
Qed.

Section Table.

Variable add_user_fuel_prices : Settings F → list (PriceRow F) → list (PriceRow F).

Abbreviation fuel_cost_table := (fuel_cost_table add_user_fuel_prices).
Abbreviation ccs_adjusted_frame := (ccs_adjusted_frame add_user_fuel_prices).
Abbreviation fuel_lookups := (fuel_lookups add_user_fuel_prices).
Abbreviation model_year_prices := (model_year_prices add_user_fuel_prices).

(** X2 -- the table depends on the roster only through its distinct fuels in
    first-seen order: repeating a fuel in the roster changes nothing. *)
Theorem roster_duplicates_irrelevant fuel_costs generators settings :
  fuel_cost_table fuel_costs (drop_duplicates generators) settings =
  fuel_cost_table fuel_costs generators settings.
Proof.
  unfold Fuels.fuel_cost_table, Fuels.ccs_adjusted_frame, Fuels.fuel_lookups,
    ccs_fuels_of.
  by rewrite drop_duplicates_idemp, drop_duplicates_filter.
Qed.

(** X3 -- the price lookup of the model year: with [model_year] set it is
    built without failure; under a name it holds the price of the last row
    of that name among the rows of the model year, and nothing when there is
    no such row: rows of other years play no role. *)
Theorem model_year_prices_last_row fuel_costs settings my :
  model_year settings = Some my →
  ∃ prices,
    model_year_prices fuel_costs settings = Ok prices ∧
    ∀ f, prices !! f =
      price <$> last (filter (λ row, full_fuel_name row = f ∧ year row = my)
                             (add_user_fuel_prices settings fuel_costs)).
Proof.
  intros Hmy. unfold Fuels.model_year_prices. rewrite Hmy. simpl.
  eexists. split; [done|]. intros f. unfold build_fuel_price_map.
  rewrite (lookup_foldl_insert full_fuel_name price), list_filter_filter.
  rewrite lookup_empty.
  by destruct (last (filter _ (add_user_fuel_prices settings fuel_costs))).
Qed.

(** The column of a fuel, from the lookups. *)
Lemma table_column fuel_costs generators settings t j f :
  fuel_cost_table fuel_costs generators settings = Ok t →
  columns t !! j = Some f →
  ∃ maps row,
    fuel_lookups fuel_costs generators settings = Ok maps ∧
    adjust_ccs_fuels settings
      {| Fuel := f; Cost_per_MMBtu := maps.1 !! f;
         CO2_content_tons_per_MMBtu := maps.2 !! f |} = Ok row ∧
    ∀ i values, (i, values) ∈ rows t →
      values !! j =
        Some (if decide (i = 0%Z)
              then round_decimals 5 (fillna0 (CO2_content_tons_per_MMBtu row))
              else round_decimals 2
                     (fillna0 (Cost_per_MMBtu (tax_row (ctax_of settings) row)))).
Proof.
  intros (fuel_df & N & Hdf & HN & ->)%fuel_cost_table_Ok Hj. simpl in Hj.
  apply ccs_adjusted_frame_Ok in Hdf as (maps & Hmaps & Hrows).
  assert (lookup_rows maps (drop_duplicates generators) !! j =
            Some {| Fuel := f; Cost_per_MMBtu := maps.1 !! f;
                    CO2_content_tons_per_MMBtu := maps.2 !! f |}) as Hl.
  { unfold lookup_rows. by rewrite list_lookup_fmap, Hj. }
  destruct (Forall2_lookup_l _ _ _ _ _ Hrows Hl) as (row & Hrow & Hadj).
  exists maps, row. split; [done|]. split; [done|]. cbn [rows].
  intros i values [[= -> ->]|Hin]%elem_of_cons.
  - unfold co2_column, add_carbon_tax. by rewrite !list_lookup_fmap, Hrow.
  - apply list_elem_of_fmap in Hin as (k & [= -> ->] & Hk).
    apply list_elem_of_lookup in Hk as (n & Hn).
    apply hour_index_label in Hn as ->.
    rewrite decide_False by lia.
    unfold cost_column, add_carbon_tax. by rewrite !list_lookup_fmap, Hrow.
Qed.


(** The column of a fuel with "ccs" in its name whose base is priced in the
    model year. *)
Lemma ccs_column fuel_costs generators settings t j f prices emission_dict
    rates p d r :
  fuel_cost_table fuel_costs generators settings = Ok t →
  columns t !! j = Some f →
  contains "ccs" f = true →
  drop_last_token f ∉ ccs_fuels_of generators →
  model_year_prices fuel_costs settings = Ok prices →
  fuel_emission_factors settings = Some emission_dict →
  prices !! drop_last_token f = Some p →
  ccs_disposal_cost settings = Some d →
  ccs_capture_rate settings = Some rates →
  rates !! last_two_tokens f = Some r →
  let e := default fzero (emission_dict !! last_token (drop_last_token f)) in
  let co2_captured := fmul e r in
  ∀ i values, (i, values) ∈ rows t →
    values !! j =
      Some (if decide (i = 0%Z)
            then round_decimals 5 (fillna0 (Some (fsub e co2_captured)))
            else round_decimals 2
                   (fillna0 (Some (fadd (fadd p (fmul co2_captured d))
                                        (fmul (fsub e co2_captured)
                                              (ctax_of settings)))))).
Proof.
  intros Ht Hj Hccs Hbase Hprices Hed Hp Hd Hrates Hr e co2_captured.
  destruct (table_column _ _ _ _ _ _ Ht Hj) as (maps & row & Hmaps & Hrow & Hcol).
  apply fuel_lookups_Ok in Hmaps as (prices' & ed & Hp' & Hed' & Hloop).
  rewrite Hprices in Hp'. injection Hp' as <-.
  rewrite Hed in Hed'. injection Hed' as <-.
  assert (f ∈ ccs_fuels_of generators) as Hin.
  { apply elem_of_ccs_fuels_of. split; [|done].
    apply elem_of_drop_duplicates. apply fuel_cost_table_Ok in Ht
      as (? & ? & _ & _ & ->). by eapply list_elem_of_lookup_2. }
  apply list_elem_of_split in Hin as (l1 & l2 & Hsplit).
  assert (NoDup (l1 ++ f :: l2)) as Hnd
    by (rewrite <- Hsplit; apply NoDup_drop_duplicates).
  apply NoDup_app in Hnd as (_ & _ & [Hf2 _]%NoDup_cons).
  assert (drop_last_token f ∉ l1) as Hb1.
  { intros Hx. apply Hbase. rewrite Hsplit. apply elem_of_app. by left. }
  rewrite Hsplit, for_each_app in Hloop.
  apply bind_Ok in Hloop as (before & Hbefore & Hloop). simpl in Hloop.
  apply bind_Ok in Hloop as (m2 & Hm2 & Hloop).
  destruct (for_each_ccs_step_other _ _ _ _ Hloop Hf2) as [H1 H2].
  destruct (for_each_ccs_step_other _ _ _ _ Hbefore Hb1) as [Hp1 He1].
  apply ccs_step_Ok in Hm2 as (p' & e' & Hbp & Hbe & ->).
  cbn [fst snd] in *.
  rewrite lookup_insert_eq in H1, H2.
  rewrite Hp1, Hp in Hbp. injection Hbp as <-.
  unfold build_fuel_emission_map in He1. rewrite He1, map_lookup_imap, Hp in Hbe.
  injection Hbe as <-. fold e in H2.
  rewrite H1, H2 in Hrow.
  rewrite (adjust_ccs_fuels_priced _ _ d rates r p e) in Hrow by done.
  injection Hrow as <-.
  intros i values Hv. rewrite (Hcol i values Hv). done.
Qed.

(** X6 -- a sufficient condition for success: with [model_year] and
    [fuel_emission_factors] set, the time domain keys set when
    [reduce_time_domain] is, and for every roster fuel with "ccs" in its name
    a price of its base name in the model year, a disposal cost and a capture
    rate under its last two tokens, the table is built; fuels without "ccs"
    in their name need nothing, priced or not. *)
Theorem fuel_cost_table_succeeds fuel_costs generators settings prices
    emission_dict :
  model_year_prices fuel_costs settings = Ok prices →
  fuel_emission_factors settings = Some emission_dict →
  (default false (reduce_time_domain settings) = true →
   is_Some (time_domain_days_per_period settings) ∧
   is_Some (time_domain_periods settings)) →
  (∀ f, f ∈ generators → contains "ccs" f = true →
     is_Some (prices !! drop_last_token f) ∧
     is_Some (ccs_disposal_cost settings) ∧
     ∃ rates, ccs_capture_rate settings = Some rates ∧
              is_Some (rates !! last_two_tokens f)) →
  ∃ t, fuel_cost_table fuel_costs generators settings = Ok t.
Proof.
  intros Hprices Hed Htime Hccs.
  destruct (for_each_ccs_step_total (ccs_fuels_of generators)
              (prices, build_fuel_emission_map emission_dict prices))
    as (maps & Hloop).
  { apply build_fuel_emission_map_same_keys. }
  { intros f [Hin Hc]%elem_of_ccs_fuels_of. by destruct (Hccs f Hin Hc). }
  assert (fuel_lookups fuel_costs generators settings = Ok maps) as Hmaps.
  { apply fuel_lookups_Ok. by exists prices, emission_dict. }
  destruct (map_rows_total (adjust_ccs_fuels settings)
              (lookup_rows maps (drop_duplicates generators)))
    as (fuel_df & Hdf).
  { intros row (f & -> & Hf)%list_elem_of_fmap.
    apply (proj1 (elem_of_drop_duplicates _ _)) in Hf.
    destruct (contains "ccs" f) eqn:Hc.
    - destruct (Hccs f Hf Hc) as (_ & [d Hd] & rates & Hrates & [r Hr]).
      rewrite (adjust_ccs_fuels_ccs _ _ d rates r) by done. by eauto.
    - rewrite adjust_ccs_fuels_other by done. by eauto. }
  assert (∃ N, num_hours_of settings = Ok N) as (N & HN).
  { unfold num_hours_of.
    destruct (default false (reduce_time_domain settings)); [|by eauto].
    destruct Htime as [[days ->] [periods ->]]; [done|]. simpl. by eauto. }
  eexists. apply fuel_cost_table_Ok. exists fuel_df, N.
  split; [|split; [exact HN | done]].
  apply ccs_adjusted_frame_Ok. exists maps. split; [done|]. by apply map_rows_Ok.
Qed.

(** X7 -- settings keys that are read whatever the roster: without
    [model_year], without [fuel_emission_factors], or with
    [reduce_time_domain] set and one of [time_domain_days_per_period] and
    [time_domain_periods] missing, the call fails with [KeyError], even for a
    roster without fuels. *)
Theorem missing_settings_fatal fuel_costs generators settings :
  model_year settings = None ∨
  fuel_emission_factors settings = None ∨
  (default false (reduce_time_domain settings) = true ∧
   (time_domain_days_per_period settings = None ∨
    time_domain_periods settings = None)) →
  fuel_cost_table fuel_costs generators settings = Err KeyError.
Proof.
  intros Hmiss.
  destruct (fuel_cost_table fuel_costs generators settings) as [t|e] eqn:Hrun;
    [|f_equal; by eapply only_KeyError_fuel_cost_table].
  exfalso.
  apply fuel_cost_table_Ok in Hrun as (fuel_df & N & Hdf & HN & _).
  apply ccs_adjusted_frame_Ok in Hdf as (maps & Hmaps & _).
  apply fuel_lookups_Ok in Hmaps as (prices & ed & Hp & Hed & _).
  destruct Hmiss as [Hmy|[Hnone|[Hr Ht]]].
  - unfold Fuels.model_year_prices in Hp. by rewrite Hmy in Hp.
  - congruence.
  - apply num_hours_of_Ok in HN. rewrite Hr in HN.
    destruct HN as (days & periods & Hd & Hpe & _).
    destruct Ht; congruence.
Qed.

End Table.

End Generic.


(** X5 -- the order of the two adjustments.  A roster fuel [f] with "ccs" in
    its name whose base name is not itself a CCS fuel of the roster and has
    the price [p] in the model year, with capture rate [r], disposal cost [d]
    and the emission factor [e] of the base name: row 0 of its column holds
    the emissions after capture, [e - e * r], and every other row holds
    [(p + (e * r) * d) + (e - e * r) * carbon_tax]: the tax is levied on what
    is left after capture -- in doubles, every operation rounded, a NaN
    replaced by 0 before the rounding, and the rounding that of [numpy]: with
    the price 3.00, the emission factor 0.053, r = 0.9, d = 10 and the carbon
    tax 5 the column of "NG_ccs" holds 0.0053, from 0.005299999999999999, and
    then 3.5, from 3.5035. *)
Theorem ccs_fuel_column
    (add_user_fuel_prices :
       Settings double → list (PriceRow double) → list (PriceRow double))
    fuel_costs generators settings t j f prices emission_dict rates p d r :
  fuel_cost_table add_user_fuel_prices fuel_costs generators settings = Ok t →
  columns t !! j = Some f →
  contains "ccs" f = true →
  drop_last_token f ∉ ccs_fuels_of generators →
  model_year_prices add_user_fuel_prices fuel_costs settings = Ok prices →
  fuel_emission_factors settings = Some emission_dict →
  prices !! drop_last_token f = Some p →
  ccs_disposal_cost settings = Some d →
  ccs_capture_rate settings = Some rates →
  rates !! last_two_tokens f = Some r →
  let e := default fzero (emission_dict !! last_token (drop_last_token f)) in
  let co2_captured := fmul e r in
  (∀ i values, (i, values) ∈ rows t →
     values !! j =
       Some (if decide (i = 0%Z)
             then round_decimals 5 (fillna0 (Some (fsub e co2_captured)))
             else round_decimals 2
                    (fillna0 (Some (fadd (fadd p (fmul co2_captured d))
                                         (fmul (fsub e co2_captured)
                                               (ctax_of settings))))))) ∧
  ∃ t',
    fuel_cost_table no_user_prices example_prices example_roster
      example_settings = Ok t' ∧
    ∀ i values, (i, values) ∈ rows t' →
      values !! 1%nat =
        Some (if decide (i = 0%Z) then dec 53 10000 else dec 35 10).
Proof.
  intros Ht Hj Hccs Hbase Hprices Hed Hp Hd Hrates Hr e co2_captured. split.
  - by apply (ccs_column add_user_fuel_prices fuel_costs generators settings t
                j f prices emission_dict rates p d r).
  - destruct (fuel_cost_table (F := double) no_user_prices example_prices
                example_roster example_settings) as [t'|err] eqn:Hok;
      [|vm_compute in Hok; discriminate].
    assert (columns t' !! 1%nat = Some "NG_ccs") as Hj'.
    { apply fuel_cost_table_Ok in Hok as (? & ? & _ & _ & ->). reflexivity. }
    assert ("NG" ∉ ccs_fuels_of example_roster) as Hbase'.
    { intros [_ Hc]%elem_of_ccs_fuels_of. vm_compute in Hc. discriminate. }
    exists t'. split; [reflexivity|]. intros i values Hin.
    rewrite (ccs_column no_user_prices example_prices example_roster
               example_settings t' 1 "NG_ccs" _ _ _ (dec 3 1) (dec 10 1)
               (dec 9 10) Hok Hj' eq_refl Hbase' eq_refl eq_refl eq_refl eq_refl
               eq_refl eq_refl i values Hin).
    by destruct (decide (i = 0%Z)).
Qed.

(** X25 -- the carbon tax in doubles: the price of a row becomes
    [p + e * ctax], both operations rounded, [ctax] being [carbon_tax], or 0
    when that is absent or a zero.  With the tax 0 a price that is finite and
    not a zero stays as it is when the emissions are finite; infinite emissions
    turn it into a NaN, which the table shows as 0.  A tax of 5 on the
    emissions 0.005299999999999999 of the CCS adjustment, or on 0.0053, and
    the price 3.477 gives 3.5035. *)
Theorem carbon_tax_binary64 (settings : Settings double) (r : FuelRow double)
    (p e : double) :
  Cost_per_MMBtu r = Some p →
  CO2_content_tons_per_MMBtu r = Some e →
  add_carbon_tax [r] settings =
    [ {| Fuel := Fuel r;
         Cost_per_MMBtu := Some (fadd p (fmul e (ctax_of settings)));
         CO2_content_tons_per_MMBtu := Some e |} ] ∧
  ((∀ c, carbon_tax settings = Some c → falsy c = true) →
   ctax_of settings = fzero ∧
   (Binary64.is_finite e = true →
    Binary64.is_finite p = true → Binary64.is_zero p = false →
    add_carbon_tax [r] settings = [r]) ∧
   (Binary64.is_finite e = false →
    fillna0 <$> (Cost_per_MMBtu <$> add_carbon_tax [r] settings) = [fzero])) ∧
  (carbon_tax settings = Some (dec 5 1) →
   p = dec 3477 1000 →
   e = dec 5299999999999999 1000000000000000000 ∨ e = dec 53 10000 →
   Cost_per_MMBtu <$> add_carbon_tax [r] settings = [Some (dec 35035 10000)]).
Proof.
  intros Hp He.
  assert (add_carbon_tax [r] settings =
            [ {| Fuel := Fuel r;
                 Cost_per_MMBtu := Some (fadd p (fmul e (ctax_of settings)));
                 CO2_content_tons_per_MMBtu := Some e |} ]) as Htax.
  { unfold add_carbon_tax. cbn [fmap list_fmap].
    by rewrite (tax_row_priced _ _ p e). }
  split; [exact Htax|]. split.
  - intros Hfalsy.
    assert (ctax_of settings = fzero) as Hc.
    { unfold ctax_of. destruct (carbon_tax settings) as [c|]; [|done].
      by rewrite (Hfalsy c). }
    split; [exact Hc|]. rewrite Htax, Hc. split.
    + intros Hfe Hfp Hzp. destruct r as [f cost co2]. simpl in *. subst cost co2.
      do 3 f_equal. by destruct e, p as [| | |sp mp xp].
    + intros Hfe. cbn [fmap list_fmap Cost_per_MMBtu].
      by destruct e as [| | |se me xe], p as [[]|[]| |sp mp xp].
  - intros Hc -> He'. rewrite Htax. unfold ctax_of. rewrite Hc.
    destruct He' as [-> | ->]; vm_compute; reflexivity.
Qed.

Lemma carbon_tax_binary64_witness :
  add_carbon_tax (F := double)
    [ {| Fuel := "NG"; Cost_per_MMBtu := Some (dec 3 1);
         CO2_content_tons_per_MMBtu := Some (dec 53 1000) |} ] chained_settings =
  [ {| Fuel := "NG"; Cost_per_MMBtu := Some (dec 3 1);
       CO2_content_tons_per_MMBtu := Some (dec 53 1000) |} ].
Proof.
  destruct (carbon_tax_binary64 chained_settings
              {| Fuel := "NG"; Cost_per_MMBtu := Some (dec 3 1);
                 CO2_content_tons_per_MMBtu := Some (dec 53 1000) |}
              (dec 3 1) (dec 53 1000) eq_refl eq_refl) as (_ & Hzero & _).
  destruct Hzero as (_ & Hsame & _); [intros c [=]|].
  apply Hsame; reflexivity.
Defined.

Lemma model_year_prices_last_row_witness :
  ∃ prices,
    model_year_prices (F := double) no_user_prices example_prices
      example_settings = Ok prices ∧
    prices !! "NG" = Some (dec 3 1) ∧ prices !! "coal" = None.
Proof.
  destruct (model_year_prices_last_row no_user_prices example_prices
              example_settings 2030%Z eq_refl) as (prices & Hprices & Hlast).
  exists prices. split; [exact Hprices|].
  split; rewrite Hlast; reflexivity.
Defined.


Lemma ccs_fuel_column_witness :
  ∃ t,
    fuel_cost_table (F := double) no_user_prices example_prices example_roster
      example_settings = Ok t ∧
    ∀ i values, (i, values) ∈ rows t →
      values !! 1%nat =
        Some (if decide (i = 0%Z) then dec 53 10000 else dec 35 10).
Proof.
  destruct (fuel_cost_table (F := double) no_user_prices example_prices
              example_roster example_settings) as [t|e] eqn:Hok;
    [|vm_compute in Hok; discriminate].
  assert (columns t !! 1%nat = Some "NG_ccs") as Hj.
  { apply fuel_cost_table_Ok in Hok as (? & ? & _ & _ & ->). reflexivity. }
  assert ("NG" ∉ ccs_fuels_of example_roster) as Hbase.
  { intros [_ Hc]%elem_of_ccs_fuels_of. vm_compute in Hc. discriminate. }
  exists t. split; [reflexivity|]. intros i values Hin.
  rewrite (proj1 (ccs_fuel_column no_user_prices example_prices example_roster
                    example_settings t 1 "NG_ccs" _ _ _ (dec 3 1) (dec 10 1)
                    (dec 9 10) Hok Hj eq_refl Hbase eq_refl eq_refl eq_refl
                    eq_refl eq_refl eq_refl) i values Hin).
  destruct (decide (i = 0%Z)); reflexivity.
Defined.

Lemma fuel_cost_table_succeeds_witness :
  ∃ t, fuel_cost_table (F := double) no_user_prices example_prices
         example_roster example_settings = Ok t.
Proof.
  apply (fuel_cost_table_succeeds no_user_prices example_prices example_roster
           example_settings _ _ eq_refl eq_refl).
  - intros _. split; eexists; reflexivity.
  - intros f Hin Hc.
    repeat (apply elem_of_cons in Hin as [->|Hin];
            [try (vm_compute in Hc; discriminate)|]);
      [|by apply elem_of_nil in Hin].
    split; [eexists; reflexivity|]. split; [eexists; reflexivity|].
    eexists. split; [reflexivity|]. eexists. reflexivity.
Defined.

Lemma missing_settings_fatal_witness :
  fuel_cost_table (F := double) no_user_prices example_prices []
    {| model_year := Some 2030%Z;
       fuel_emission_factors := None;
       ccs_disposal_cost := None;
       ccs_capture_rate := None;
       carbon_tax := None;
       reduce_time_domain := None;
       time_domain_days_per_period := None;
       time_domain_periods := None |} = Err KeyError.
Proof.
  apply missing_settings_fatal. right. left. reflexivity.
Defined.

End FuelsProps.

(** * More facts about run_powergenome_multiple_outputs_cli.py *)

Module ScenarioProps.
Import Scenario ScenarioFacts Main.

(** *** The planning periods *)

Lemma elem_of_zip_lookup {A B} (xs : list A) (ys : list B) (x : A) (y : B) :
  (x, y) ∈ zip xs ys ↔ ∃ i, xs !! i = Some x ∧ ys !! i = Some y.
Proof.
  rewrite list_elem_of_lookup. split.
  - intros (i & Hi). exists i.
    apply lookup_zip_with_Some in Hi as (a & b & [= -> ->] & Ha & Hb). done.
  - intros (i & Hx & Hy). exists i. apply lookup_zip_with_Some. by exists x, y.
Qed.

(** An entry of the planning periods is a year of [model_year], stored under
    itself, with the start year of the same position. *)
Lemma model_planning_period_dict_entries settings periods :
  model_planning_period_dict settings = Ok periods →
  ∃ model_year model_first_planning_year years start_years,
    setting settings "model_year" = Ok model_year ∧
    setting settings "model_first_planning_year" = Ok model_first_planning_year ∧
    iter model_year = Ok years ∧
    iter model_first_planning_year = Ok start_years ∧
    ∀ y planning, dict_get y periods = Some planning →
      planning.2 = VKey y ∧
      ∃ i, years !! i = Some (VKey y) ∧ start_years !! i = Some planning.1.
Proof.
  unfold model_planning_period_dict. intros H.
  apply bind_Ok in H as (my & Hmy & H).
  apply bind_Ok in H as (fp & Hfp & H).
  apply bind_Ok in H as (years & Hyears & H).
  apply bind_Ok in H as (starts & Hstarts & H).
  exists my, fp, years, starts. do 4 (split; [done|]).
  apply (for_each_invariant
           (λ d, ∀ y planning, dict_get y d = Some planning →
                   planning.2 = VKey y ∧
                   ∃ i, years !! i = Some (VKey y) ∧
                        starts !! i = Some planning.1)
           _ _ _ _ H).
  - done.
  - intros d [yv sv] d' Hin Hd Hstep.
    apply bind_Ok in Hstep as (k & Hk & [= <-]).
    destruct k as [k|]; [|done].
    assert (yv = VKey k) as -> by (destruct yv; simplify_eq/=; done).
    intros y planning. destruct (decide (k = y)) as [->|Hne].
    + rewrite dict_get_set_eq. intros [= <-]. split; [done|].
      by apply elem_of_zip_lookup.
    + rewrite dict_get_set_ne by done. apply Hd.
Qed.

(** *** What a successful build went through *)

Lemma build_scenario_settings_cases settings scenario_definitions
    case_id_name_map scenario_settings :
  build_scenario_settings settings scenario_definitions case_id_name_map
    = Ok scenario_settings →
  ∃ periods,
    model_planning_period_dict settings = Ok periods ∧
    ∀ y, y ∈ year <$> rows scenario_definitions →
      ∃ sm pysm,
        setting settings "settings_management" = Ok sm ∧
        subscript sm (Some y) = Ok pysm ∧
        ∀ c, c ∈ case_id <$> rows scenario_definitions →
          ∃ s, case_settings settings scenario_definitions periods
                 case_id_name_map pysm
                 (planning_year_scenario_definitions_dict scenario_definitions y)
                 y c = Ok s.
Proof.
  unfold build_scenario_settings. intros Hbuild.
  apply bind_Ok in Hbuild as (periods & Hperiods & Hbuild).
  exists periods. split; [done|]. intros y Hy.
  apply elem_of_drop_duplicates in Hy.
  destruct (for_each_Ok_inv _ _ _ _ Hbuild y Hy) as (d1 & d2 & Hrun).
  apply bind_Ok in Hrun as (of_year & Hrun & _).
  unfold planning_year_settings in Hrun.
  apply bind_Ok in Hrun as (sm & Hsm & Hrun).
  apply bind_Ok in Hrun as (pysm & Hpysm & Hrun).
  exists sm, pysm. do 2 (split; [done|]). intros c Hc.
  apply elem_of_drop_duplicates in Hc.
  destruct (for_each_Ok_inv _ _ _ _ Hrun c Hc) as (e1 & e2 & Hcase).
  apply bind_Ok in Hcase as (s & Hcase & _). by exists s.
Qed.

(** X9 -- what the build needs: it returns only if every year of the table
    has exactly one row for every case id of the table, every case id has a
    name, the planning periods hold every year of the table, and
    [settings_management] holds every year of the table.  A table in which a
    case lacks a year, or has a year twice, makes the build raise. *)
Theorem build_scenario_settings_needs settings scenario_definitions
    case_id_name_map scenario_settings :
  build_scenario_settings settings scenario_definitions case_id_name_map
    = Ok scenario_settings →
  one_row_per_case scenario_definitions ∧
  names_of_cases scenario_definitions case_id_name_map ∧
  planning_of_years settings scenario_definitions ∧
  ∀ y, y ∈ year <$> rows scenario_definitions →
    ∃ sm pysm,
      setting settings "settings_management" = Ok sm ∧
      subscript sm (Some y) = Ok pysm.
Proof.
  intros (periods & Hperiods & Hyears)%build_scenario_settings_cases.
  assert (∀ y c, y ∈ year <$> rows scenario_definitions →
            c ∈ case_id <$> rows scenario_definitions →
            (∃ r, filter (λ r, case_id r = c ∧ year r = y)
                    (rows scenario_definitions) = [r]) ∧
            is_Some (dict_get y periods) ∧
            is_Some (dict_get c case_id_name_map)) as Hcase.
  { intros y c Hy Hc. destruct (Hyears y Hy) as (sm & pysm & _ & _ & Hcases).
    destruct (Hcases c Hc) as (s & Hs). unfold case_settings in Hs.
    apply bind_Ok in Hs as (r & Hr & Hs).
    apply bind_Ok in Hs as ([ms s'] & _ & Hs).
    apply bind_Ok in Hs as (planning & Hplanning%getitem_Ok & Hs).
    apply bind_Ok in Hs as (name & Hname%getitem_Ok & _).
    split; [|by eauto]. exists r. unfold squeeze in Hr.
    destruct (filter _ (rows scenario_definitions)) as [|r0 [|r1 l]];
      by simplify_eq. }
  split; [|split; [|split]].
  - intros y c Hy Hc. by destruct (Hcase y c Hy Hc).
  - intros c Hc. pose proof Hc as (r & _ & Hr)%list_elem_of_fmap.
    assert (year r ∈ year <$> rows scenario_definitions) as Hy
      by (apply list_elem_of_fmap; by exists r).
    by destruct (Hcase (year r) c Hy Hc) as (_ & _ & ?).
  - exists periods. split; [done|]. intros y Hy.
    pose proof Hy as (r & _ & Hr)%list_elem_of_fmap.
    assert (case_id r ∈ case_id <$> rows scenario_definitions) as Hc
      by (apply list_elem_of_fmap; by exists r).
    by destruct (Hcase y (case_id r) Hy Hc) as (_ & ? & _).
  - intros y Hy. destruct (Hyears y Hy) as (sm & pysm & ? & ? & _). by eauto.
Qed.

(** X10 -- the planning period of a resolved [Settings]: whatever the patches
    set, [model_year] is the year the [Settings] is stored under, a scalar,
    and [model_first_planning_year] is the start year that stands in
    [settings["model_first_planning_year"]] at a position where
    [settings["model_year"]] has that year. *)
Theorem resolved_model_year settings scenario_definitions case_id_name_map
    scenario_settings y c s :
  build_scenario_settings settings scenario_definitions case_id_name_map
    = Ok scenario_settings →
  resolved scenario_settings y c = Some s →
  dict_get (KStr "model_year") (items s) = Some (VKey y) ∧
  ∃ model_year model_first_planning_year years start_years i start_year,
    setting settings "model_year" = Ok model_year ∧
    setting settings "model_first_planning_year" = Ok model_first_planning_year ∧
    iter model_year = Ok years ∧
    iter model_first_planning_year = Ok start_years ∧
    years !! i = Some (VKey y) ∧
    start_years !! i = Some start_year ∧
    dict_get (KStr "model_first_planning_year") (items s) = Some start_year.
Proof.
  intros Hbuild Hs.
  destruct (resolved_case_settings _ _ _ _ _ _ _ Hbuild Hs)
    as (periods & sm & pysm & Hperiods & _ & _ & Hcase).
  destruct (model_planning_period_dict_entries _ _ Hperiods)
    as (my & fp & years & starts & Hmy & Hfp & Hyears & Hstarts & Hentries).
  unfold case_settings in Hcase.
  apply bind_Ok in Hcase as (r & _ & Hcase).
  apply bind_Ok in Hcase as ([ms s'] & _ & Hcase).
  apply bind_Ok in Hcase as (planning & Hplanning%getitem_Ok & Hcase).
  apply bind_Ok in Hcase as (name & _ & [= <-]).
  destruct (Hentries y planning Hplanning) as (Hy & i & Hi & Hstart).
  simpl. split.
  - rewrite dict_get_set_ne by done. by rewrite dict_get_set_eq, Hy.
  - exists my, fp, years, starts, i, planning.1. do 6 (split; [done|]).
    rewrite !dict_get_set_ne by done. by rewrite dict_get_set_eq.
Qed.

(** *** The case names *)

Lemma contains_char_cons (c a : ascii) (t : string) :
  contains (String c "") (String a t) = Ascii.eqb a c || contains (String c "") t.
Proof.
  cbn [contains String.prefix]. destruct (ascii_dec c a) as [<-|Hne].
  - rewrite (proj2 (Ascii.eqb_eq c c)) by done. by destruct t.
  - rewrite (proj2 (Ascii.eqb_neq a c)); [done | by intros ->].
Qed.

Lemma replace_space_spec (s : string) :
  contains " " (replace_space s) = false ∧
  String.length (replace_space s) = String.length s ∧
  (contains " " s = false → replace_space s = s).
Proof.
  induction s as [|a s (IH1 & IH2 & IH3)]; [done|]. cbn [replace_space].
  rewrite !contains_char_cons. split; [|split].
  - rewrite IH1. destruct (Ascii.eqb a " ") eqn:Ha; [done|]. by rewrite Ha.
  - simpl. by rewrite IH2.
  - destruct (Ascii.eqb a " "); [done|]. simpl. intros Hs. by rewrite IH3.
Qed.

(** The name of a case is made from the last line of the case. *)
Lemma build_case_id_name_map_last case_id_name_df c :
  dict_get c (build_case_id_name_map case_id_name_df) =
    (λ line, replace_space line.2)
      <$> last (filter (λ line, line.1 = c) case_id_name_df).
Proof.
  unfold build_case_id_name_map. rewrite foldl_fmap.
  rewrite (dict_get_foldl_dict_set (λ line, line.1)
             (λ line : key * string, replace_space line.2)).
  by destruct (last (filter _ case_id_name_df)).
Qed.

(** X11 -- the name of a case: [case_name] of a resolved [Settings] is the
    description that the last line of the case has in the case description
    file, with every space replaced by an underscore; it has no space and
    the length of the description, and a description without spaces is kept
    as it is. *)
Theorem case_name_of_description settings scenario_definitions case_id_name_df
    scenario_settings y c s :
  build_scenario_settings settings scenario_definitions
    (build_case_id_name_map case_id_name_df) = Ok scenario_settings →
  resolved scenario_settings y c = Some s →
  ∃ description,
    last (filter (λ line, line.1 = c) case_id_name_df) = Some (c, description) ∧
    dict_get (KStr "case_name") (items s)
      = Some (VStr (replace_space description)) ∧
    contains " " (replace_space description) = false ∧
    String.length (replace_space description) = String.length description ∧
    (contains " " description = false → replace_space description = description).
Proof.
  intros Hbuild Hs.
  destruct (resolved_case_settings _ _ _ _ _ _ _ Hbuild Hs)
    as (periods & sm & pysm & _ & _ & _ & Hcase).
  apply case_settings_case_name in Hcase as (name & Hname & Hcn).
  rewrite build_case_id_name_map_last in Hname.
  destruct (last (filter (λ line, line.1 = c) case_id_name_df))
    as [[c' description]|] eqn:Hlast; [|done].
  injection Hname as <-.
  assert (c' = c) as ->.
  { apply last_Some_elem_of in Hlast.
    by apply list_elem_of_filter in Hlast as [? _]. }
  exists description. split; [done|]. split; [done|]. apply replace_space_spec.
Qed.

(** *** The checks of [main] *)

Lemma length_list_ascii_of_string (s : string) :
  length (list_ascii_of_string s) = String.length s.
Proof. induction s as [|a s IH]; simpl; [done | by rewrite IH]. Qed.

Lemma len_iter v n :
  len v = Ok n → ∃ xs, iter v = Ok xs ∧ length xs = n.
Proof.
  destruct v as [|[| |s]|o xs|o es]; simpl; try done; intros [= <-].
  - eexists. split; [done|]. unfold chars.
    by rewrite length_fmap, length_list_ascii_of_string.
  - by eauto.
  - eexists. split; [done|]. unfold dict_keys. by rewrite !length_fmap.
Qed.

Lemma assert_Ok (condition : bool) (u : ()) :
  assert condition = Ok u → condition = true.
Proof. by destruct condition. Qed.

Lemma set_eq_true (a : list key) (b : list (option key)) :
  set_eq a b = true ↔ ∀ k, k ∈ b ↔ ∃ y, k = Some y ∧ y ∈ a.
Proof.
  unfold set_eq. rewrite andb_true_iff, !forallb_forall. split.
  - intros [Hab Hba] k. split.
    + intros Hk%list_elem_of_In. specialize (Hba k Hk).
      apply bool_decide_eq_true in Hba.
      apply list_elem_of_fmap in Hba as (y & -> & Hy). by exists y.
    + intros (y & -> & Hy%list_elem_of_In). specialize (Hab y Hy).
      by apply bool_decide_eq_true in Hab.
  - intros H. split.
    + intros y Hy%list_elem_of_In. apply bool_decide_eq_true. apply H. by exists y.
    + intros k Hk%list_elem_of_In. apply bool_decide_eq_true.
      apply H in Hk as (y & -> & Hy). apply list_elem_of_fmap. by exists y.
Qed.

Lemma planning_loop_Ok years (ks : list (option key)) :
  Forall2 (λ y k, hash_key y = Ok k) years ks →
  ∀ (start_years : list value) d0,
    length years = length start_years →
    ∃ d,
      for_each (zip years start_years)
        (λ d '(year, start_year),
           k ← hash_key year;
           Ok (match k with
               | Some k => dict_set k (start_year, year) d
               | None => d
               end)) d0 = Ok d ∧
      ∀ k, k ∈ dict_keys d ↔ k ∈ dict_keys d0 ∨ Some k ∈ ks.
Proof.
  induction 1 as [|y k years ks Hy _ IH]; intros starts d0 Hlen.
  - exists d0. split; [done|]. intros k. rewrite elem_of_nil. tauto.
  - destruct starts as [|s starts]; [done|]. injection Hlen as Hlen.
    cbn [zip zip_with for_each]. rewrite Hy. simpl.
    destruct k as [k|].
    + destruct (IH starts (dict_set k (s, y) d0) Hlen) as (d & Hd & Hkeys).
      exists d. split; [done|]. intros k'.
      rewrite Hkeys, elem_of_dict_keys_set, elem_of_cons.
      split; [intros [[->|?]|?]; eauto | intros [?|[[= ->]|?]]; eauto].
    + destruct (IH starts d0 Hlen) as (d & Hd & Hkeys).
      exists d. split; [done|]. intros k'. rewrite Hkeys, elem_of_cons.
      split; [intros [?|?]; eauto | intros [?|[[=]|?]]; eauto].
Qed.

(** X12 -- the two checks of [main] give the build its planning periods:
    when they pass, the planning periods are built without failure and hold
    the years of the scenario table, and no other year. *)
Theorem checked_years_cover settings scenario_definitions :
  check_model_years settings scenario_definitions = Ok () →
  planning_of_years settings scenario_definitions ∧
  ∃ periods,
    model_planning_period_dict settings = Ok periods ∧
    ∀ y, is_Some (dict_get y periods) ↔ y ∈ year <$> rows scenario_definitions.
Proof.
  unfold check_model_years. intros H.
  apply bind_Ok in H as (my & Hmy & H).
  apply bind_Ok in H as (ks & Hks & H).
  apply bind_Ok in H as (u & Heq%assert_Ok & H).
  apply bind_Ok in H as (my' & Hmy' & H).
  rewrite Hmy in Hmy'. injection Hmy' as <-.
  apply bind_Ok in H as (n & Hn & H).
  apply bind_Ok in H as (fp & Hfp & H).
  apply bind_Ok in H as (m & Hm & Hnm%assert_Ok).
  apply bool_decide_eq_true in Hnm as <-.
  unfold set_of in Hks. apply bind_Ok in Hks as (years & Hyears & Hks).
  apply map_rows_Ok in Hks.
  destruct (len_iter _ _ Hn) as (years' & Hyears' & Hlen).
  rewrite Hyears in Hyears'. injection Hyears' as <-.
  destruct (len_iter _ _ Hm) as (starts & Hstarts & Hlen').
  destruct (planning_loop_Ok years ks Hks starts [])
    as (periods & Hperiods & Hkeys); [congruence|].
  assert (model_planning_period_dict settings = Ok periods) as Hrun.
  { unfold model_planning_period_dict. rewrite Hmy, Hfp. simpl.
    rewrite Hyears, Hstarts. exact Hperiods. }
  assert (∀ y, is_Some (dict_get y periods)
               ↔ y ∈ year <$> rows scenario_definitions) as Hcover.
  { intros y. rewrite dict_get_is_Some, Hkeys.
    rewrite (proj1 (set_eq_true _ _) Heq (Some y)). split.
    - intros [?%elem_of_nil|(y' & [= <-] & Hy)]; done.
    - intros Hy. right. by exists y. }
  split.
  - exists periods. split; [done|]. intros y Hy. by apply Hcover.
  - by exists periods.
Qed.

(** *** The keys of a resolved [Settings] *)

Lemma items_foldl_setitem {A} (f : A → key) (g : A → value) (l : list A) s :
  items (foldl (λ s x, setitem (f x) (g x) s) s l) =
    foldl (λ d x, dict_set (f x) (g x) d) (items s) l.
Proof. revert s. induction l as [|x l IH]; intros s; simpl; [done | by rewrite IH]. Qed.

Lemma dict_keys_foldl_dict_set {A K V} `{EqDecision K} (f : A → K) (g : A → V)
    (l : list A) (d : list (K * V)) (k : K) :
  k ∈ dict_keys (foldl (λ d x, dict_set (f x) (g x) d) d l) ↔
  k ∈ dict_keys d ∨ k ∈ f <$> l.
Proof.
  revert d. induction l as [|x l IH]; intros d; simpl.
  - rewrite elem_of_nil. tauto.
  - rewrite IH, elem_of_dict_keys_set, elem_of_cons. tauto.
Qed.

Lemma foldl_dict_set_other {A K V} `{EqDecision K} (f : A → K) (g : A → V)
    (l : list A) (d : list (K * V)) (k : K) :
  k ∉ f <$> l →
  dict_get k (foldl (λ d x, dict_set (f x) (g x) d) d l) = dict_get k d.
Proof.
  revert d. induction l as [|x l IH]; intros d; simpl; [done|].
  intros [Hne Hk]%not_elem_of_cons. rewrite IH by done.
  by apply dict_get_set_ne.
Qed.

Lemma foldl_dict_set_once {A K V} `{EqDecision K} (f : A → K) (g : A → V)
    (l : list A) (d : list (K * V)) (x : A) :
  NoDup (f <$> l) → x ∈ l →
  dict_get (f x) (foldl (λ d x, dict_set (f x) (g x) d) d l) = Some (g x).
Proof.
  revert d. induction l as [|x0 l IH]; intros d; simpl.
  - by intros _ ?%elem_of_nil.
  - intros [Hx0 Hnd]%NoDup_cons [->|Hin]%elem_of_cons.
    + rewrite foldl_dict_set_other by done. apply dict_get_set_eq.
    + by apply IH.
Qed.

Lemma categories_of_imap (l : list string) :
  (imap (λ j category, (j, category)) l).*2 = l.
Proof.
  rewrite fmap_imap. rewrite <- (list_fmap_id l) at 2. rewrite <- imap_const.
  by apply imap_ext.
Qed.

Lemma category_keys_of_imap (l : list string) :
  (λ jc : nat * string, KStr jc.2) <$> imap (λ j category, (j, category)) l
    = KStr <$> l.
Proof.
  rewrite <- (categories_of_imap l) at 2. by rewrite <- list_fmap_compose.
Qed.

Lemma overlay_columns_keys tbl r s k :
  k ∈ dict_keys (items (overlay_columns tbl r s)) ↔
  k ∈ dict_keys (items s) ∨ k ∈ KStr <$> columns tbl.
Proof.
  unfold overlay_columns, columns.
  rewrite (items_foldl_setitem (λ jc, KStr jc.2)
             (λ jc : nat * string, value_of_cell (cell_at r jc.1))).
  rewrite dict_keys_foldl_dict_set. simpl.
  rewrite !elem_of_dict_keys_set, !elem_of_cons.
  rewrite category_keys_of_imap. tauto.
Qed.

Lemma overlay_columns_get tbl r s :
  NoDup (columns tbl) →
  dict_get (KStr "case_id") (items (overlay_columns tbl r s))
    = Some (VKey (case_id r)) ∧
  dict_get (KStr "year") (items (overlay_columns tbl r s))
    = Some (VKey (year r)) ∧
  ∀ j category, categories tbl !! j = Some category →
    dict_get (KStr category) (items (overlay_columns tbl r s))
      = Some (value_of_cell (cell_at r j)).
Proof.
  unfold columns. intros [Hc [Hy Hnd]%NoDup_cons]%NoDup_cons.
  apply not_elem_of_cons in Hc as [_ Hc].
  unfold overlay_columns.
  rewrite (items_foldl_setitem (λ jc, KStr jc.2)
             (λ jc : nat * string, value_of_cell (cell_at r jc.1))).
  assert (∀ name, name ∉ categories tbl →
            KStr name ∉ (λ jc : nat * string, KStr jc.2)
              <$> imap (λ j category, (j, category)) (categories tbl)) as Hother.
  { intros name Hname. rewrite category_keys_of_imap.
    intros (c & [= <-] & Hin)%list_elem_of_fmap. done. }
  split; [|split].
  - rewrite foldl_dict_set_other by by apply Hother. simpl.
    rewrite dict_get_set_ne by done. apply dict_get_set_eq.
  - rewrite foldl_dict_set_other by by apply Hother. simpl.
    apply dict_get_set_eq.
  - intros j category Hj.
    apply (foldl_dict_set_once (λ jc : nat * string, KStr jc.2)
             (λ jc, value_of_cell (cell_at r jc.1)) _ _ (j, category)).
    + rewrite category_keys_of_imap.
      assert (Inj (=) (=) KStr) as Hinj by (by intros a b [= ->]).
      by apply (NoDup_fmap_2 KStr).
    + by apply (elem_of_lookup_imap_2 (λ j category, (j, category))).
Qed.

Lemma foldl_update_key_keys pes bes k :
  k ∈ dict_keys bes → k ∈ dict_keys (foldl update_key bes pes).
Proof.
  revert bes. induction pes as [|kv pes IH]; intros bes Hk; simpl; [done|].
  apply IH. unfold update_key. apply elem_of_dict_keys_set. by right.
Qed.

(** One category keeps the keys of [_settings], and the values under the
    keys that the selected patch does not set. *)
Lemma apply_category_frame pysm c ms s item ms' s' :
  apply_category pysm c (ms, s) item = Ok (ms', s') →
  (∀ k, k ∈ dict_keys (items s) → k ∈ dict_keys (items s')) ∧
  (∀ k, (∀ category case_value patch,
           find_patch pysm category case_value = Ok patch →
           k ∉ dict_keys (items patch)) →
        dict_get k (items s') = dict_get k (items s)).
Proof.
  destruct item as [category cvd]. rewrite apply_category_find_patch.
  intros [Hbody|[_ [= -> ->]]]%catch_KeyError_Ok; [|done].
  apply bind_Ok in Hbody as (cv & _ & Hbody).
  apply bind_Ok in Hbody as (patch & Hpatch & Hbody).
  apply bind_Ok in Hbody as (ms1 & _ & [= <- <-]). simpl. split.
  - intros k. apply foldl_update_key_keys.
  - intros k Hk. apply foldl_update_key_other. by eapply Hk.
Qed.

Lemma category_loop_frame pysm c l ms s ms' s' :
  for_each l (apply_category pysm c) (ms, s) = Ok (ms', s') →
  (∀ k, k ∈ dict_keys (items s) → k ∈ dict_keys (items s')) ∧
  (∀ k, (∀ category case_value patch,
           find_patch pysm category case_value = Ok patch →
           k ∉ dict_keys (items patch)) →
        dict_get k (items s') = dict_get k (items s)).
Proof.
  intros Hloop.
  apply (for_each_invariant
           (λ st, (∀ k, k ∈ dict_keys (items s) → k ∈ dict_keys (items st.2)) ∧
                  (∀ k, (∀ category case_value patch,
                           find_patch pysm category case_value = Ok patch →
                           k ∉ dict_keys (items patch)) →
                        dict_get k (items st.2) = dict_get k (items s)))
           _ _ _ _ Hloop); [done|].
  intros [ms1 s1] item [ms2 s2] _ [Hkeys Hget] Hstep. simpl in *.
  destruct (apply_category_frame _ _ _ _ _ _ _ Hstep) as [Hkeys' Hget'].
  split.
  - intros k Hk. by apply Hkeys', Hkeys.
  - intros k Hk. by rewrite Hget', Hget.
Qed.

(** X13 -- no key is lost: a resolved [Settings] has every key of the base
    settings, every column name of the scenario table, and [model_year],
    [model_first_planning_year] and [case_name]. *)
Theorem resolved_keys settings scenario_definitions case_id_name_map
    scenario_settings y c s k :
  build_scenario_settings settings scenario_definitions case_id_name_map
    = Ok scenario_settings →
  resolved scenario_settings y c = Some s →
  k ∈ dict_keys (items settings) ∨
  k ∈ KStr <$> columns scenario_definitions ∨
  k ∈ KStr <$> final_keys →
  k ∈ dict_keys (items s).
Proof.
  intros Hbuild Hs Hk.
  destruct (resolved_case_settings _ _ _ _ _ _ _ Hbuild Hs)
    as (periods & sm & pysm & _ & _ & _ & Hcase).
  unfold case_settings in Hcase.
  apply bind_Ok in Hcase as (r & _ & Hcase).
  apply bind_Ok in Hcase as ([ms s'] & Hloop & Hcase).
  apply bind_Ok in Hcase as (planning & _ & Hcase).
  apply bind_Ok in Hcase as (name & _ & [= <-]).
  apply category_loop_frame in Hloop as [Hkeys _]. simpl.
  rewrite !elem_of_dict_keys_set.
  destruct Hk as [Hk|[Hk|Hk]].
  - do 3 right. apply Hkeys, overlay_columns_keys. left.
    unfold deepcopy_mapping, dict_keys in *. simpl.
    rewrite <- list_fmap_compose. exact Hk.
  - do 3 right. apply Hkeys, overlay_columns_keys. by right.
  - unfold final_keys in Hk. simpl in Hk.
    rewrite !elem_of_cons, elem_of_nil in Hk. tauto.
Qed.

(** X14 -- the row of the scenario table is visible in the resolved
    [Settings]: when the column names of the table are distinct, a resolved
    [Settings] holds, under a column name that no patch of the year sets and
    that is not one of the three keys assigned last, the cell of that column
    in the one row of the case and year; [case_id] and [year] are the keys it
    is stored under. *)
Theorem scenario_row_in_settings settings scenario_definitions case_id_name_map
    scenario_settings y c s :
  build_scenario_settings settings scenario_definitions case_id_name_map
    = Ok scenario_settings →
  resolved scenario_settings y c = Some s →
  NoDup (columns scenario_definitions) →
  ∃ r,
    filter (λ r, case_id r = c ∧ year r = y) (rows scenario_definitions) = [r] ∧
    (never_patched settings y (KStr "case_id") →
     dict_get (KStr "case_id") (items s) = Some (VKey c)) ∧
    (never_patched settings y (KStr "year") →
     dict_get (KStr "year") (items s) = Some (VKey y)) ∧
    ∀ j category,
      categories scenario_definitions !! j = Some category →
      category ∉ final_keys →
      never_patched settings y (KStr category) →
      dict_get (KStr category) (items s) = Some (value_of_cell (cell_at r j)).
Proof.
  intros Hbuild Hs Hnd.
  destruct (resolved_case_settings _ _ _ _ _ _ _ Hbuild Hs)
    as (periods & sm & pysm & _ & Hsm & Hpysm & Hcase).
  unfold case_settings in Hcase.
  apply bind_Ok in Hcase as (r & Hr & Hcase).
  apply bind_Ok in Hcase as ([ms s'] & Hloop & Hcase).
  apply bind_Ok in Hcase as (planning & _ & Hcase).
  apply bind_Ok in Hcase as (name & _ & [= <-]).
  apply category_loop_frame in Hloop as [_ Hget].
  assert (filter (λ r, case_id r = c ∧ year r = y) (rows scenario_definitions)
            = [r]) as Hrow.
  { unfold squeeze in Hr.
    destruct (filter _ (rows scenario_definitions)) as [|r0 [|r1 l]];
      by simplify_eq. }
  assert (case_id r = c ∧ year r = y) as [Hc Hy].
  { assert (r ∈ filter (λ r, case_id r = c ∧ year r = y)
                  (rows scenario_definitions)) as Hin
      by (rewrite Hrow; left).
    by apply list_elem_of_filter in Hin as [? _]. }
  destruct (overlay_columns_get scenario_definitions r
              (deepcopy_mapping y c settings) Hnd) as (Hcid & Hyear & Hcells).
  exists r. split; [done|]. simpl.
  assert (∀ k, never_patched settings y k →
            ∀ category case_value patch,
              find_patch pysm category case_value = Ok patch →
              k ∉ dict_keys (items patch)) as Hnever.
  { intros k Hk category case_value patch Hpatch. by eapply Hk. }
  split; [|split].
  - intros Hk. rewrite !dict_get_set_ne by done.
    rewrite Hget by by apply Hnever. by rewrite Hcid, Hc.
  - intros Hk. rewrite !dict_get_set_ne by done.
    rewrite Hget by by apply Hnever. by rewrite Hyear, Hy.
  - intros j category Hj Hfinal Hk.
    unfold final_keys in Hfinal.
    rewrite !not_elem_of_cons in Hfinal. destruct Hfinal as (H1 & H2 & H3 & _).
    rewrite !dict_get_set_ne by congruence.
    rewrite Hget by by apply Hnever. by apply Hcells.
Qed.

(** X17 -- only [KeyError] is skipped: when the two lookups of a category or
    the [.keys()] of what they find raise anything else for a row of the
    table (a variant that holds a number or a list where a patch is
    expected: [AttributeError]; a category that holds a list: [TypeError]),
    the build raises. *)
Theorem uncaught_patch_error settings scenario_definitions case_id_name_map
    r j category sm pysm e :
  NoDup (columns scenario_definitions) →
  r ∈ rows scenario_definitions →
  categories scenario_definitions !! j = Some category →
  setting settings "settings_management" = Ok sm →
  subscript sm (Some (year r)) = Ok pysm →
  find_patch pysm category (cell_at r j) = Err e →
  e ≠ KeyError →
  ∃ e', build_scenario_settings settings scenario_definitions case_id_name_map
          = Err e'.
Proof.
  intros Hnd Hr Hj Hsm Hpysm Hpatch Hne.
  destruct (build_scenario_settings settings scenario_definitions
              case_id_name_map) as [scenario_settings|e'] eqn:Hbuild;
    [exfalso | by eauto].
  apply build_scenario_settings_cases in Hbuild as (periods & _ & Hyears).
  destruct (Hyears (year r)) as (sm' & pysm' & Hsm' & Hpysm' & Hcases).
  { apply list_elem_of_fmap. by exists r. }
  rewrite Hsm in Hsm'. injection Hsm' as <-.
  rewrite Hpysm in Hpysm'. injection Hpysm' as <-.
  destruct (Hcases (case_id r)) as (s & Hs).
  { apply list_elem_of_fmap. by exists r. }
  unfold case_settings in Hs.
  apply bind_Ok in Hs as (r' & Hr' & Hs).
  apply bind_Ok in Hs as ([ms s'] & Hloop & _).
  assert (filter (λ r0, case_id r0 = case_id r ∧ year r0 = year r)
            (rows scenario_definitions) = [r]) as Hrow.
  { unfold squeeze in Hr'.
    assert (r ∈ filter (λ r0, case_id r0 = case_id r ∧ year r0 = year r)
                  (rows scenario_definitions)) as Hin
      by (by apply list_elem_of_filter).
    destruct (filter _ (rows scenario_definitions)) as [|r0 [|r1 l]];
      [done| |done].
    by apply list_elem_of_singleton in Hin as ->. }
  rewrite planning_year_scenario_definitions_dict_columns in Hloop by done.
  pose proof (elem_of_lookup_imap_2
                (pivot_column (filter (λ r0, year r0 = year r)
                                 (rows scenario_definitions)))
                _ _ _ Hj) as Hitem.
  destruct (for_each_Ok_inv _ _ _ _ Hloop _ Hitem) as ([ms1 s1] & [ms2 s2] & Hstep).
  unfold pivot_column in Hstep. rewrite apply_category_find_patch in Hstep.
  rewrite (column_dict_one_row _ (λ r0, cell_at r0 j) (case_id r) r) in Hstep
    by (by rewrite filter_case_of_year).
  simpl in Hstep. rewrite Hpatch in Hstep. simpl in Hstep.
  by destruct e.
Qed.

Lemma assert_Err (condition : bool) (e : exn) :
  assert condition = Err e ↔ condition = false ∧ e = AssertionError.
Proof.
  destruct condition; simpl; split; try done.
  - by intros [? _].
  - by intros [= <-].
  - by intros [_ ->].
Qed.

(** X23 -- what the checks of [main] reject: with [model_year] a collection
    of hashable elements and [model_first_planning_year] a collection, the
    checks pass exactly when the years of the scenario table and the elements
    of [model_year] are the same set and the two collections have the same
    length, and fail with [AssertionError] otherwise. *)
Theorem check_model_years_spec settings scenario_definitions model_year
    model_years model_first_planning_year n m :
  setting settings "model_year" = Ok model_year →
  set_of model_year = Ok model_years →
  len model_year = Ok n →
  setting settings "model_first_planning_year" = Ok model_first_planning_year →
  len model_first_planning_year = Ok m →
  (check_model_years settings scenario_definitions = Ok () ↔
   (∀ k, k ∈ model_years ↔
         ∃ y, k = Some y ∧ y ∈ year <$> rows scenario_definitions) ∧ n = m) ∧
  (check_model_years settings scenario_definitions = Ok () ∨
   check_model_years settings scenario_definitions = Err AssertionError).
Proof.
  intros Hmy Hset Hn Hfp Hm. unfold check_model_years.
  rewrite Hmy, Hfp. cbn [mbind result_bind].
  rewrite Hset. cbn [mbind result_bind].
  destruct (set_eq (year <$> rows scenario_definitions) model_years) eqn:Heq;
    cbn [assert mbind result_bind].
  - pose proof (proj1 (set_eq_true _ _) Heq) as Hsame. rewrite Hn. cbn [mbind result_bind].
    rewrite Hm. cbn [mbind result_bind].
    case_bool_decide as Hnm; cbn [assert].
    + split; [|by left]. by split.
    + split; [|by right]. split; [done|]. by intros [_ ?].
  - split; [|by right]. split; [done|]. intros [Hsame _].
    pose proof (proj2 (set_eq_true _ _) Hsame). congruence.
Qed.

Lemma check_model_years_spec_witness :
  check_model_years example_settings staggered_table = Ok () ∧
  (check_model_years clashing_settings staggered_table = Ok () ∨
   check_model_years clashing_settings staggered_table = Err AssertionError).
Proof.
  split.
  - apply (proj1 (check_model_years_spec example_settings staggered_table
             _ _ _ 2 2 eq_refl eq_refl eq_refl eq_refl eq_refl)).
    split; [|reflexivity].
    apply set_eq_true. reflexivity.
  - exact (proj2 (check_model_years_spec clashing_settings staggered_table
             _ _ _ 1 1 eq_refl eq_refl eq_refl eq_refl eq_refl)).
Defined.

(** *** The order of the result *)

Lemma for_each_dict_set_keys {K V} `{EqDecision K} (f : K → result V)
    (xs : list K) (d0 d : list (K * V)) :
  for_each xs (λ d x, v ← f x; Ok (dict_set x v d)) d0 = Ok d →
  NoDup (dict_keys d0 ++ xs) →
  dict_keys d = dict_keys d0 ++ xs.
Proof.
  revert d0. induction xs as [|x xs IH]; intros d0; simpl.
  - intros [= <-] _. by rewrite app_nil_r.
  - intros (d1 & Hd1 & H)%bind_Ok Hnd.
    apply bind_Ok in Hd1 as (v & _ & [= <-]).
    assert (x ∉ dict_keys d0) as Hx.
    { apply NoDup_app in Hnd as (_ & Hd & _). intros Hin.
      apply (Hd _ Hin). left. }
    rewrite (IH _ H); rewrite dict_keys_set_new by done;
      by rewrite <- app_assoc.
Qed.

(** X24 -- the order of the result: the years are the years of the scenario
    table in the order of their first rows, the cases of every year are the
    case ids of the table in the order of their first rows, and the first case
    of the loop of [main] is the case of the first row in the year of the
    first row. *)
Theorem build_scenario_settings_order settings scenario_definitions
    case_id_name_map scenario_settings :
  build_scenario_settings settings scenario_definitions case_id_name_map
    = Ok scenario_settings →
  dict_keys scenario_settings
    = drop_duplicates (year <$> rows scenario_definitions) ∧
  (∀ y of_year, (y, of_year) ∈ scenario_settings →
     dict_keys of_year = drop_duplicates (case_id <$> rows scenario_definitions)) ∧
  (∀ r rest, rows scenario_definitions = r :: rest →
     ∃ s, head (cases_of scenario_settings) = Some (year r, (case_id r, s))).
Proof.
  intros Hbuild. unfold build_scenario_settings in Hbuild.
  apply bind_Ok in Hbuild as (periods & _ & Hbuild).
  pose proof (for_each_dict_set_keys _ _ _ _ Hbuild
                (NoDup_drop_duplicates _)) as Hkeys.
  destruct (for_each_dict_set _ _ _ _ Hbuild) as (Hnd & _ & Hget).
  specialize (Hnd (NoDup_nil_2)).
  assert (∀ y of_year, (y, of_year) ∈ scenario_settings →
            dict_keys of_year
              = drop_duplicates (case_id <$> rows scenario_definitions))
    as Hcases.
  { intros y of_year Hin%(dict_get_NoDup _ _ _ Hnd).
    destruct (Hget _ _ Hin) as [[_ Hyear]|[_ [=]]].
    unfold planning_year_settings in Hyear.
    apply bind_Ok in Hyear as (sm & _ & Hyear).
    apply bind_Ok in Hyear as (pysm & _ & Hyear).
    exact (for_each_dict_set_keys _ _ _ _ Hyear (NoDup_drop_duplicates _)). }
  split; [done|]. split; [done|].
  intros r rest Hrows. rewrite Hrows in *.
  destruct scenario_settings as [|[y of_year] l]; [done|].
  injection Hkeys as -> _.
  specialize (Hcases (year r) of_year ltac:(left)).
  destruct of_year as [|[c s] of_year]; [done|].
  injection Hcases as -> _. by exists s.
Qed.

Lemma build_scenario_settings_order_witness :
  ∃ scenario_settings,
    build_scenario_settings example_settings example_table example_names
      = Ok scenario_settings ∧
    dict_keys scenario_settings = [KInt 2030; KInt 2040].
Proof.
  destruct (build_scenario_settings example_settings example_table example_names)
    as [scenario_settings|e] eqn:Hok; [|vm_compute in Hok; discriminate].
  exists scenario_settings. split; [reflexivity|].
  rewrite (proj1 (build_scenario_settings_order _ _ _ _ Hok)). reflexivity.
Defined.

(** *** The values of a resolved [Settings] *)

Lemma dict_get_deepcopy_mapping y c settings k :
  dict_get k (items (deepcopy_mapping y c settings)) =
    deepcopy y c <$> dict_get k (items settings).
Proof.
  unfold deepcopy_mapping. simpl.
  induction (items settings) as [|[k' v] l IH]; simpl; [done|].
  by case_decide.
Qed.

Lemma overlay_columns_other tbl r s k :
  k ∉ KStr <$> columns tbl →
  dict_get k (items (overlay_columns tbl r s)) = dict_get k (items s).
Proof.
  unfold columns. rewrite !fmap_cons, !not_elem_of_cons.
  intros (Hc & Hy & Hk). unfold overlay_columns.
  rewrite (items_foldl_setitem (λ jc, KStr jc.2)
             (λ jc : nat * string, value_of_cell (cell_at r jc.1))).
  rewrite foldl_dict_set_other by by rewrite category_keys_of_imap.
  simpl. by rewrite !dict_get_set_ne.
Qed.

(** The loop over the categories, from the [n]-th on: a key that no
    selected patch has is left as it is, and a key of a selected patch is
    merged once. *)
Lemma category_loop_values settings tbl sm pysm r of_year :
  setting settings "settings_management" = Ok sm →
  subscript sm (Some (year r)) = Ok pysm →
  filter (λ r', case_id r' = case_id r) of_year = [r] →
  ∀ cats n ms s ms' s',
    cats = drop n (categories tbl) →
    for_each (imap (λ j, pivot_column of_year (n + j)) cats)
      (apply_category pysm (case_id r)) (ms, s) = Ok (ms', s') →
    (∀ k,
       (∀ b other, (n ≤ b)%nat → selected_patch settings tbl r b = Some other →
          k ∉ dict_keys (items other)) →
       dict_get k (items s') = dict_get k (items s)) ∧
    (∀ a patch k pv,
       (n ≤ a)%nat → selected_patch settings tbl r a = Some patch →
       NoDup (dict_keys (items patch)) → (k, pv) ∈ items patch →
       dict_get k (items s') =
         Some (match dict_get k (items s) with
               | Some b => merge_value b pv
               | None => pv
               end)).
Proof.
  intros Hsm Hpysm Hone.
  induction cats as [|category cats IH]; intros n ms s ms' s' Hdrop Hloop.
  - injection Hloop as <- <-. split; [done|].
    intros a patch k pv Ha Hpatch%selected_patch_lt _ _.
    assert (length (drop n (categories tbl)) = 0%nat) as Hlen
      by by rewrite <- Hdrop.
    rewrite length_drop in Hlen. lia.
  - pose proof Hloop as Hwhole.
    assert (categories tbl !! n = Some category) as Hcat.
    { rewrite <- (Nat.add_0_r n), <- lookup_drop, <- Hdrop. done. }
    assert (cats = drop (S n) (categories tbl)) as Hdrop'.
    { rewrite (drop_S _ _ _ Hcat) in Hdrop. by injection Hdrop. }
    rewrite imap_cons in Hloop. cbn [for_each] in Hloop.
    rewrite Nat.add_0_r in Hloop.
    apply bind_Ok in Hloop as ([ms1 s1] & Hstep & Hloop).
    rewrite (imap_ext _ (λ j, pivot_column of_year (S n + j))) in Hloop
      by (intros j x _; simpl; f_equal; lia).
    destruct (IH (S n) ms1 s1 ms' s' Hdrop' Hloop) as [Hframe Hmerge].
    pose proof (selected_patch_find_patch settings tbl _ _ r n category
                  Hsm Hpysm Hcat) as Hsel.
    change (pivot_column of_year n category)
      with (category, column_dict of_year (λ r0, cell_at r0 n)) in Hstep.
    apply (apply_category_Ok _ _ _ _ _ _ (cell_at r n)) in Hstep;
      [|by apply (column_dict_one_row _ (λ r0, cell_at r0 n))].
    destruct Hstep as [(p & Hp & -> & Hnew & ->)|(Hmiss & -> & ->)].
    + rewrite Hp in Hsel. split.
      * intros k Hk. rewrite Hframe by (intros b other Hb; apply Hk; lia).
        simpl. apply foldl_update_key_other. by apply (Hk n p).
      * intros a patch k pv Ha Hpatch Hnd Hin.
        assert (k ∈ dict_keys (items patch)) as Hkeys
          by (apply list_elem_of_fmap; by exists (k, pv)).
        destruct (category_loop_Ok_inv settings tbl sm pysm r of_year
                    Hsm Hpysm Hone _ _ _ _ _ _ Hdrop Hwhole a patch k Ha Hpatch
                    Hkeys) as (_ & _ & Hdisj).
        destruct (decide (a = n)) as [->|Hne].
        -- rewrite Hsel in Hpatch. injection Hpatch as <-.
           rewrite Hframe.
           { simpl. by apply foldl_update_key_patched. }
           intros b other Hb Hother. apply (Hdisj b other); [lia | lia | done].
        -- rewrite (Hmerge a patch k pv) by (done || lia). simpl.
           rewrite foldl_update_key_other; [done|].
           apply (Hdisj n p); [lia | done | done].
    + rewrite Hmiss in Hsel. split.
      * intros k Hk. apply Hframe. intros b other Hb. apply Hk. lia.
      * intros a patch k pv Ha Hpatch Hnd Hin.
        destruct (decide (a = n)) as [->|Hne]; [congruence|].
        apply (Hmerge a patch k pv); (done || lia).
Qed.

(** X22 -- the values of a resolved [Settings], key by key.  Before the
    patches, [_settings] is the deep copy of the base settings with the cells
    of the one row of the case and year stored under the column names.  Under
    a key other than the three assigned last, the resolved [Settings] holds:
    that value merged with the value the patch has for the key, when a patch
    selected by a column of the row has the key; that value unchanged, when
    none has it.  A key that is no column name has the deep copy of the base
    value as that value. *)
Theorem resolved_settings_values settings scenario_definitions case_id_name_map
    scenario_settings y c s :
  build_scenario_settings settings scenario_definitions case_id_name_map
    = Ok scenario_settings →
  resolved scenario_settings y c = Some s →
  NoDup (columns scenario_definitions) →
  well_formed (dict_value settings) = true →
  ∃ r,
    filter (λ r, case_id r = c ∧ year r = y) (rows scenario_definitions) = [r] ∧
    let before :=
      overlay_columns scenario_definitions r (deepcopy_mapping y c settings) in
    (∀ j patch k pv,
       selected_patch settings scenario_definitions r j = Some patch →
       (k, pv) ∈ items patch →
       k ∉ KStr <$> final_keys →
       dict_get k (items s) =
         Some (match dict_get k (items before) with
               | Some b => merge_value b pv
               | None => pv
               end)) ∧
    (∀ k,
       (∀ j patch, selected_patch settings scenario_definitions r j = Some patch →
          k ∉ dict_keys (items patch)) →
       k ∉ KStr <$> final_keys →
       dict_get k (items s) = dict_get k (items before)) ∧
    (∀ k, k ∉ KStr <$> columns scenario_definitions →
       dict_get k (items before) = deepcopy y c <$> dict_get k (items settings)).
Proof.
  intros Hbuild Hs Hnd Hwf.
  destruct (resolved_case_settings _ _ _ _ _ _ _ Hbuild Hs)
    as (periods & sm & pysm & _ & Hsm & Hpysm & Hcase).
  unfold case_settings in Hcase.
  apply bind_Ok in Hcase as (r & Hr & Hcase).
  apply bind_Ok in Hcase as ([ms s'] & Hloop & Hcase).
  apply bind_Ok in Hcase as (planning & _ & Hcase).
  apply bind_Ok in Hcase as (name & _ & [= <-]).
  assert (filter (λ r, case_id r = c ∧ year r = y) (rows scenario_definitions)
            = [r]) as Hrow.
  { unfold squeeze in Hr.
    destruct (filter _ (rows scenario_definitions)) as [|r0 [|r1 l]];
      by simplify_eq. }
  assert (case_id r = c ∧ year r = y) as [<- <-].
  { assert (r ∈ filter (λ r, case_id r = c ∧ year r = y)
                  (rows scenario_definitions)) as Hin
      by (rewrite Hrow; left).
    by apply list_elem_of_filter in Hin as [? _]. }
  rewrite planning_year_scenario_definitions_dict_columns in Hloop by done.
  rewrite (imap_ext _ (λ j', pivot_column
             (filter (λ r', year r' = year r) (rows scenario_definitions))
             (0 + j'))) in Hloop by done.
  destruct (category_loop_values settings scenario_definitions sm pysm r _
              Hsm Hpysm (eq_trans (filter_case_of_year _ _ _) Hrow)
              _ 0%nat _ _ _ _ eq_refl Hloop) as [Hframe Hmerge].
  assert (∀ k, k ∉ KStr <$> final_keys →
            dict_get k (items (setitem (KStr "case_name") (VStr name)
              (setitem (KStr "model_year") planning.2
                 (setitem (KStr "model_first_planning_year") planning.1 s'))))
            = dict_get k (items s')) as Hfinal.
  { intros k. unfold final_keys. rewrite !fmap_cons, !not_elem_of_cons.
    intros (H1 & H2 & H3 & _). simpl. by rewrite !dict_get_set_ne. }
  exists r. split; [done|]. split; [|split].
  - intros j patch k pv Hpatch Hin Hk. rewrite Hfinal by done.
    apply (Hmerge j patch k pv); [lia | done | | done].
    assert (well_formed (dict_value patch) = true) as Hp.
    { destruct (categories scenario_definitions !! j) as [category|] eqn:Hcat;
        [|unfold selected_patch in Hpatch; by rewrite Hcat in Hpatch].
      rewrite (selected_patch_find_patch settings scenario_definitions sm pysm
                 r j category Hsm Hpysm Hcat) in Hpatch.
      destruct (find_patch pysm category (cell_at r j)) as [p|] eqn:Hfind;
        [|done].
      injection Hpatch as ->.
      eapply find_patch_well_formed; [|done].
      eapply subscript_well_formed; [|done].
      by eapply setting_well_formed. }
    by apply well_formed_dict in Hp as [? _].
  - intros k Hk Hfin. rewrite Hfinal by done. apply Hframe.
    intros b other _. apply Hk.
  - intros k Hk. rewrite overlay_columns_other by done.
    apply dict_get_deepcopy_mapping.
Qed.

(** *** The examples *)

Lemma resolved_settings_values_witness :
  ∃ scenario_settings s,
    build_scenario_settings example_settings example_table example_names
      = Ok scenario_settings ∧
    resolved scenario_settings (KInt 2030) (KStr "p1") = Some s ∧
    dict_get (KStr "ng_mult") (items s) = Some (VInt 2) ∧
    dict_get (KStr "ccs") (items s) =
      Some (VDict (Copy (KInt 2030) (KStr "p1") (Obj 8))
              [(KStr "capex", VInt 1); (KStr "opex", VInt 5)]).
Proof.
  destruct (build_scenario_settings example_settings example_table example_names)
    as [scenario_settings|e] eqn:Hok; [|vm_compute in Hok; discriminate].
  destruct (resolved scenario_settings (KInt 2030) (KStr "p1")) as [s|] eqn:Hs;
    [|vm_compute in Hok; injection Hok as <-; vm_compute in Hs; discriminate].
  destruct (resolved_settings_values _ _ _ _ _ _ _ Hok Hs)
    as (r & Hr & Hmerge & _).
  { apply (bool_decide_unpack _). reflexivity. }
  { reflexivity. }
  vm_compute in Hr. injection Hr as <-.
  exists scenario_settings, s. split; [reflexivity|]. split; [exact Hs|]. split.
  - rewrite (Hmerge 0%nat (Mapping (Obj 10)
               [(KStr "ng_mult", VInt 2);
                (KStr "regions", VList (Obj 11) [VStr "a"; VStr "b"])])
               (KStr "ng_mult") (VInt 2)); [reflexivity | reflexivity | left |].
    apply (bool_decide_unpack _). reflexivity.
  - rewrite (Hmerge 1%nat example_patch (KStr "ccs")
               (VDict (Obj 13) [(KStr "capex", VInt 1)]));
      [reflexivity | reflexivity | left |].
    apply (bool_decide_unpack _). reflexivity.
Defined.

Lemma uncaught_patch_error_witness :
  ∃ e', build_scenario_settings scalar_patch_settings clashing_table
          example_names = Err e'.
Proof.
  eapply (uncaught_patch_error scalar_patch_settings clashing_table example_names
            clashing_row 0%nat "ng_price" _ _ AttributeError).
  - apply (bool_decide_unpack _). reflexivity.
  - left.
  - reflexivity.
  - reflexivity.
  - reflexivity.
  - reflexivity.
  - discriminate.
Defined.

Lemma build_scenario_settings_needs_witness :
  one_row_per_case example_table ∧
  names_of_cases example_table example_names ∧
  planning_of_years example_settings example_table.
Proof.
  destruct (build_scenario_settings example_settings example_table example_names)
    as [scenario_settings|e] eqn:Hok; [|vm_compute in Hok; discriminate].
  destruct (build_scenario_settings_needs _ _ _ _ Hok) as (H1 & H2 & H3 & _).
  exact (conj H1 (conj H2 H3)).
Defined.

Lemma resolved_model_year_witness :
  ∃ scenario_settings s,
    build_scenario_settings example_settings example_table example_names
      = Ok scenario_settings ∧
    resolved scenario_settings (KInt 2040) (KStr "p2") = Some s ∧
    dict_get (KStr "model_year") (items s) = Some (VInt 2040).
Proof.
  destruct (build_scenario_settings example_settings example_table example_names)
    as [scenario_settings|e] eqn:Hok; [|vm_compute in Hok; discriminate].
  destruct (resolved scenario_settings (KInt 2040) (KStr "p2")) as [s|] eqn:Hs;
    [|vm_compute in Hok; injection Hok as <-; vm_compute in Hs; discriminate].
  exists scenario_settings, s. split; [reflexivity|]. split; [exact Hs|].
  exact (proj1 (resolved_model_year _ _ _ _ _ _ _ Hok Hs)).
Defined.

Lemma case_name_of_description_witness :
  ∃ scenario_settings s,
    build_scenario_settings example_settings example_table
      (build_case_id_name_map example_descriptions) = Ok scenario_settings ∧
    resolved scenario_settings (KInt 2030) (KStr "p1") = Some s ∧
    dict_get (KStr "case_name") (items s) = Some (VStr "Base_case").
Proof.
  destruct (build_scenario_settings example_settings example_table
              (build_case_id_name_map example_descriptions))
    as [scenario_settings|e] eqn:Hok; [|vm_compute in Hok; discriminate].
  destruct (resolved scenario_settings (KInt 2030) (KStr "p1")) as [s|] eqn:Hs;
    [|vm_compute in Hok; injection Hok as <-; vm_compute in Hs; discriminate].
  exists scenario_settings, s. split; [reflexivity|]. split; [exact Hs|].
  destruct (case_name_of_description _ _ _ _ _ _ _ Hok Hs)
    as (description & Hlast & Hname & _).
  vm_compute in Hlast. injection Hlast as <-. exact Hname.
Defined.

Lemma checked_years_cover_witness :
  planning_of_years example_settings example_table.
Proof.
  exact (proj1 (checked_years_cover example_settings example_table eq_refl)).
Defined.

Lemma resolved_keys_witness :
  ∃ scenario_settings s,
    build_scenario_settings example_settings example_table example_names
      = Ok scenario_settings ∧
    resolved scenario_settings (KInt 2030) (KStr "p1") = Some s ∧
    KStr "settings_management" ∈ dict_keys (items s).
Proof.
  destruct (build_scenario_settings example_settings example_table example_names)
    as [scenario_settings|e] eqn:Hok; [|vm_compute in Hok; discriminate].
  destruct (resolved scenario_settings (KInt 2030) (KStr "p1")) as [s|] eqn:Hs;
    [|vm_compute in Hok; injection Hok as <-; vm_compute in Hs; discriminate].
  exists scenario_settings, s. split; [reflexivity|]. split; [exact Hs|].
  apply (resolved_keys _ _ _ _ _ _ _ _ Hok Hs). left.
  simpl. do 2 right. left.
Defined.

Lemma scenario_row_in_settings_witness :
  ∃ scenario_settings s,
    build_scenario_settings example_settings example_table example_names
      = Ok scenario_settings ∧
    resolved scenario_settings (KInt 2040) (KStr "p1") = Some s ∧
    dict_get (KStr "ng_price") (items s) = Some (VStr "high") ∧
    dict_get (KStr "ccs_capex") (items s) = Some VNaN.
Proof.
  destruct (build_scenario_settings example_settings example_table example_names)
    as [scenario_settings|e] eqn:Hok; [|vm_compute in Hok; discriminate].
  destruct (resolved scenario_settings (KInt 2040) (KStr "p1")) as [s|] eqn:Hs;
    [|vm_compute in Hok; injection Hok as <-; vm_compute in Hs; discriminate].
  assert (NoDup (columns example_table)) as Hnd
    by (apply (bool_decide_unpack _); reflexivity).
  assert (∀ k, never_patched example_settings (KInt 2040) k) as Hnever.
  { intros k sm pysm category case_value patch [= <-] [= <-] Hpatch.
    discriminate Hpatch. }
  destruct (scenario_row_in_settings _ _ _ _ _ _ _ Hok Hs Hnd)
    as (r & Hr & _ & _ & Hcells).
  vm_compute in Hr. injection Hr as <-.
  exists scenario_settings, s. split; [reflexivity|]. split; [exact Hs|]. split.
  - apply (Hcells 0%nat "ng_price" eq_refl); [|apply Hnever].
    apply (bool_decide_unpack _). reflexivity.
  - apply (Hcells 1%nat "ccs_capex" eq_refl); [|apply Hnever].
    apply (bool_decide_unpack _). reflexivity.
Defined.

End ScenarioProps.

(** * Facts about [main] *)

Module MainProps.
Import Scenario Main.

(** *** The order of the regions *)

Lemma str_le_trans (a b c : string) :
  String.leb a b = true → String.leb b c = true → String.leb a c = true.
Proof.
  unfold String.leb. revert b c. induction a as [|x a IH]; intros b c.
  - by destruct c.
  - destruct b as [|y b]; [done|]. destruct c as [|z c]; [by intros _ [=]|].
    cbn [String.compare]. unfold Ascii.compare.
    destruct (N.compare_spec (N_of_ascii x) (N_of_ascii y)) as [Hxy|Hxy|Hxy];
      [| |done];
      (destruct (N.compare_spec (N_of_ascii y) (N_of_ascii z)) as [Hyz|Hyz|Hyz];
       [| |done]).
    + rewrite Hxy, Hyz, N.compare_refl. apply IH.
    + intros _ _. by rewrite (proj2 (N.compare_lt_iff _ _)) by lia.
    + intros _ _. by rewrite (proj2 (N.compare_lt_iff _ _)) by lia.
    + intros _ _. by rewrite (proj2 (N.compare_lt_iff _ _)) by lia.
Qed.

#[local] Instance str_le_transitive : Transitive str_le.
Proof. intros a b c. apply str_le_trans. Qed.

#[local] Instance str_le_total : Total str_le.
Proof. intros a b. apply String.leb_total. Qed.

#[local] Instance str_le_antisymm : AntiSymm (=) str_le.
Proof. intros a b. apply String.leb_antisym. Qed.

Lemma sorted_Permutation (l l' : list string) : l ≡ₚ l' → sorted l = sorted l'.
Proof.
  intros Hp. unfold sorted. apply (Sorted_unique str_le).
  - apply Sorted_merge_sort, _.
  - apply Sorted_merge_sort, _.
  - by rewrite !merge_sort_Permutation.
Qed.

Lemma numbered_zones (zones : list string) :
  (λ zn : string * nat, (zn.1, pretty (zn.2 + 1)%nat))
    <$> zip zones (seq 0 (length zones))
  = imap (λ i zone, (zone, pretty (i + 1)%nat)) zones.
Proof.
  apply list_eq. intros i.
  rewrite list_lookup_fmap, list_lookup_imap, lookup_zip_with.
  destruct (zones !! i) as [z|] eqn:Hz; [|done]. simpl.
  rewrite lookup_seq_lt by by eapply lookup_lt_Some. done.
Qed.

(** X15 -- the numbers of the regions: the map depends on the regions only up
    to their order in the settings, and for distinct regions it lists the
    regions in increasing order of their names, numbered "1", "2", ... *)
Theorem zone_num_map_sorted (model_regions : list string) :
  (∀ model_regions', model_regions ≡ₚ model_regions' →
     zone_num_map model_regions' = zone_num_map model_regions) ∧
  (NoDup model_regions →
   ∃ zones,
     zones ≡ₚ model_regions ∧
     StronglySorted str_le zones ∧
     zone_num_map model_regions
       = imap (λ i zone, (zone, pretty (i + 1)%nat)) zones).
Proof.
  split.
  - intros l' Hp. unfold zone_num_map. by rewrite (sorted_Permutation _ _ Hp).
  - intros Hnd. exists (sorted model_regions).
    assert (sorted model_regions ≡ₚ model_regions) as Hp
      by apply merge_sort_Permutation.
    split; [done|]. split; [apply StronglySorted_merge_sort; apply _|].
    unfold zone_num_map.
    rewrite (foldl_dict_set_new fst (λ zn : string * nat, pretty (zn.2 + 1)%nat)).
    + simpl. apply numbered_zones.
    + simpl. rewrite fst_zip by (rewrite length_seq; lia). by rewrite Hp.
Qed.

Lemma zone_num_map_sorted_witness :
  zone_num_map ["WECC"; "CA_S"; "CA_N"] =
    [("CA_N", "1"); ("CA_S", "2"); ("WECC", "3")].
Proof.
  destruct (proj2 (zone_num_map_sorted ["WECC"; "CA_S"; "CA_N"]))
    as (zones & Hp & Hs & ->).
  { apply (bool_decide_unpack _). reflexivity. }
  assert (zones = ["CA_N"; "CA_S"; "WECC"]) as ->; [|reflexivity].
  apply (Sorted_unique str_le); [by apply StronglySorted_Sorted | | ].
  - repeat constructor.
  - rewrite Hp. by rewrite (Permutation_swap "WECC"), (Permutation_swap "WECC" "CA_N"),
      (Permutation_swap "CA_S" "CA_N").
Defined.

(** *** The fuel numbers *)

Section FuelIndices.

Context `{Arithmetic F}.

Variable add_user_fuel_prices :
  Fuels.Settings F → list (Fuels.PriceRow F) → list (Fuels.PriceRow F).

(** X16 -- [fuel_indices] numbers the rows of the fuel table, not its fuels:
    for a roster without a fuel of that name the column is added last, it has
    one number for each row of the table, and the row labelled [i] (row 0 of
    the emission factors, rows 1..N of the hours) gets the number [i + 1]. *)
Theorem fuel_indices_number_rows fuel_costs generators settings t :
  Fuels.fuel_cost_table add_user_fuel_prices fuel_costs generators settings
    = Ok t →
  "fuel_indices" ∉ generators →
  Fuels.columns (add_fuel_indices t) = Fuels.columns t ++ ["fuel_indices"] ∧
  length (Fuels.rows (add_fuel_indices t)) = length (Fuels.rows t) ∧
  ∀ k i values, Fuels.rows t !! k = Some (i, values) →
    i = Z.of_nat k ∧
    Fuels.rows (add_fuel_indices t) !! k
      = Some (i, values ++ [dec (i + 1) 1]).
Proof.
  intros Ht Hname. unfold add_fuel_indices.
  destruct (list_find (λ c, c = "fuel_indices") (Fuels.columns t))
    as [[j c]|] eqn:Hfind.
  { apply list_find_Some in Hfind as (Hj & -> & _). destruct Hname.
    apply FuelsFacts.fuel_cost_table_Ok in Ht as (? & ? & _ & _ & ->).
    simpl in Hj. apply elem_of_drop_duplicates.
    by eapply list_elem_of_lookup_2. }
  simpl. split; [done|]. split.
  { rewrite length_zip_with, length_fmap, length_seq. lia. }
  intros k i values Hk.
  assert (i = Z.of_nat k) as ->.
  { apply FuelsFacts.fuel_cost_table_Ok in Ht as (? & N & _ & _ & ->).
    simpl in Hk. destruct k as [|k]; [by injection Hk as <- _|].
    simpl in Hk. rewrite list_lookup_fmap in Hk.
    destruct (Fuels.hour_index N !! k) as [h|] eqn:Hh; [|done].
    injection Hk as <- _. by apply FuelsProps.hour_index_label in Hh. }
  split; [done|]. replace (Z.of_nat k + 1)%Z with (Z.of_nat (S k)) by lia.
  rewrite lookup_zip_with, Hk. cbn [mbind option_bind].
  rewrite list_lookup_fmap, lookup_seq_lt by by eapply lookup_lt_Some.
  reflexivity.
Qed.

End FuelIndices.

Lemma fuel_indices_number_rows_witness :
  ∃ t,
    Fuels.fuel_cost_table (F := double) Fuels.no_user_prices Fuels.example_prices
      Fuels.example_roster Fuels.chained_settings = Ok t ∧
    Fuels.columns (add_fuel_indices t) = Fuels.columns t ++ ["fuel_indices"] ∧
    length (Fuels.rows (add_fuel_indices t)) = 25%nat.
Proof.
  destruct (Fuels.fuel_cost_table (F := double) Fuels.no_user_prices
              Fuels.example_prices Fuels.example_roster
              Fuels.chained_settings) as [t|e] eqn:Hok;
    [|vm_compute in Hok; discriminate].
  destruct (fuel_indices_number_rows Fuels.no_user_prices Fuels.example_prices
              Fuels.example_roster Fuels.chained_settings t Hok)
    as (Hcols & Hlen & _).
  { intros Hin. repeat (apply elem_of_cons in Hin as [[=]|Hin]).
    by apply elem_of_nil in Hin. }
  exists t. split; [reflexivity|]. split; [exact Hcols|]. rewrite Hlen.
  apply FuelsFacts.fuel_cost_table_Ok in Hok as (? & N & _ & HN & ->).
  injection HN as <-. cbn [Fuels.rows length].
  rewrite length_fmap, FuelsFacts.length_hour_index. reflexivity.
Defined.

(** *** The loop over the cases *)

Lemma bind_Done {D A B} (r : outcome D A) (k : A → outcome D B) (b : B) :
  r ≫= k = Done b ↔ ∃ a, r = Done a ∧ k a = Done b.
Proof.
  destruct r as [a|f ws]; simpl; split.
  - eauto.
  - intros (a' & [= <-] & Hk). exact Hk.
  - discriminate.
  - intros (a' & [=] & _).
Qed.

Lemma for_every_app {D A S} (xs ys : list A) (body : S → A → outcome D S) (s : S) :
  for_every (xs ++ ys) body s = for_every xs body s ≫= for_every ys body.
Proof.
  revert s. induction xs as [|x xs IH]; intros s; simpl; [done|].
  destruct (body s x) as [s'|f ws]; simpl; [apply IH | done].
Qed.

Lemma for_every_fmap {D A B S} (g : A → B) (xs : list A)
    (body : S → B → outcome D S) (s : S) :
  for_every (g <$> xs) body s = for_every xs (λ s x, body s (g x)) s.
Proof.
  revert s. induction xs as [|x xs IH]; intros s; simpl; [done|].
  destruct (body s (g x)) as [s'|f ws]; simpl; [apply IH | done].
Qed.

(** A property of the state and of the cases that are done. *)
Lemma for_every_invariant {D A S} (P : list A → S → Prop) (xs : list A)
    (body : S → A → outcome D S) (s0 s : S) :
  for_every xs body s0 = Done s →
  P [] s0 →
  (∀ done x rest s1 s2,
     xs = done ++ x :: rest → P done s1 → body s1 x = Done s2 →
     P (done ++ [x]) s2) →
  P xs s.
Proof.
  intros Hrun H0 Hstep.
  assert (∀ todo done s1,
            xs = done ++ todo → P done s1 → for_every todo body s1 = Done s →
            P xs s) as Hgen.
  { induction todo as [|x todo IH]; intros done s1 Hxs Hdone; simpl.
    - intros [= <-]. by rewrite Hxs, app_nil_r.
    - intros (s2 & Hs2 & Hrest)%bind_Done.
      apply (IH (done ++ [x]) s2); [by rewrite <- app_assoc | | done].
      by eapply Hstep. }
  by apply (Hgen xs [] s0).
Qed.

(** A property of the state that holds as long as the loop runs, and a
    property of the failure that ends it. *)
Lemma for_every_outcome {D A S} (P : S → Prop) (Q : failure → Prop) (xs : list A)
    (body : S → A → outcome D S) (s0 : S) :
  P s0 →
  (∀ s x, x ∈ xs → P s →
     match body s x with Done s' => P s' | Failed f _ => Q f end) →
  match for_every xs body s0 with Done s => P s | Failed f _ => Q f end.
Proof.
  revert s0. induction xs as [|x xs IH]; intros s0 H0 Hstep; simpl; [done|].
  pose proof (Hstep s0 x (list_elem_of_here _ _) H0) as Hx.
  destruct (body s0 x) as [s1|f ws]; simpl; [|done].
  apply IH; [done|]. intros s y Hy. apply Hstep. by right.
Qed.

Lemma frames_of_app {D} (name : string) (a b : list (Written D)) :
  frames_of name (a ++ b) = frames_of name a ++ frames_of name b.
Proof. unfold frames_of. by rewrite filter_app, fmap_app. Qed.

Lemma index_flags_of_app {D} (name : string) (a b : list (Written D)) :
  index_flags_of name (a ++ b) = index_flags_of name a ++ index_flags_of name b.
Proof. unfold index_flags_of. by rewrite filter_app, fmap_app. Qed.

Section Loop.

Context `{arithmetic : Arithmetic F}
  `{H : !Collaborators F DataFrame GeoDataFrame GeneratorClusters}.

Abbreviation state := (@State DataFrame GeneratorClusters).
Abbreviation names := (fmap (M := list) (λ w : Written DataFrame, (folder w, file_name w))).

Lemma first_round_Done args zmap path s (st : state) :
  ∃ st' ws,
    first_round args zmap path s st = Done st' ∧
    written st' = written st ++ ws ∧
    names ws = (λ n, (path, n))
                 <$> (if Args.gens args
                      then ["Generators_data.csv"; "Generators_variability.csv"]
                      else []) ∧
    frames_of "Network.csv" ws = [] ∧
    index_flags_of "Generators_data.csv" ws =
      (if Args.gens args then [Some false] else []) ∧
    i st' = (if Args.gens args then i st + 1 else i st)%nat ∧
    (Args.gens args = true → is_Some (gc st') ∧ is_Some (existing_gens st')) ∧
    (Args.gens args = false →
     gc st' = gc st ∧ existing_gens st' = existing_gens st) ∧
    transmission st' =
      (if Args.transmission args then Some (transmission_of args s)
       else transmission st).
Proof.
  unfold first_round, transmission_of.
  destruct (Args.gens args), (Args.transmission args);
    try destruct (create_all_generators _) as [gen_clusters gc'];
    simpl; eexists _, _;
    (split; [reflexivity|]); simpl;
    rewrite <- ?app_assoc; (split; [try reflexivity; by rewrite app_nil_r|]).
  all: repeat split; try done; eauto.
Qed.

Lemma later_round_Done args zmap path s (st : state) :
  (Args.gens args = true → is_Some (gc st) ∧ is_Some (existing_gens st)) →
  ∃ st' ws,
    later_round args zmap path s st = Done st' ∧
    written st' = written st ++ ws ∧
    names ws = (λ n, (path, n))
                 <$> (if Args.gens args
                      then ["Generators_data.csv"; "Generators_variability.csv"]
                      else []) ∧
    frames_of "Network.csv" ws = [] ∧
    index_flags_of "Generators_data.csv" ws =
      (if Args.gens args then [None] else []) ∧
    i st' = i st ∧
    (Args.gens args = true → is_Some (gc st') ∧ is_Some (existing_gens st')) ∧
    transmission st' = transmission st.
Proof.
  unfold later_round. destruct (Args.gens args).
  - intros [[g Hg] [e He]]; [done|]. rewrite Hg, He. simpl.
    destruct (create_all_generators _) as [gen_clusters gc'].
    simpl. eexists _, _. split; [reflexivity|]. simpl.
    rewrite <- app_assoc. split; [reflexivity|].
    repeat split; try done; eauto.
  - intros _. exists st, []. rewrite app_nil_r. by repeat split.
Qed.

Lemma case_tables_outcome args zmap path s (st : state) :
  (Args.transmission args = true → is_Some (transmission st)) →
  (Args.gens args = true → is_Some (gc st)) →
  match case_tables args zmap path s st with
  | Done st' =>
      ∃ ws,
        written st' = written st ++ ws ∧
        names ws = (λ n, (path, n))
                     <$> ((if Args.load args then ["Load_data.csv"] else []) ++
                          (if Args.transmission args then ["Network.csv"] else []) ++
                          (if Args.fuel args && Args.gens args
                           then ["Fuels_data.csv"] else [])) ∧
        frames_of "Network.csv" ws =
          (if Args.transmission args
           then match transmission st with
                | Some t => [add_emission_policies t s]
                | None => []
                end
           else []) ∧
        index_flags_of "Generators_data.csv" ws = [] ∧
        i st' = i st ∧ gc st' = gc st ∧
        existing_gens st' = existing_gens st ∧
        transmission st' = transmission st
  | Failed f _ =>
      f = Raised KeyError ∧ Args.fuel args = true ∧ Args.gens args = true
  end.
Proof.
  unfold case_tables. intros Ht Hg.
  destruct (Args.load args), (Args.transmission args), (Args.fuel args),
    (Args.gens args); simpl;
    try (destruct Ht as [t Ht]; [done|]; rewrite Ht; simpl);
    try (destruct Hg as [g Hg]; [done|]; rewrite Hg; simpl);
    try (destruct (Fuels.fuel_cost_table _ _ _ _) as [fuels|e] eqn:Hfuels; simpl;
         [|split; [f_equal; by eapply FuelsFacts.only_KeyError_fuel_cost_table
                  | done]]);
    eexists; rewrite <- ?app_assoc;
    (split; [try reflexivity; by rewrite app_nil_r|]);
    (split; [reflexivity|]); (split; [reflexivity|]);
    (split; [reflexivity|]); done.
Qed.

Lemma case_outputs_outcome args zmap y c s (st : state) :
  st = initial ∨ bound args st →
  match case_outputs args zmap y st (c, s) with
  | Done st' =>
      bound args st' ∧
      ∃ case_name ws,
        setting s "case_name" = Ok case_name ∧
        written st' = written st ++ ws ∧
        names ws = (λ n, (case_path y c case_name, n)) <$> file_names args ∧
        (Args.gens args = true →
         index_flags_of "Generators_data.csv" ws =
           [if bool_decide (i st = 0%nat) then Some false else None]) ∧
        (Args.transmission args = false → frames_of "Network.csv" ws = []) ∧
        (Args.transmission args = true →
         ∃ t, transmission st' = Some t ∧
              frames_of "Network.csv" ws = [add_emission_policies t s] ∧
              (i st = 0%nat → t = transmission_of args s) ∧
              (i st ≠ 0%nat → transmission st = Some t))
  | Failed f _ =>
      (∃ e, f = Raised e ∧ setting s "case_name" = Err e) ∨
      (f = Raised KeyError ∧ Args.fuel args = true ∧ Args.gens args = true)
  end.
Proof.
  intros Hst. unfold case_outputs, case_folder.
  destruct (setting s "case_name") as [case_name|e]; simpl. 2:{ left. by exists e. }
  set (path := case_path y c case_name).
  case_bool_decide as Hi.
  - destruct (first_round_Done args zmap path s st)
      as (st1 & ws1 & -> & Hw1 & Hn1 & Hf1 & Hx1 & Hi1 & Hg1 & Hg1' & Ht1).
    simpl.
    pose proof (case_tables_outcome args zmap path s st1) as Htables.
    destruct (case_tables args zmap path s st1) as [st2|f ws]; [|right; apply Htables].
    + destruct Htables as (ws2 & Hw2 & Hn2 & Hf2 & Hx2 & Hi2 & Hg2 & He2 & Ht2).
      { intros Ht. rewrite Ht1, Ht. by eauto. }
      { intros Hg. by destruct (Hg1 Hg). }
      split.
      { unfold bound. rewrite Hi2, Hg2, He2, Ht2, Hi1, Ht1, Hi.
        split; [|split].
        - intros Hg. rewrite Hg. by destruct (Hg1 Hg).
        - by intros ->.
        - intros ->. by eauto. }
      exists case_name, (ws1 ++ ws2). split; [done|].
      split; [by rewrite Hw2, Hw1, app_assoc|]. split.
      { rewrite fmap_app, Hn1, Hn2. unfold file_names. symmetry. apply fmap_app. }
      split.
      { intros Hg. by rewrite index_flags_of_app, Hx1, Hx2, Hg. }
      rewrite frames_of_app, Hf1, Hf2, Ht2, Ht1. split.
      * by intros ->.
      * intros Ht. rewrite Ht. eexists. split; [done|]. split; [done|].
        split; [done|]. by intros [].
    + intros Ht. rewrite Ht1, Ht. by eauto.
    + intros Hg. by destruct (Hg1 Hg).
  - destruct Hst as [->|(Hgens & Hnogens & Htrans)]; [done|].
    assert (Args.gens args = true) as Hg.
    { destruct (Args.gens args); [done|]. by destruct Hi, Hnogens. }
    destruct (Hgens Hg) as (Hi1 & Hgc & Hex).
    destruct (later_round_Done args zmap path s st)
      as (st1 & ws1 & -> & Hw1 & Hn1 & Hf1 & Hx1 & Hi1' & Hg1 & Ht1); [done|].
    simpl.
    pose proof (case_tables_outcome args zmap path s st1) as Htables.
    destruct (case_tables args zmap path s st1) as [st2|f ws]; [|right; apply Htables].
    + destruct Htables as (ws2 & Hw2 & Hn2 & Hf2 & Hx2 & Hi2 & Hg2 & He2 & Ht2).
      { intros Ht. rewrite Ht1. by apply Htrans. }
      { intros _. by destruct (Hg1 Hg). }
      split.
      { unfold bound. rewrite Hi2, Hg2, He2, Ht2, Hi1', Ht1.
        split; [|split].
        - intros _. split; [done|]. by apply Hg1.
        - congruence.
        - done. }
      exists case_name, (ws1 ++ ws2). split; [done|].
      split; [by rewrite Hw2, Hw1, app_assoc|]. split.
      { rewrite fmap_app, Hn1, Hn2. unfold file_names. symmetry. apply fmap_app. }
      split.
      { intros _. by rewrite index_flags_of_app, Hx1, Hx2, Hg. }
      rewrite frames_of_app, Hf1, Hf2, Ht2, Ht1. split.
      * by intros ->.
      * intros Ht. rewrite Ht. destruct (Htrans Ht) as [t Hsome].
        rewrite Hsome. exists t. by repeat split.
    + intros Ht. rewrite Ht1. by apply Htrans.
    + intros _. by destruct (Hg1 Hg).
Qed.

(** The two loops are one loop over the cases. *)
Lemma main_loop_cases args zmap scenario_settings :
  NoDup (dict_keys scenario_settings) →
  main_loop args zmap scenario_settings =
    for_every (cases_of scenario_settings)
      (λ st case, case_outputs args zmap case.1 st case.2) initial.
Proof.
  intros Hnd. unfold main_loop.
  assert (∀ l (st : state),
            (∀ y of_year, (y, of_year) ∈ l →
               dict_get y scenario_settings = Some of_year) →
            for_every (dict_keys l)
              (λ st year,
                 of_year ← raise_of (getitem (dict_get year scenario_settings)) st;
                 for_every of_year (case_outputs args zmap year) st) st =
            for_every (cases_of l)
              (λ st case, case_outputs args zmap case.1 st case.2) st) as Hgen.
  { induction l as [|[y of_year] l IH]; intros st Hl; [done|].
    unfold cases_of. cbn [dict_keys fmap list_fmap flat_map fst snd for_every].
    rewrite (Hl y of_year) by left. cbn [getitem raise_of mbind outcome_bind].
    rewrite for_every_app, for_every_fmap. cbn [fst snd].
    destruct (for_every of_year _ st) as [st'|f ws]; [|done].
    cbn [mbind outcome_bind]. apply IH. intros y' oy' Hin. apply Hl. by right. }
  apply Hgen. intros y of_year Hin. by apply dict_get_NoDup.
Qed.

(** The settings that the build resolves have a case name. *)
Lemma build_case_names settings tbl case_id_name_map scenario_settings :
  build_scenario_settings settings tbl case_id_name_map = Ok scenario_settings →
  NoDup (dict_keys scenario_settings) ∧
  ∀ case, case ∈ cases_of scenario_settings →
    ∃ name, setting case.2.2 "case_name" = Ok (VStr name).
Proof.
  intros Hbuild. pose proof Hbuild as Hrun. unfold build_scenario_settings in Hrun.
  apply bind_Ok in Hrun as (periods & _ & Hrun).
  destruct (for_each_dict_set _ _ _ _ Hrun) as (Hnd & _ & Hget).
  specialize (Hnd (NoDup_nil_2)). split; [done|].
  intros [y [c s]]. unfold cases_of. rewrite list_elem_of_In, in_flat_map.
  intros ([y' of_year] & Hin%list_elem_of_In & Hcase%list_elem_of_In).
  apply list_elem_of_fmap in Hcase as ([c' s'] & [= -> -> ->] & Hcs). simpl in *.
  apply (dict_get_NoDup _ _ _ Hnd) in Hin.
  destruct (Hget _ _ Hin) as [[_ Hyear]|[_ [=]]].
  unfold planning_year_settings in Hyear.
  apply bind_Ok in Hyear as (sm & _ & Hyear).
  apply bind_Ok in Hyear as (pysm & _ & Hyear).
  destruct (for_each_dict_set _ _ _ _ Hyear) as (Hnd' & _ & Hget').
  apply (dict_get_NoDup _ _ _ (Hnd' (NoDup_nil_2))) in Hcs.
  destruct (Hget' _ _ Hcs) as [[_ Hs]|[_ [=]]].
  apply ScenarioFacts.case_settings_case_name in Hs as (name & _ & Hname).
  exists name. unfold setting. by rewrite Hname.
Qed.

(** X18 -- the loop of [main] reads no local variable before it is assigned:
    whatever the flags, it can only end with the [KeyError] of a missing
    [case_name] or of the fuel table; on the settings that
    [build_scenario_settings] returns it can only fail in the fuel table,
    that is with the fuels and the generators both asked for. *)
Theorem main_loop_failure args zmap scenario_settings f ws :
  main_loop args zmap scenario_settings = Failed f ws →
  f = Raised KeyError ∧
  ∀ settings tbl case_id_name_map,
    build_scenario_settings settings tbl case_id_name_map = Ok scenario_settings →
    Args.fuel args = true ∧ Args.gens args = true.
Proof.
  intros Hfail. split.
  - pose proof (for_every_outcome
                  (λ st : state, st = initial ∨ bound args st)
                  (λ f, f = Raised KeyError)
                  (dict_keys scenario_settings)
                  (λ st year,
                     of_year ← raise_of
                                 (getitem (dict_get year scenario_settings)) st;
                     for_every of_year (case_outputs args zmap year) st)
                  initial) as Hloop.
    fold (main_loop args zmap scenario_settings) in Hloop.
    rewrite Hfail in Hloop. apply Hloop; [by left|].
    intros st y Hy Hst.
    apply dict_get_is_Some in Hy as [of_year ->]. simpl.
    apply for_every_outcome; [done|].
    intros st' [c s] _ Hst'.
    pose proof (case_outputs_outcome args zmap y c s st' Hst') as Hcase.
    destruct (case_outputs args zmap y st' (c, s)) as [st2|f' ws'].
    + right. apply Hcase.
    + destruct Hcase as [(e & -> & He)|[-> _]]; [|done].
      by apply getitem_Err in He as [_ ->].
  - intros settings tbl names (Hnd & Hnames)%build_case_names.
    rewrite main_loop_cases in Hfail by done.
    pose proof (for_every_outcome
                  (λ st : state, st = initial ∨ bound args st)
                  (λ f, Args.fuel args = true ∧ Args.gens args = true)
                  (cases_of scenario_settings)
                  (λ st case, case_outputs args zmap case.1 st case.2)
                  initial) as Hloop.
    rewrite Hfail in Hloop. apply Hloop; [by left|].
    intros st [y [c s]] Hin Hst. cbn beta iota delta [fst snd] in *.
    pose proof (case_outputs_outcome args zmap y c s st Hst) as Hcase.
    destruct (case_outputs args zmap y st (c, s)) as [st2|f' ws'].
    + right. apply Hcase.
    + destruct Hcase as [(e & -> & He)|(_ & ? & ?)]; [|done].
      destruct (Hnames _ Hin) as (name & Hname). simpl in Hname. congruence.
Qed.

(** X19 -- the transmission constraints behind the network files: with the
    generators asked for they are made once, from the settings of the first
    case, and the network file of every case, of every year, is made from
    them and the emission policies of its own settings; without the
    generators they are made anew from the settings of each case. *)
Theorem network_frames args zmap scenario_settings st first rest :
  NoDup (dict_keys scenario_settings) →
  main_loop args zmap scenario_settings = Done st →
  Args.transmission args = true →
  cases_of scenario_settings = first :: rest →
  frames_of "Network.csv" (written st) =
    (λ case : key * (key * mapping),
       add_emission_policies
         (transmission_of args
            (if Args.gens args then first.2.2 else case.2.2))
         case.2.2) <$> cases_of scenario_settings.
Proof.
  intros Hnd Hrun Htrans Hfirst. rewrite main_loop_cases in Hrun by done.
  set (frame := λ case : key * (key * mapping),
              add_emission_policies
                (transmission_of args
                   (if Args.gens args then first.2.2 else case.2.2))
                case.2.2).
  apply (for_every_invariant
           (λ done (st : state),
              (done = [] → st = initial) ∧
              (done ≠ [] →
               bound args st ∧
               (Args.gens args = true →
                transmission st = Some (transmission_of args first.2.2))) ∧
              frames_of "Network.csv" (written st) = frame <$> done)
           _ _ _ _ Hrun); [done|].
  intros done [y [c s]] rest' s1 s2 Hxs (Hnil & Hcons & Hframes) Hstep.
  cbn beta iota delta [fst snd] in Hstep.
  assert (s1 = initial ∨ bound args s1) as Hs1.
  { destruct done; [left; by apply Hnil | right; by apply Hcons]. }
  pose proof (case_outputs_outcome args zmap y c s s1 Hs1) as Hcase.
  rewrite Hstep in Hcase.
  destruct Hcase as (Hbound & name & ws' & _ & Hw & _ & _ & _ & Hnet).
  destruct (Hnet Htrans) as (t & Ht & Hfr & Hzero & Hlater).
  assert (t = transmission_of args (if Args.gens args then first.2.2 else s))
    as Ht'.
  { destruct done as [|d0 done'].
    - rewrite Hfirst in Hxs. injection Hxs as -> _.
      rewrite Hzero by (by rewrite (Hnil eq_refl)). by destruct (Args.gens args).
    - destruct (Hcons ltac:(done)) as [(Hg & Hng & _) Ht0].
      destruct (Args.gens args) eqn:Hgens.
      + destruct (Hg eq_refl) as (Hi & _). rewrite Hlater in Ht0 by lia.
        specialize (Ht0 eq_refl). congruence.
      + apply Hzero. by apply Hng. }
  split; [by destruct done|]. split.
  - intros _. split; [done|]. intros Hg. rewrite Ht, Ht'. by rewrite Hg.
  - rewrite Hw, frames_of_app, Hframes, Hfr, fmap_app. simpl. unfold frame at 2.
    simpl. by rewrite Ht'.
Qed.

(** X20 -- the files of a run: for every case, in the order of the years and
    of the cases, in the folder [year/case_id_year_case_name], the two
    generator files if the generators are asked for, the load file if the
    load is, the network file if the transmission is, and the fuel file if
    the fuels and the generators are; the later cases write the files the
    first case writes. *)
Theorem files_written args zmap scenario_settings st :
  NoDup (dict_keys scenario_settings) →
  main_loop args zmap scenario_settings = Done st →
  (λ w, (folder w, file_name w)) <$> written st =
    flat_map (files_of_case args) (cases_of scenario_settings).
Proof.
  intros Hnd Hrun. rewrite main_loop_cases in Hrun by done.
  apply (for_every_invariant
           (λ done (st : state),
              (done = [] → st = initial) ∧
              (done ≠ [] → bound args st) ∧
              names (written st) = flat_map (files_of_case args) done)
           _ _ _ _ Hrun); [done|].
  intros done [y [c s]] rest' s1 s2 Hxs (Hnil & Hcons & Hfiles) Hstep.
  cbn beta iota delta [fst snd] in Hstep.
  assert (s1 = initial ∨ bound args s1) as Hs1.
  { destruct done; [left; by apply Hnil | right; by apply Hcons]. }
  pose proof (case_outputs_outcome args zmap y c s s1 Hs1) as Hcase.
  rewrite Hstep in Hcase.
  destruct Hcase as (Hbound & name & ws' & Hname & Hw & Hn & _).
  split; [by destruct done|]. split; [done|].
  rewrite Hw, fmap_app, Hfiles, Hn, flat_map_app. f_equal.
  cbn [flat_map]. rewrite app_nil_r. unfold files_of_case. cbn [fst snd].
  by rewrite Hname.
Qed.

(** X21 -- the index of the generator files: with the generators asked for,
    [Generators_data.csv] is written with [include_index=False] for the first
    case only; for every later case the call leaves [include_index] to its
    default. *)
Theorem generator_index_flags args zmap scenario_settings st :
  NoDup (dict_keys scenario_settings) →
  main_loop args zmap scenario_settings = Done st →
  Args.gens args = true →
  index_flags_of "Generators_data.csv" (written st) =
    match cases_of scenario_settings with
    | [] => []
    | _ :: rest => Some false :: replicate (length rest) None
    end.
Proof.
  intros Hnd Hrun Hgens. rewrite main_loop_cases in Hrun by done.
  apply (for_every_invariant
           (λ done (st : state),
              (done = [] → st = initial) ∧
              (done ≠ [] → bound args st) ∧
              index_flags_of "Generators_data.csv" (written st) =
                match done with
                | [] => []
                | _ :: rest => Some false :: replicate (length rest) None
                end)
           _ _ _ _ Hrun); [done|].
  intros done [y [c s]] rest' s1 s2 Hxs (Hnil & Hcons & Hflags) Hstep.
  cbn beta iota delta [fst snd] in Hstep.
  assert (s1 = initial ∨ bound args s1) as Hs1.
  { destruct done; [left; by apply Hnil | right; by apply Hcons]. }
  pose proof (case_outputs_outcome args zmap y c s s1 Hs1) as Hcase.
  rewrite Hstep in Hcase.
  destruct Hcase as (Hbound & name & ws' & _ & Hw & _ & Hx & _).
  split; [by destruct done|]. split; [done|].
  rewrite Hw, index_flags_of_app, Hflags, (Hx Hgens).
  destruct done as [|d0 done'].
  - by rewrite (Hnil eq_refl).
  - destruct (Hcons ltac:(done)) as (Hg & _). destruct (Hg Hgens) as (Hi & _).
    rewrite bool_decide_eq_false_2 by lia. cbn [app length].
    rewrite length_app. cbn [length].
    replace (length done' + 1)%nat with (S (length done')) by lia.
    by rewrite replicate_S_end.
Qed.

End Loop.

Lemma generator_index_flags_witness :
  ∃ st,
    main_loop (H := example_collaborators) example_args []
      example_scenario_settings = Done st ∧
    index_flags_of "Generators_data.csv" (written st) = [Some false; None].
Proof.
  destruct (main_loop (H := example_collaborators) example_args []
              example_scenario_settings) as [st|f ws] eqn:Hrun;
    [|vm_compute in Hrun; discriminate].
  exists st. split; [reflexivity|].
  rewrite (generator_index_flags (H := example_collaborators) example_args []
             example_scenario_settings st);
    [reflexivity | by apply (bool_decide_unpack _) | exact Hrun | reflexivity].
Defined.

Lemma main_loop_failure_witness :
  ∃ f ws,
    main_loop (H := example_collaborators) example_args []
      nameless_scenario_settings = Failed f ws ∧
    f = Raised KeyError.
Proof.
  destruct (main_loop (H := example_collaborators) example_args []
              nameless_scenario_settings) as [st|f ws] eqn:Hrun;
    [vm_compute in Hrun; discriminate|].
  exists f, ws. split; [reflexivity|].
  exact (proj1 (main_loop_failure _ _ _ _ _ Hrun)).
Defined.

Lemma network_frames_witness :
  ∃ st,
    main_loop (H := example_collaborators) example_args []
      example_scenario_settings = Done st ∧
    frames_of "Network.csv" (written st) =
      [["policies"; "Base_case"; "distance"; "transmission"; "Base_case"];
       ["policies"; "High_gas"; "distance"; "transmission"; "Base_case"]].
Proof.
  destruct (main_loop (H := example_collaborators) example_args []
              example_scenario_settings) as [st|f ws] eqn:Hrun;
    [|vm_compute in Hrun; discriminate].
  exists st. split; [reflexivity|].
  rewrite (network_frames (H := example_collaborators) example_args []
             example_scenario_settings st
             (KInt 2030, (KStr "p1", resolved_p1))
             [(KInt 2030, (KStr "p2", resolved_p2))]);
    [reflexivity | by apply (bool_decide_unpack _) | exact Hrun
    | reflexivity | reflexivity].
Defined.

Lemma files_written_witness :
  ∃ st,
    main_loop (H := example_collaborators) example_args []
      example_scenario_settings = Done st ∧
    length (written st) = 10%nat.
Proof.
  destruct (main_loop (H := example_collaborators) example_args []
              example_scenario_settings) as [st|f ws] eqn:Hrun;
    [|vm_compute in Hrun; discriminate].
  exists st. split; [reflexivity|].
  rewrite <- (length_fmap (λ w, (folder w, file_name w))).
  rewrite (files_written (H := example_collaborators) example_args []
             example_scenario_settings st);
    [reflexivity | by apply (bool_decide_unpack _) | exact Hrun].
Defined.

End MainProps.
